(** * AABT-Coins: the account store of [Coins/data_sheet.py]

    A shallow embedding of the persistence layer (user balances, group
    check-in flags and the per-day payment log) together with the
    properties of its operations.

    - Python [float] values are IEEE 754 binary64 numbers, taken from the
      Standard Library's [SpecFloat] ([prec = 53], [emax = 1024]).
    - The three SQL tables are lists of rows in scan order; [first()] is
      the first matching row of that order.  SQLite scans a table in the
      order of its integer primary key, so a new user or group row takes
      its place among the keys, and a payment record, whose key is the
      next integer, goes last.
    - An INTEGER column holds 64-bit signed integers: writing a volume
      outside of them raises [OverflowError].  User and group ids and the
      whole seconds of the clock are taken to be within that range.
    - A REAL column holds no negative zero: [-0.0] is read back as [0.0].
    - [time.time()], [time.strftime(...)] and [random.random()] read the
      outside world: they are streams of readings carried by the [World]. *)

From Stdlib Require Import ZArith List Bool String Lia Permutation Sorted.
From Stdlib Require Import QArith Qabs Lqa Qpower.
From Stdlib Require Import Floats.SpecFloat.
Import ListNotations.
Open Scope Z_scope.

(** ** Python exceptions and results *)

Inductive exn : Set :=
| AttributeError   (* attribute access on [None] *)
| IntegrityError   (* primary key or NOT NULL violation *)
| ValueError       (* [int(nan)] *)
| OverflowError.   (* [int(inf)], an int too large for an INTEGER column *)

Inductive result (A : Type) : Type :=
| Ok (a : A)
| Raise (e : exn).
Arguments Ok {A} a.
Arguments Raise {A} e.

(** ** Python floats *)

Module PyFloat.

Definition prec : Z := 53.
Definition emax : Z := 1024.

Definition float : Set := spec_float.

Definition fadd : float -> float -> float := SFadd prec emax.
Definition fsub : float -> float -> float := SFsub prec emax.
Definition fdiv : float -> float -> float := SFdiv prec emax.
Definition flt : float -> float -> bool := SFltb.
Definition fle : float -> float -> bool := SFleb.

(** [float(z)] for a Python int: the nearest binary64 number. *)
Definition float_of_int (z : Z) : float := binary_normalize prec emax z 0 false.

(** The decimal literal [n / 10^k], e.g. [5.3333] is [literal 53333 4]:
    both operands are exact, so the quotient is the nearest float. *)
Definition literal (n k : Z) : float := fdiv (float_of_int n) (float_of_int (10 ^ k)).

Definition is_nan (x : float) : bool :=
  match x with S754_nan => true | _ => false end.

Definition is_finite (x : float) : bool :=
  match x with S754_zero _ | S754_finite _ _ _ => true | _ => false end.

(** The integer nearest to [n / d], ties to the even one ([0 < d]). *)
Definition round_half_even (n d : Z) : Z :=
  let q := n / d in
  let r := n mod d in
  match 2 * r ?= d with
  | Lt => q
  | Gt => q + 1
  | Eq => if Z.even q then q else q + 1
  end.

(** The integer nearest to [m * 2^e * p], ties to the even one. *)
Definition nearest_scaled (m : positive) (e p : Z) : Z :=
  if 0 <=? e then Zpos m * 2 ^ e * p
  else round_half_even (Zpos m * p) (2 ^ (- e)).

(** The float nearest to the decimal [k / p] with the sign [s] (reading a
    decimal string back). *)
Definition of_decimal (s : bool) (k p : Z) : float :=
  match k with
  | Zpos k' => fdiv (S754_finite s k' 0) (float_of_int p)
  | _ => S754_zero s
  end.

(** [round(x, ndigits)] on a float, [0 <= ndigits]: the exact value of
    [x] is rounded to [ndigits] decimals (ties to even) and the decimal
    result is read back as the nearest float; zeros, infinities and NaN
    round to themselves. *)
Definition py_round (x : float) (ndigits : Z) : float :=
  match x with
  | S754_finite s m e =>
      let p := 10 ^ ndigits in
      of_decimal s (nearest_scaled m e p) p
  | _ => x
  end.

(** [int(x)] on a float: truncation toward zero. *)
Definition py_int (x : float) : result Z :=
  match x with
  | S754_nan => Raise ValueError
  | S754_infinity _ => Raise OverflowError
  | S754_zero _ => Ok 0
  | S754_finite s m e =>
      let a := if 0 <=? e then Zpos m * 2 ^ e else Zpos m / 2 ^ (- e) in
      Ok (if s then - a else a)
  end.

End PyFloat.
Import PyFloat.

(** A Python number: the functions of the store take and return both. *)
Inductive number : Set :=
| PyInt (z : Z)
| PyFlt (f : float).

(** [int(v)] *)
Definition int (v : number) : result Z :=
  match v with
  | PyInt z => Ok z
  | PyFlt f => py_int f
  end.

(** [round(z, ndigits)] on an int with [0 <= ndigits] is the int itself. *)
Definition round_int (z : Z) (ndigits : Z) : Z := z.

(** ** The tables *)

Module UserData.
Record t : Set := mk { userid : Z; Coins : float; last_login : Z }.
Definition set_Coins (c : float) (u : t) : t := mk (userid u) c (last_login u).
Definition set_last_login (l : Z) (u : t) : t := mk (userid u) (Coins u) l.
End UserData.

Module GroupData.
Record t : Set := mk { groupid : Z; allow : bool }.
Definition set_allow (a : bool) (g : t) : t := mk (groupid g) a.
End GroupData.

Module PayData.
Record t : Set := mk { id : Z; userid : Z; date : string; volume : Z }.
Definition set_volume (v : Z) (p : t) : t := mk (id p) (userid p) (date p) v.
End PayData.

Record Tables : Type := mkTables {
  userdata : list UserData.t;
  groupdata : list GroupData.t;
  pay_data : list PayData.t
}.

Definition with_userdata (us : list UserData.t) (s : Tables) : Tables :=
  mkTables us (groupdata s) (pay_data s).
Definition with_groupdata (gs : list GroupData.t) (s : Tables) : Tables :=
  mkTables (userdata s) gs (pay_data s).
Definition with_pay_data (ps : list PayData.t) (s : Tables) : Tables :=
  mkTables (userdata s) (groupdata s) ps.

(** ** The world: committed tables and the readings still to come *)

Record World : Type := mkWorld {
  tables : Tables;
  time_src : nat -> float;      (* future results of [time.time()] *)
  today_src : nat -> string;    (* future results of [time.strftime("%Y-%m-%d", time.localtime())] *)
  random_src : nat -> float     (* future results of [random.random()] *)
}.

Definition M (A : Type) : Type := World -> result (A * World).

Definition ret {A} (a : A) : M A := fun w => Ok (a, w).

Definition bind {A B} (c : M A) (k : A -> M B) : M B :=
  fun w => match c w with
           | Ok (a, w') => k a w'
           | Raise e => Raise e
           end.

Definition raise {A} (e : exn) : M A := fun _ => Raise e.

Definition lift {A} (r : result A) : M A :=
  match r with Ok a => ret a | Raise e => raise e end.

Declare Scope monad_scope.
Delimit Scope monad_scope with monad.
Notation "x <- c ;; k" := (bind c (fun x => k))
  (at level 61, c at next level, right associativity) : monad_scope.
Notation "c ;;; k" := (bind c (fun _ => k))
  (at level 61, right associativity) : monad_scope.
Open Scope monad_scope.

Definition tl_src {A} (f : nat -> A) : nat -> A := fun n => f (S n).

(** [time.time()] *)
Definition time_time : M float :=
  fun w => Ok (time_src w 0%nat,
               mkWorld (tables w) (tl_src (time_src w)) (today_src w) (random_src w)).

(** [time.strftime("%Y-%m-%d", time.localtime())] *)
Definition time_strftime : M string :=
  fun w => Ok (today_src w 0%nat,
               mkWorld (tables w) (time_src w) (tl_src (today_src w)) (random_src w)).

(** [random.random()] *)
Definition random_random : M float :=
  fun w => Ok (random_src w 0%nat,
               mkWorld (tables w) (time_src w) (today_src w) (tl_src (random_src w))).

(** [with session() as s]: the unit of work starts from the committed tables. *)
Definition session : M Tables := fun w => Ok (tables w, w).

(** [s.commit()] *)
Definition commit (s : Tables) : M unit :=
  fun w => Ok (tt, mkWorld s (time_src w) (today_src w) (random_src w)).

(** A NaN bound to a REAL column is stored as NULL, which [nullable=False]
    refuses. *)
Definition not_null (c : float) : result float :=
  if is_nan c then Raise IntegrityError else Ok c.

(** What a REAL column gives back for the float written to it: SQLite
    keeps a float without a fractional part as an integer, so the sign of
    [-0.0] is lost. *)
Definition real (c : float) : float :=
  match c with
  | S754_zero _ => S754_zero false
  | _ => c
  end.

(** A Python int bound to an INTEGER column: the driver raises
    [OverflowError] outside the 64-bit signed integers. *)
Definition integer (v : Z) : result Z :=
  if (- 2 ^ 63 <=? v) && (v <? 2 ^ 63) then Ok v else Raise OverflowError.

(** ** Queries *)

Definition first {A} (p : A -> bool) (rows : list A) : option A := find p rows.

Definition update {A} (p : A -> bool) (f : A -> A) (rows : list A) : list A :=
  map (fun r => if p r then f r else r) rows.

(** [.first().<column>] raises [AttributeError] on [None]. *)
Definition attr {A B} (col : A -> B) (o : option A) : result B :=
  match o with
  | Some r => Ok (col r)
  | None => Raise AttributeError
  end.

Definition by_userid (userid : Z) (u : UserData.t) : bool :=
  UserData.userid u =? userid.
Definition by_groupid (groupid : Z) (g : GroupData.t) : bool :=
  GroupData.groupid g =? groupid.
Definition pay_by_userid (userid : Z) (p : PayData.t) : bool :=
  PayData.userid p =? userid.
Definition pay_by_userid_date (userid : Z) (d : string) (p : PayData.t) : bool :=
  (PayData.userid p =? userid) && String.eqb (PayData.date p) d.

(** A new row in a table scanned in the order of its integer primary
    key: it goes before the first row with a larger key. *)
Fixpoint insert_by_key {A} (key : A -> Z) (r : A) (rows : list A) : list A :=
  match rows with
  | [] => [r]
  | x :: rest =>
      if key r <? key x then r :: rows else x :: insert_by_key key r rest
  end.

(** [s.add(UserData(...))]: the insert fails on an existing primary key. *)
Definition add_user (u : UserData.t) (s : Tables) : result Tables :=
  if existsb (by_userid (UserData.userid u)) (userdata s) then Raise IntegrityError
  else Ok (with_userdata (insert_by_key UserData.userid u (userdata s)) s).

(** [s.add(GroupData(...))] *)
Definition add_group (g : GroupData.t) (s : Tables) : result Tables :=
  if existsb (by_groupid (GroupData.groupid g)) (groupdata s) then Raise IntegrityError
  else Ok (with_groupdata (insert_by_key GroupData.groupid g (groupdata s)) s).

(** The next value of the integer primary key of [pay_data]. *)
Definition next_id (ps : list PayData.t) : Z :=
  1 + fold_right Z.max 0 (map PayData.id ps).

(** [s.add(PayData(userid=..., date=..., volume=...))]: the record takes
    the next key, so it is the last one of the scan; a volume that does
    not fit the INTEGER column is refused. *)
Definition add_pay (userid : Z) (d : string) (v : Z) (s : Tables) : result Tables :=
  match integer v with
  | Ok v => Ok (with_pay_data (pay_data s ++ [PayData.mk (next_id (pay_data s)) userid d v]) s)
  | Raise e => Raise e
  end.

(** ** The operations of the store *)

Definition is_in_table (userid : Z) : M bool :=
  s <- session ;;
  ret (match first (by_userid userid) (userdata s) with Some _ => true | None => false end).

Definition add_new_user (userid : Z) : M unit :=
  s <- session ;;
  t <- time_time ;;
  now <- lift (int (PyFlt t)) ;;
  s <- lift (add_user (UserData.mk userid (float_of_int 10) now) s) ;;
  commit s.

Definition update_activity (userid : Z) : M unit :=
  known <- is_in_table userid ;;
  (if negb known then add_new_user userid else ret tt) ;;;
  s <- session ;;
  t <- time_time ;;
  now <- lift (int (PyFlt t)) ;;
  commit (with_userdata (update (by_userid userid) (UserData.set_last_login now) (userdata s)) s).

Definition get_Coins (userid : Z) : M float :=
  s <- session ;;
  lift (attr UserData.Coins (first (by_userid userid) (userdata s))).

Definition set_Coins (userid : Z) (length : float) : M unit :=
  s <- session ;;
  current_length <- lift (attr UserData.Coins (first (by_userid userid) (userdata s))) ;;
  let c := py_round (fadd current_length length) 3 in
  t <- time_time ;;
  now <- lift (int (PyFlt t)) ;;
  c <- lift (not_null c) ;;
  commit (with_userdata
            (update (by_userid userid)
                    (fun u => UserData.set_last_login now (UserData.set_Coins (real c) u))
                    (userdata s)) s).

Definition check_group_allow (groupid : Z) : M bool :=
  s <- session ;;
  match first (by_groupid groupid) (groupdata s) with
  | Some _ => lift (attr GroupData.allow (first (by_groupid groupid) (groupdata s)))
  | None => ret false
  end.

Definition set_group_allow (groupid : Z) (allow : bool) : M unit :=
  s <- session ;;
  s <- (match first (by_groupid groupid) (groupdata s) with
        | None => lift (add_group (GroupData.mk groupid false) s)
        | Some _ => ret s
        end) ;;
  commit (with_groupdata (update (by_groupid groupid) (GroupData.set_allow allow) (groupdata s)) s).

Definition get_today : M string := time_strftime.

Definition insert_pay (userid : Z) (volume : number) : M unit :=
  volume <- lift (int volume) ;;
  now_date <- get_today ;;
  s <- session ;;
  match first (pay_by_userid userid) (pay_data s) with
  | None => s <- lift (add_pay userid now_date volume s) ;; commit s
  | Some _ =>
      match first (pay_by_userid_date userid now_date) (pay_data s) with
      | Some _ =>
          current_volume <-
            lift (attr PayData.volume (first (pay_by_userid_date userid now_date) (pay_data s))) ;;
          v <- lift (integer (round_int (current_volume + volume) 3)) ;;
          commit (with_pay_data
                    (update (pay_by_userid_date userid now_date)
                            (PayData.set_volume v)
                            (pay_data s)) s)
      | None => s <- lift (add_pay userid now_date volume s) ;; commit s
      end
  end.

Definition get_pay_data (userid : Z) : M (list (string * Z)) :=
  s <- session ;;
  ret (map (fun i => (PayData.date i, PayData.volume i))
           (filter (pay_by_userid userid) (pay_data s))).

Definition get_today_pay_data (userid : Z) : M number :=
  s <- session ;;
  d <- get_today ;;
  match first (pay_by_userid_date userid d) (pay_data s) with
  | Some _ =>
      d' <- get_today ;;
      v <- lift (attr PayData.volume (first (pay_by_userid_date userid d') (pay_data s))) ;;
      ret (PyInt v)
  | None => ret (PyFlt (S754_zero false))
  end.

(** The test of the sweep on one row: [time.time() - i.last_login > 86400
    and i.Coins > 1], at the reading [t] of the clock.  The subtraction is
    a float subtraction, [last_login] being converted first (a 64-bit
    integer of the table always converts). *)
Definition inactive (t : float) (i : UserData.t) : bool :=
  flt (float_of_int 86400) (fsub t (float_of_int (UserData.last_login i))).
Definition above_one (i : UserData.t) : bool :=
  flt (float_of_int 1) (UserData.Coins i).

(** One turn of the loop of [punish_all_inactive_users].  A balance above
    1 less a draw below 1 is positive, so the value written is not the
    negative zero that the column would give back as [0.0]. *)
Definition punish_row (i : UserData.t) : M UserData.t :=
  t <- time_time ;;
  if inactive t i && above_one i then
    r <- random_random ;;
    c <- lift (not_null (py_round (fsub (UserData.Coins i) r) 3)) ;;
    ret (UserData.set_Coins c i)
  else ret i.

Fixpoint for_each {A B} (body : A -> M B) (rows : list A) : M (list B) :=
  match rows with
  | [] => ret []
  | i :: rest =>
      i' <- body i ;;
      rest' <- for_each body rest ;;
      ret (i' :: rest')
  end.

Definition punish_all_inactive_users : M unit :=
  s <- session ;;
  us <- for_each punish_row (userdata s) ;;
  commit (with_userdata us s).

(** [ORDER BY Coins DESC]: each row goes before the first row whose balance
    is not larger, so rows with equal balances keep their scan order. *)
Fixpoint insert_desc (u : UserData.t) (sorted : list UserData.t) : list UserData.t :=
  match sorted with
  | [] => [u]
  | v :: rest =>
      if fle (UserData.Coins v) (UserData.Coins u)
      then u :: sorted
      else v :: insert_desc u rest
  end.

Definition order_by_Coins_desc (rows : list UserData.t) : list UserData.t :=
  fold_right insert_desc [] rows.

Definition get_sorted : M (list (Z * float)) :=
  s <- session ;;
  ret (map (fun i => (UserData.userid i, UserData.Coins i))
           (order_by_Coins_desc (userdata s))).

(** ** The values of floats and of roundings

    Specification-level notions used to state what the float operations
    compute: the rational value of a float, and the position of an exact
    quotient between two consecutive integers. *)

(** Where [N / D] lies between [N / D] rounded down and the next integer. *)
Definition loc_of (N D : Z) : location :=
  if N mod D =? 0 then loc_Exact else loc_Inexact (2 * (N mod D) ?= D).

(** A shift record stands for the exact quotient [N / D]. *)
Definition encodes (mrs : shr_record) (N D : Z) : Prop :=
  shr_m mrs = N / D /\ loc_of_shr_record mrs = loc_of N D.

Definition pow2 (e : Z) : Q := Qpower (2 # 1) e.

(** The rational value of a finite float (0 for the others). *)
Definition F2Q (x : float) : Q :=
  match x with
  | S754_finite s m e => (inject_Z (cond_Zopp s (Zpos m)) * pow2 e)%Q
  | _ => 0%Q
  end.

(** The float a rounding returns for the mantissa [m] at exponent [e]. *)
Definition mk_float (s : bool) (m e : Z) : float :=
  match m with
  | Z0 => S754_zero s
  | Zpos p => if e <=? emax - prec then S754_finite s p e else S754_infinity s
  | Zneg _ => S754_nan
  end.

(** A float that is not a NaN and carries the sign [s]. *)
Definition has_sign (s : bool) (r : float) : Prop :=
  r = S754_zero s \/ r = S754_infinity s \/ exists m e, r = S754_finite s m e.

(** The largest error of one rounding when the exact value is below [2^p]
    in magnitude. *)
Definition half_ulp (p : Z) : Q := pow2 (fexp prec emax p - 1).

Definition positive_or_zero (r : float) : Prop :=
  r = S754_zero false \/ exists p e, r = S754_finite false p e.

Definition negative_or_zero (r : float) : Prop :=
  r = S754_zero true \/ exists p e, r = S754_finite true p e.

Definition valid (x : float) : bool := valid_binary prec emax x.

(** ** Predicates of the specification *)


(** The key of a payment record: the user and the calendar day. *)
Definition pay_key (p : PayData.t) : Z * string := (PayData.userid p, PayData.date p).

(** At most one payment record per (userid, date) pair. *)
Definition one_per_day (ps : list PayData.t) : Prop := NoDup (map pay_key ps).

(** The integers an INTEGER column holds. *)
Definition int64 (v : Z) : Prop := - 2 ^ 63 <= v < 2 ^ 63.

(** The volume that [insert_pay] writes for the integer [v] on the day
    [d]: the sum with the volume of the record of the day, or [v] itself
    when the day has no record. *)
Definition written (userid : Z) (d : string) (v : Z) (ps : list PayData.t) : Z :=
  match first (pay_by_userid_date userid d) ps with
  | Some r => PayData.volume r + v
  | None => v
  end.

(** The world after a call: a call that raises has committed nothing. *)
Definition after {A} (c : M A) (w : World) : World :=
  match c w with
  | Ok (_, w') => w'
  | Raise _ => w
  end.

(** The world after a sequence of [insert_pay] calls. *)
Definition after_payments (calls : list (Z * number)) (w : World) : World :=
  fold_left (fun w c => after (insert_pay (fst c) (snd c)) w) calls w.

(** The sign bit of a float. *)
Definition sign_of (x : float) : bool :=
  match x with
  | S754_zero s | S754_infinity s | S754_finite s _ _ => s
  | S754_nan => false
  end.

(** The integer [round(x, 3)] stands for: [x] in thousandths, rounded. *)
Definition thousandths (x : float) : Z :=
  match x with
  | S754_finite s m e => cond_Zopp s (nearest_scaled m e 1000)
  | _ => 0
  end.

(** A balance as the store writes it: rounded to three decimals. *)
Definition three_decimals (b : float) : Prop := py_round b 3 = b.


(** A float of magnitude at most [2^32]. *)
Definition moderate (b : float) : Prop :=
  valid b = true /\
  fle (float_of_int (- 2 ^ 32)) b = true /\ fle b (float_of_int (2 ^ 32)) = true.

(** [a] may come before [b] in a listing by descending balance. *)
Definition not_below (a b : UserData.t) : Prop :=
  fle (UserData.Coins b) (UserData.Coins a) = true.

(** No balance is a NaN (the column is NOT NULL). *)
Definition no_nan_Coins (us : list UserData.t) : Prop :=
  Forall (fun u => is_nan (UserData.Coins u) = false) us.

(** A draw of [random.random()]: a float in [0, 1). *)
Definition unit_draw (r : float) : bool :=
  valid r && fle (S754_zero false) r && flt r (float_of_int 1).

(** [0 <= 5.0 - c' <= 1], as Python evaluates it. *)
Definition within_one_below_five (c' : float) : bool :=
  fle (S754_zero false) (fsub (float_of_int 5) c') &&
  fle (fsub (float_of_int 5) c') (float_of_int 1).

(** A reading of [time.time()]: a float in [0, 2^53). *)
Definition clock_reading (t : float) : bool :=
  valid t && fle (S754_zero false) t && flt t (float_of_int (2 ^ 53)).

(** [r] is one of the draws the world holds. *)
Definition drawn_from (w : World) (r : float) : Prop := exists n, r = random_src w n.

(** What the sweep does to the row [i], met at the clock reading [t]. *)
Definition punished (w : World) (t : float) (i i' : UserData.t) : Prop :=
  if inactive t i && above_one i
  then exists r, drawn_from w r /\
                 i' = UserData.set_Coins (py_round (fsub (UserData.Coins i) r) 3) i
  else i' = i.

(** Every draw of the world is a float in [0, 1). *)
Definition draws_in_unit (w : World) : Prop := forall n, unit_draw (random_src w n) = true.

(** The row of [u] after [set_Coins] wrote the balance [c] at the whole
    second [now]. *)
Definition adjusted (c : float) (now : Z) (u : UserData.t) : UserData.t :=
  UserData.set_last_login now (UserData.set_Coins c u).

(** ** Further notions of the specification *)



(** The sum of a list of integers. *)
Definition sum_of (l : list Z) : Z := fold_right Z.add 0 l.

(** A balance or an amount of three decimals, at most [2^32] coins in
    magnitude. *)
Definition decimal (x : float) : Prop :=
  is_finite x = true /\ three_decimals x /\ Z.abs (thousandths x) <= 1000 * 2 ^ 32.

(** A sequence of [set_Coins] calls on one user. *)
Fixpoint set_Coins_each (userid : Z) (lengths : list float) : M unit :=
  match lengths with
  | [] => ret tt
  | length :: rest => set_Coins userid length ;;; set_Coins_each userid rest
  end.

(** A reading of the clock from 1970-01-04 on: at least [2^18] seconds. *)
Definition recent_clock (t : float) : bool :=
  clock_reading t && fle (float_of_int (2 ^ 18)) t.

(** A call of one of the functions of the module. *)
Inductive call : Type :=
| Is_in_table (userid : Z)
| Add_new_user (userid : Z)
| Update_activity (userid : Z)
| Get_Coins (userid : Z)
| Set_Coins (userid : Z) (length : float)
| Check_group_allow (groupid : Z)
| Set_group_allow (groupid : Z) (allow : bool)
| Insert_pay (userid : Z) (volume : number)
| Get_pay_data (userid : Z)
| Get_today_pay_data (userid : Z)
| Punish_all_inactive_users
| Get_sorted.

(** The call, its result dropped. *)
Definition exec (c : call) : M unit :=
  match c with
  | Is_in_table userid => is_in_table userid ;;; ret tt
  | Add_new_user userid => add_new_user userid
  | Update_activity userid => update_activity userid
  | Get_Coins userid => get_Coins userid ;;; ret tt
  | Set_Coins userid length => set_Coins userid length
  | Check_group_allow groupid => check_group_allow groupid ;;; ret tt
  | Set_group_allow groupid allow => set_group_allow groupid allow
  | Insert_pay userid volume => insert_pay userid volume
  | Get_pay_data userid => get_pay_data userid ;;; ret tt
  | Get_today_pay_data userid => get_today_pay_data userid ;;; ret tt
  | Punish_all_inactive_users => punish_all_inactive_users
  | Get_sorted => get_sorted ;;; ret tt
  end.

(** The world after a sequence of calls, whatever each one returned or
    raised. *)
Definition after_calls (calls : list call) (w : World) : World :=
  fold_left (fun w c => after (exec c) w) calls w.

(** Every reading of the clock is a finite float.  Then [int(time.time())]
    never raises, so that [update_activity], the one function with two
    commits, cannot raise after its first commit: a call that raises has
    committed nothing. *)
Definition finite_clock (w : World) : Prop :=
  forall n, is_finite (time_src w n) = true.

(** Keys are unique, there is one payment record per user and day, and no
    balance is a NaN. *)
Definition consistent (s : Tables) : Prop :=
  NoDup (map UserData.userid (userdata s)) /\
  NoDup (map GroupData.groupid (groupdata s)) /\
  one_per_day (pay_data s) /\
  no_nan_Coins (userdata s).

(** [l'] holds the elements of [l], in the order they have in [l], and
    possibly others among them. *)
Inductive subsequence {A : Type} : list A -> list A -> Prop :=
| subsequence_nil : subsequence [] []
| subsequence_cons (a : A) (l l' : list A) :
    subsequence l l' -> subsequence (a :: l) (a :: l')
| subsequence_skip (a : A) (l l' : list A) :
    subsequence l l' -> subsequence l (a :: l').

(** No key is lost: the userids and the groupids of [s] are keys of [s'],
    in the order they had, and the payment records of [s] are the first
    ones of [s']. *)
Definition grows (s s' : Tables) : Prop :=
  subsequence (map UserData.userid (userdata s)) (map UserData.userid (userdata s')) /\
  subsequence (map GroupData.groupid (groupdata s)) (map GroupData.groupid (groupdata s')) /\
  (exists ps, map pay_key (pay_data s') = map pay_key (pay_data s) ++ ps).

(** What one call may do to the world. *)
Definition step_ok (w w' : World) : Prop :=
  (finite_clock w -> finite_clock w') /\
  (consistent (tables w) -> consistent (tables w')) /\
  grows (tables w) (tables w').

(** * Properties *)

(** ** Binary64 arithmetic *)

Lemma digits2_pos_bounds (p : positive) :
  2 ^ (Zpos (digits2_pos p) - 1) <= Zpos p < 2 ^ Zpos (digits2_pos p).
Proof.
  induction p as [p IH|p IH|]; cbn [digits2_pos]; [| |cbn; lia].
  - rewrite Pos2Z.inj_succ.
    replace (Z.succ (Zpos (digits2_pos p)) - 1) with (Z.succ (Zpos (digits2_pos p) - 1)) by lia.
    rewrite !Z.pow_succ_r by lia. lia.
  - rewrite Pos2Z.inj_succ.
    replace (Z.succ (Zpos (digits2_pos p)) - 1) with (Z.succ (Zpos (digits2_pos p) - 1)) by lia.
    rewrite !Z.pow_succ_r by lia. lia.
Qed.

Lemma Zdigits2_bounds (m : Z) :
  0 < m -> 2 ^ (Zdigits2 m - 1) <= m < 2 ^ Zdigits2 m.
Proof. destruct m; try lia. intros _. apply digits2_pos_bounds. Qed.

Lemma Zdigits2_nonneg (m : Z) : 0 <= Zdigits2 m.
Proof. destruct m; cbn; lia. Qed.

Lemma Zdigits2_pos (m : Z) : 0 < m -> 0 < Zdigits2 m.
Proof. destruct m; cbn; lia. Qed.

(* digits are characterised by the bounds *)
Lemma Zdigits2_unique (m d : Z) :
  0 < m -> 2 ^ (d - 1) <= m < 2 ^ d -> Zdigits2 m = d.
Proof.
  intros Hm [H1 H2]. pose proof (Zdigits2_bounds m Hm) as [B1 B2].
  pose proof (Zdigits2_pos m Hm).
  assert (0 < d).
  { destruct (Z.lt_trichotomy d 0) as [L|[E|G]]; [|subst; cbn in H2; lia|exact G].
    rewrite Z.pow_neg_r in H2; lia. }
  destruct (Z.lt_trichotomy (Zdigits2 m) d) as [L|[E|G]]; [|exact E|].
  - assert (2 ^ Zdigits2 m <= 2 ^ (d - 1)) by (apply Z.pow_le_mono_r; lia). lia.
  - assert (2 ^ d <= 2 ^ (Zdigits2 m - 1)) by (apply Z.pow_le_mono_r; lia). lia.
Qed.

Lemma Zdigits2_le (m d : Z) : 0 <= d -> 0 <= m < 2 ^ d -> Zdigits2 m <= d.
Proof.
  intros Hd [H0 H]. destruct (Z.eq_dec m 0) as [->|Hm]; [cbn; lia|].
  pose proof (Zdigits2_bounds m ltac:(lia)) as [B1 B2].
  destruct (Z.le_gt_cases (Zdigits2 m) d) as [L|G]; [exact L|].
  assert (2 ^ d <= 2 ^ (Zdigits2 m - 1)) by (apply Z.pow_le_mono_r; lia). lia.
Qed.

Lemma shr_1_shape (m : Z) (r s : bool) :
  0 <= m ->
  shr_1 {| shr_m := m; shr_r := r; shr_s := s |}
  = {| shr_m := m / 2; shr_r := (m mod 2 =? 1); shr_s := orb r s |}.
Proof.
  intros Hm. destruct m as [|p|p]; [reflexivity| |lia].
  destruct p as [p|p|]; cbn [shr_1].
  - rewrite Pos2Z.inj_xI.
    replace ((2 * Zpos p + 1) / 2) with (Zpos p) by (apply Z.div_unique with 1; lia).
    replace ((2 * Zpos p + 1) mod 2) with 1 by (apply Z.mod_unique with (Zpos p); lia).
    reflexivity.
  - rewrite Pos2Z.inj_xO.
    replace ((2 * Zpos p) / 2) with (Zpos p) by (apply Z.div_unique with 0; lia).
    replace ((2 * Zpos p) mod 2) with 0 by (apply Z.mod_unique with (Zpos p); lia).
    reflexivity.
  - reflexivity.
Qed.

Lemma loc_of_double (N D : Z) :
  0 <= N -> 0 < D ->
  loc_of N (2 * D) =
  loc_of_shr_record
    {| shr_m := N / (2 * D); shr_r := ((N / D) mod 2 =? 1); shr_s := negb (N mod D =? 0) |}.
Proof.
  intros HN HD.
  assert (Hr : N mod (2 * D) = N mod D + D * ((N / D) mod 2))
    by (rewrite (Z.mul_comm 2 D); apply Z.rem_mul_r; lia).
  pose proof (Z.mod_pos_bound N D HD) as Hr0.
  pose proof (Z.mod_pos_bound (N / D) 2 ltac:(lia)) as Hb.
  unfold loc_of. rewrite Hr. cbn [loc_of_shr_record].
  set (r0 := N mod D) in *. set (b := (N / D) mod 2) in *.
  clearbody r0 b. clear Hr.
  assert (Hcase : b = 0 \/ b = 1) by lia.
  destruct Hcase as [->| ->]; cbn [Z.eqb Pos.eqb].
  - rewrite Z.mul_0_r, Z.add_0_r. destruct (Z.eqb_spec r0 0) as [E|E]; cbn [negb]; [reflexivity|].
    f_equal. apply Z.compare_lt_iff. lia.
  - rewrite Z.mul_1_r. destruct (Z.eqb_spec r0 0) as [E|E]; cbn [negb].
    + subst r0. rewrite Z.add_0_l. destruct (Z.eqb_spec D 0); [lia|]. f_equal. apply Z.compare_eq_iff. lia.
    + destruct (Z.eqb_spec (r0 + D) 0); [lia|]. f_equal. apply Z.compare_gt_iff. lia.
Qed.

Lemma shr_1_encodes (mrs : shr_record) (N D : Z) :
  0 <= N -> 0 < D -> encodes mrs N D -> encodes (shr_1 mrs) N (2 * D).
Proof.
  intros HN HD [Hm Hl].
  assert (Hq : N / (2 * D) = (N / D) / 2) by (rewrite (Z.mul_comm 2 D), Z.div_div; lia).
  pose proof (Z.div_pos N D HN HD) as Hq0.
  destruct mrs as [m r s]. cbn [shr_m] in Hm. subst m.
  rewrite shr_1_shape by exact Hq0.
  split; cbn [shr_m]; [now rewrite Hq|].
  rewrite loc_of_double by assumption. cbn [loc_of_shr_record] in *.
  assert (Hs : orb r s = negb (N mod D =? 0)).
  { unfold loc_of in Hl. destruct (N mod D =? 0); destruct r, s; cbn; try reflexivity; try discriminate. }
  now rewrite Hs.
Qed.

Lemma iter_pos_encodes (p : positive) : forall (mrs : shr_record) (N D : Z),
  0 <= N -> 0 < D -> encodes mrs N D ->
  encodes (iter_pos shr_1 p mrs) N (D * 2 ^ Zpos p).
Proof.
  induction p as [p IH|p IH|]; intros mrs N D HN HD H; cbn [iter_pos].
  - assert (E : D * 2 ^ Zpos p~1 = (2 * D) * 2 ^ Zpos p * 2 ^ Zpos p).
    { rewrite <- Z.mul_assoc, <- Z.pow_add_r by lia.
      replace (Zpos p~1) with (1 + (Zpos p + Zpos p)) by lia.
      rewrite (Z.pow_add_r 2 1) by lia. ring. }
    rewrite E. pose proof (Z.pow_pos_nonneg 2 (Zpos p) ltac:(lia) ltac:(lia)).
    apply IH; [lia|nia|]. apply IH; [lia|lia|]. now apply shr_1_encodes.
  - assert (E : D * 2 ^ Zpos p~0 = D * 2 ^ Zpos p * 2 ^ Zpos p).
    { rewrite <- Z.mul_assoc, <- Z.pow_add_r by lia. f_equal. f_equal. lia. }
    rewrite E. pose proof (Z.pow_pos_nonneg 2 (Zpos p) ltac:(lia) ltac:(lia)).
    apply IH; [lia|nia|]. now apply IH.
  - rewrite Z.pow_1_r, Z.mul_comm. now apply shr_1_encodes.
Qed.

Lemma shr_encodes (mrs : shr_record) (e n N D : Z) :
  0 <= N -> 0 < D -> encodes mrs N D ->
  encodes (fst (shr mrs e n)) N (D * 2 ^ Z.max n 0) /\ snd (shr mrs e n) = e + Z.max n 0.
Proof.
  intros HN HD H. destruct n as [|p|p]; cbn [shr fst snd].
  - change (Z.max 0 0) with 0. rewrite Z.pow_0_r, Z.mul_1_r, Z.add_0_r. auto.
  - rewrite Z.max_l by lia. split; [now apply iter_pos_encodes | reflexivity].
  - rewrite Z.max_r by lia. rewrite Z.pow_0_r, Z.mul_1_r, Z.add_0_r. auto.
Qed.

Lemma loc_of_shr_record_of_loc (m : Z) (l : location) :
  loc_of_shr_record (shr_record_of_loc m l) = l /\ shr_m (shr_record_of_loc m l) = m.
Proof. destruct l as [|[]]; cbn; auto. Qed.

Lemma round_nearest_even_encodes (mrs : shr_record) (N D : Z) :
  0 < D -> encodes mrs N D ->
  round_nearest_even (shr_m mrs) (loc_of_shr_record mrs) = round_half_even N D.
Proof.
  intros HD [Hm Hl]. rewrite Hm, Hl. unfold loc_of, round_half_even, round_nearest_even.
  destruct (Z.eqb_spec (N mod D) 0) as [E|E].
  - rewrite E. cbn [Z.mul]. destruct (Z.compare_spec 0 D); lia.
  - destruct (2 * (N mod D) ?= D); reflexivity.
Qed.

(* rounding error of round_half_even, and its bounds *)
Lemma round_half_even_error (N D : Z) :
  0 < D -> 2 * Z.abs (round_half_even N D * D - N) <= D.
Proof.
  intros HD. unfold round_half_even.
  pose proof (Z.div_mod N D ltac:(lia)). pose proof (Z.mod_pos_bound N D HD).
  destruct (Z.compare_spec (2 * (N mod D)) D); [destruct (Z.even (N / D))| |]; nia.
Qed.

Lemma round_half_even_bounds (N D : Z) :
  0 < D -> N / D <= round_half_even N D <= N / D + 1.
Proof.
  intros HD. unfold round_half_even.
  destruct (2 * (N mod D) ?= D); [destruct (Z.even (N / D))| |]; lia.
Qed.

Lemma round_half_even_unique (N D k : Z) :
  0 < D -> 2 * Z.abs (k * D - N) < D -> round_half_even N D = k.
Proof.
  intros HD Hk. pose proof (round_half_even_error N D HD). nia.
Qed.

Lemma round_half_even_exact (k D : Z) : 0 < D -> round_half_even (k * D) D = k.
Proof. intros HD. apply round_half_even_unique; [exact HD|]. replace (k * D - k * D) with 0 by ring. cbn. lia. Qed.



Lemma fexp_eq (e : Z) : fexp prec emax e = Z.max (e - 53) (-1074).
Proof. reflexivity. Qed.

Lemma Zdigits2_shift (m n : Z) :
  0 <= m -> 0 <= n -> Zdigits2 (m / 2 ^ n) <= Z.max (Zdigits2 m - n) 0.
Proof.
  intros Hm Hn. destruct (Z.eq_dec m 0) as [->|Hm0].
  { rewrite Z.div_0_l by (apply Z.pow_nonzero; lia). cbn. lia. }
  pose proof (Zdigits2_bounds m ltac:(lia)) as [_ B].
  pose proof (Z.pow_pos_nonneg 2 n ltac:(lia) Hn) as Hp.
  destruct (Z.le_gt_cases n (Zdigits2 m)) as [L|G].
  - rewrite Z.max_l by lia. apply Zdigits2_le; [lia|]. split; [apply Z.div_pos; lia|].
    apply Z.div_lt_upper_bound; [lia|]. rewrite <- Z.pow_add_r by lia.
    now replace (n + (Zdigits2 m - n)) with (Zdigits2 m) by lia.
  - rewrite Z.max_r by lia.
    assert (2 ^ Zdigits2 m <= 2 ^ n) by (apply Z.pow_le_mono_r; lia).
    rewrite Z.div_small by lia. cbn. lia.
Qed.

Lemma Zdigits2_div_pow2 (m n : Z) :
  0 <= n -> 0 < m / 2 ^ n -> Zdigits2 (m / 2 ^ n) = Zdigits2 m - n.
Proof.
  intros Hn Hq.
  pose proof (Z.pow_pos_nonneg 2 n ltac:(lia) Hn) as Hp.
  assert (Hm : 0 < m).
  { destruct (Z.lt_trichotomy m 0) as [L|[E|G]]; [|subst; rewrite Z.div_0_l in Hq; lia|exact G].
    pose proof (Z.div_lt_upper_bound m (2 ^ n) 0 Hp ltac:(lia)). lia. }
  pose proof (Zdigits2_bounds m Hm) as [B1 B2].
  assert (Hge : 2 ^ n <= m).
  { destruct (Z.le_gt_cases (2 ^ n) m); [assumption|]. rewrite Z.div_small in Hq; lia. }
  assert (Hnd : n < Zdigits2 m).
  { destruct (Z.lt_ge_cases n (Zdigits2 m)); [assumption|].
    assert (2 ^ Zdigits2 m <= 2 ^ n) by (apply Z.pow_le_mono_r; lia). lia. }
  apply Zdigits2_unique; [exact Hq|]. split.
  - apply Z.div_le_lower_bound; [lia|]. rewrite <- Z.pow_add_r by lia.
    now replace (n + (Zdigits2 m - n - 1)) with (Zdigits2 m - 1) by lia.
  - apply Z.div_lt_upper_bound; [lia|]. rewrite <- Z.pow_add_r by lia.
    now replace (n + (Zdigits2 m - n)) with (Zdigits2 m) by lia.
Qed.

Lemma Zdigits2_succ_cases (m M : Z) :
  0 <= m -> m <= M <= m + 1 ->
  Zdigits2 M <= Zdigits2 m \/ (M = 2 ^ Zdigits2 m /\ Zdigits2 M = Zdigits2 m + 1).
Proof.
  intros Hm HM. pose proof (Zdigits2_nonneg m) as Hd.
  assert (Hlt : m < 2 ^ Zdigits2 m).
  { destruct (Z.eq_dec m 0) as [->|]; [cbn; lia|]. apply Zdigits2_bounds. lia. }
  destruct (Z.eq_dec M (2 ^ Zdigits2 m)) as [E|NE].
  - right. split; [exact E|]. apply Zdigits2_unique; [lia|].
    replace (Zdigits2 m + 1 - 1) with (Zdigits2 m) by lia.
    rewrite Z.pow_add_r, Z.pow_1_r by lia. lia.
  - left. apply Zdigits2_le; lia.
Qed.

Lemma binary_round_aux_spec (s : bool) (mx ex : Z) (lx : location) (N D : Z) :
  0 <= N -> 0 < D -> mx = N / D -> lx = loc_of N D ->
  let e1 := Z.max ex (fexp prec emax (Zdigits2 mx + ex)) in
  let M := round_half_even N (D * 2 ^ (e1 - ex)) in
  exists m3 e3,
    ((e3 = e1 /\ M = m3) \/ (e3 = e1 + 1 /\ M = 2 * m3)) /\
    0 <= m3 /\
    (ex <= fexp prec emax (Zdigits2 mx + ex) -> 0 < m3 ->
     fexp prec emax (Zdigits2 m3 + e3) = e3) /\
    binary_round_aux prec emax s mx ex lx =
    match m3 with
    | Z0 => S754_zero s
    | Zpos p => if e3 <=? emax - prec then S754_finite s p e3 else S754_infinity s
    | Zneg _ => S754_nan
    end.
Proof.
  intros HN HD Hmx Hlx. rewrite fexp_eq. intros e1 M.
  unfold binary_round_aux, shr_fexp.
  rewrite fexp_eq.
  set (n1 := Z.max (Zdigits2 mx + ex - 53) (-1074) - ex).
  assert (He1 : e1 = ex + Z.max n1 0) by (unfold e1, n1; lia).
  assert (Henc0 : encodes (shr_record_of_loc mx lx) N D).
  { destruct (loc_of_shr_record_of_loc mx lx) as [Hl Hm]. split; congruence. }
  destruct (shr_encodes _ ex n1 N D HN HD Henc0) as [Henc1 Hsnd1].
  destruct (shr (shr_record_of_loc mx lx) ex n1) as [mrs' e'] eqn:Hshr1.
  cbn [fst snd] in Henc1, Hsnd1.
  assert (HD1 : 0 < D * 2 ^ Z.max n1 0).
  { pose proof (Z.pow_pos_nonneg 2 (Z.max n1 0) ltac:(lia) ltac:(lia)). nia. }
  rewrite (round_nearest_even_encodes _ _ _ HD1 Henc1).
  replace (Z.max n1 0) with (e1 - ex) in * by lia.
  fold M. replace e' with e1 by lia. clear Hsnd1 e' Hshr1.
  (* the bracket around M *)
  set (m' := N / (D * 2 ^ (e1 - ex))) in *.
  assert (Hm'0 : 0 <= m') by (apply Z.div_pos; lia).
  assert (HM : m' <= M <= m' + 1) by (apply round_half_even_bounds; exact HD1).
  assert (Hm' : m' = mx / 2 ^ (e1 - ex)).
  { unfold m'. rewrite Hmx, Z.div_div; [reflexivity|lia|apply Z.pow_pos_nonneg; lia]. }
  assert (HA : Z.max (Zdigits2 m' + e1 - 53) (-1074) <= e1).
  { assert (Hmx0 : 0 <= mx) by (rewrite Hmx; apply Z.div_pos; lia).
    pose proof (Zdigits2_shift mx (e1 - ex) Hmx0 ltac:(lia)) as Hsh.
    rewrite <- Hm' in Hsh. lia. }
  (* second shift *)
  rewrite fexp_eq.
  set (n2 := Z.max (Zdigits2 M + e1 - 53) (-1074) - e1).
  assert (HencM : encodes (shr_record_of_loc M loc_Exact) M 1).
  { split; cbn [shr_record_of_loc shr_m loc_of_shr_record].
    - now rewrite Z.div_1_r.
    - unfold loc_of. now rewrite Z.mod_1_r. }
  destruct (shr_encodes _ e1 n2 M 1 ltac:(lia) ltac:(lia) HencM) as [[Hm3 _] Hsnd2].
  destruct (shr (shr_record_of_loc M loc_Exact) e1 n2) as [mrs'' e''] eqn:Hshr2.
  cbn [fst snd] in Hm3, Hsnd2. rewrite Hm3, Z.mul_1_l.
  exists (M / 2 ^ Z.max n2 0), e''.
  assert (Hn2 : n2 <= 0 \/ (n2 = 1 /\ M mod 2 = 0)).
  { destruct (Zdigits2_succ_cases m' M Hm'0 HM) as [Hle|[HMp Hd]].
    - left. lia.
    - destruct (Z.le_gt_cases n2 0) as [L|G]; [now left|right].
      assert (n2 = 1) by lia.
      split; [assumption|].
      assert (0 < Zdigits2 m').
      { pose proof (Zdigits2_nonneg m'). destruct (Z.eq_dec (Zdigits2 m') 0) as [E0|]; [|lia].
        exfalso. lia. }
      rewrite HMp. replace (Zdigits2 m') with (1 + (Zdigits2 m' - 1)) by lia.
      rewrite Z.pow_add_r, Z.pow_1_r by lia. rewrite Z.mul_comm. apply Z.mod_mul. lia. }
  split; [|split; [|split]].
  - destruct Hn2 as [L|[E Hev]].
    + left. rewrite Z.max_r in * by lia. rewrite Z.pow_0_r, Z.div_1_r. split; [lia|reflexivity].
    + right. rewrite E in *. change (Z.max 1 0) with 1 in *. rewrite Z.pow_1_r.
      split; [lia|]. pose proof (Z.div_mod M 2 ltac:(lia)). lia.
  - apply Z.div_pos; [lia|]. apply Z.pow_pos_nonneg; lia.
  - intros Hcan Hpos. rewrite fexp_eq.
    assert (Hn1 : 0 <= n1) by (unfold n1; lia).
    (* the floor is canonical at e1, or zero in the subnormal range *)
    assert (HA' : (0 < m' /\ Z.max (Zdigits2 m' + e1 - 53) (-1074) = e1)
                  \/ (m' = 0 /\ e1 = -1074)).
    { destruct (Z.eq_dec m' 0) as [E0|NE].
      - right. split; [exact E0|].
        assert (Hmx0 : 0 <= mx) by (rewrite Hmx; apply Z.div_pos; lia).
        destruct (Z.eq_dec mx 0) as [Emx|Nmx].
        + assert (Hd0 : Zdigits2 mx = 0) by (rewrite Emx; reflexivity).
          unfold e1, n1 in *. lia.
        + pose proof (Zdigits2_bounds mx ltac:(lia)) as [B1 B2].
          assert (Hlt : mx < 2 ^ (e1 - ex)).
          { destruct (Z.lt_ge_cases mx (2 ^ (e1 - ex))); [assumption|].
            assert (1 <= mx / 2 ^ (e1 - ex)); [|lia].
            apply Z.div_le_lower_bound; [apply Z.pow_pos_nonneg; lia|lia]. }
          assert (Zdigits2 mx - 1 < e1 - ex).
          { apply (Z.pow_lt_mono_r_iff 2); lia. }
          lia.
      - left. split; [lia|].
        rewrite Hm', Zdigits2_div_pow2 by (rewrite <- ?Hm'; lia). lia. }
    destruct Hn2 as [L|[E Hev]].
    + replace (Z.max n2 0) with 0 in * by lia. rewrite Z.pow_0_r, Z.div_1_r in *.
      assert (e'' = e1) by lia. subst e''.
      destruct HA' as [[Hm'p Hc]|[Hm'z He1z]].
      * destruct (Zdigits2_succ_cases m' M Hm'0 HM) as [Hle|[HMp Hd]]; [|unfold n2 in *; lia].
        assert (Zdigits2 m' <= Zdigits2 M); [|lia].
        pose proof (Zdigits2_bounds m' Hm'p) as [B1 _].
        pose proof (Zdigits2_bounds M Hpos) as [_ B2].
        destruct (Z.le_gt_cases (Zdigits2 m') (Zdigits2 M)); [assumption|].
        assert (2 ^ Zdigits2 M <= 2 ^ (Zdigits2 m' - 1))
          by (apply Z.pow_le_mono_r; lia). lia.
      * assert (M = 1) by lia. subst M. rewrite H. cbn [Zdigits2 digits2_pos]. lia.
    + rewrite E in *. change (Z.max 1 0) with 1 in *. rewrite Z.pow_1_r in *.
      assert (e'' = e1 + 1) by lia. subst e''.
      unfold n2 in *.
      destruct (Zdigits2_succ_cases m' M Hm'0 HM) as [Hle|[HMp Hd]]; [lia|].
      assert (Hd3 : Zdigits2 (M / 2) = Zdigits2 M - 1).
      { replace (M / 2) with (M / 2 ^ 1) by (now rewrite Z.pow_1_r).
        apply Zdigits2_div_pow2; [lia|]. now rewrite Z.pow_1_r. }
      rewrite Hd3. lia.
  - reflexivity.
Qed.

Lemma pow2_pos (e : Z) : (0 < pow2 e)%Q.
Proof. apply Qpower_0_lt. reflexivity. Qed.

Lemma pow2_add (a b : Z) : (pow2 (a + b) == pow2 a * pow2 b)%Q.
Proof. apply Qpower_plus. discriminate. Qed.

Lemma pow2_inject (n : Z) : 0 <= n -> (inject_Z (2 ^ n) == pow2 n)%Q.
Proof. intros H. unfold pow2. now rewrite Zpower_Qpower. Qed.

Lemma pow2_le (a b : Z) : a <= b -> (pow2 a <= pow2 b)%Q.
Proof. intros H. apply Qpower_le_compat_l; [exact H|]. discriminate. Qed.

Lemma pow2_lt_inv (a b : Z) : (pow2 a < pow2 b)%Q -> a < b.
Proof. intros H. apply Qpower_lt_compat_l_inv in H; [exact H|reflexivity]. Qed.

Lemma pow2_succ (a : Z) : (pow2 (a + 1) == 2 * pow2 a)%Q.
Proof. rewrite pow2_add. unfold pow2 at 2. rewrite Qpower_1_r. ring. Qed.

Lemma pow2_pred (a : Z) : (pow2 a == 2 * pow2 (a - 1))%Q.
Proof. rewrite <- pow2_succ. now replace (a - 1 + 1) with a by lia. Qed.

(** The number of digits of [m], from a bound on its value. *)
Lemma digits_le_of_lt (m e p : Z) :
  0 < m -> (inject_Z m * pow2 e < pow2 p)%Q -> Zdigits2 m + e <= p.
Proof.
  intros Hm H. pose proof (Zdigits2_bounds m Hm) as [B _].
  pose proof (Zdigits2_pos m Hm) as Hd.
  assert (H1 : (pow2 (Zdigits2 m - 1) <= inject_Z m)%Q).
  { rewrite <- pow2_inject by lia. now rewrite <- Zle_Qle. }
  assert (H2 : (pow2 (Zdigits2 m - 1 + e) < pow2 p)%Q).
  { rewrite pow2_add. pose proof (pow2_pos e). nra. }
  apply pow2_lt_inv in H2. lia.
Qed.

Lemma F2Q_mk_float (s : bool) (m e : Z) :
  0 <= m -> e <= emax - prec ->
  is_finite (mk_float s m e) = true /\
  (F2Q (mk_float s m e) == inject_Z (cond_Zopp s m) * pow2 e)%Q.
Proof.
  intros Hm He. unfold mk_float. destruct m as [|p|p]; [| |lia].
  - split; [reflexivity|]. cbn. destruct s; cbn; ring.
  - destruct (Z.leb_spec e (emax - prec)); [|lia]. split; reflexivity.
Qed.

Lemma inject_cond_Zopp (s : bool) (m : Z) :
  (inject_Z (cond_Zopp s m) == if s then - inject_Z m else inject_Z m)%Q.
Proof. destruct s; cbn; [now rewrite inject_Z_opp | reflexivity]. Qed.

Lemma mk_float_shape (s : bool) (m e : Z) :
  0 <= m -> e <= emax - prec ->
  mk_float s m e = S754_zero s \/ exists p, mk_float s m e = S754_finite s p e.
Proof.
  intros Hm He. unfold mk_float. destruct m as [|p|p]; [now left| |lia].
  destruct (Z.leb_spec e (emax - prec)); [|lia]. right. now exists p.
Qed.

(** The value of a rounded result: the mantissa is the nearest integer
    (ties to even) of the exact value counted in units of [2^e1]. *)
Lemma binary_round_aux_Q (s : bool) (mx ex : Z) (lx : location) (N D : Z) :
  0 <= N -> 0 < D -> mx = N / D -> lx = loc_of N D ->
  let e1 := Z.max ex (fexp prec emax (Zdigits2 mx + ex)) in
  let M := round_half_even N (D * 2 ^ (e1 - ex)) in
  let r := binary_round_aux prec emax s mx ex lx in
  e1 + 1 <= emax - prec ->
  is_finite r = true /\
  (r = S754_zero s \/ exists p e, r = S754_finite s p e) /\
  0 <= M /\
  (F2Q r == inject_Z (cond_Zopp s M) * pow2 e1)%Q.
Proof.
  intros HN HD Hmx Hlx e1 M r He.
  destruct (binary_round_aux_spec s mx ex lx N D HN HD Hmx Hlx) as (m3 & e3 & Hcase & Hm3 & _ & Hr).
  fold e1 M in Hcase. fold r in Hr.
  assert (He3 : e3 <= emax - prec) by lia.
  destruct (F2Q_mk_float s m3 e3 Hm3 He3) as [Hfin Hval].
  rewrite Hr. split; [exact Hfin|]. split; [|split].
  - destruct (mk_float_shape s m3 e3 Hm3 He3) as [H|[p H]]; [now left|right; eauto].
  - lia.
  - rewrite Hval. destruct Hcase as [[-> ->]|[-> ->]]; [reflexivity|].
    rewrite pow2_succ, !inject_cond_Zopp. rewrite inject_Z_mult.
    destruct s; ring.
Qed.

Lemma valid_mk_float (s : bool) (m e : Z) :
  0 <= m -> (0 < m -> fexp prec emax (Zdigits2 m + e) = e) ->
  valid_binary prec emax (mk_float s m e) = true.
Proof.
  intros Hm Hc. unfold mk_float. destruct m as [|p|p]; [reflexivity| |lia].
  destruct (Z.leb_spec e (emax - prec)) as [L|G]; [|reflexivity].
  cbn [valid_binary]. unfold bounded, canonical_mantissa.
  specialize (Hc ltac:(lia)). cbn [Zdigits2] in Hc.
  rewrite Hc, Z.eqb_refl. cbn. now apply Z.leb_le.
Qed.

(** A rounding that starts at or below the target exponent yields a valid
    float. *)
Lemma binary_round_aux_valid (s : bool) (mx ex : Z) (lx : location) (N D : Z) :
  0 <= N -> 0 < D -> mx = N / D -> lx = loc_of N D ->
  ex <= fexp prec emax (Zdigits2 mx + ex) ->
  valid_binary prec emax (binary_round_aux prec emax s mx ex lx) = true.
Proof.
  intros HN HD Hmx Hlx Hcan.
  destruct (binary_round_aux_spec s mx ex lx N D HN HD Hmx Hlx) as (m3 & e3 & _ & Hm3 & Hc & Hr).
  rewrite Hr. apply valid_mk_float; [exact Hm3|]. intros H. now apply Hc.
Qed.

Lemma binary_round_aux_sign (s : bool) (mx ex : Z) (lx : location) (N D : Z) :
  0 <= N -> 0 < D -> mx = N / D -> lx = loc_of N D ->
  has_sign s (binary_round_aux prec emax s mx ex lx).
Proof.
  intros HN HD Hmx Hlx.
  destruct (binary_round_aux_spec s mx ex lx N D HN HD Hmx Hlx) as (m3 & e3 & _ & Hm3 & _ & Hr).
  rewrite Hr. unfold mk_float, has_sign. destruct m3 as [|p|p]; [auto| |lia].
  destruct (e3 <=? emax - prec); eauto.
Qed.

(** [Pos.iter xO] is the left shift used to align mantissas. *)
Lemma iter_xO (m d : positive) : Zpos (Pos.iter xO m d) = Zpos m * 2 ^ Zpos d.
Proof.
  revert m. induction d as [|d IH] using Pos.peano_ind; intros m.
  - cbn. lia.
  - rewrite Pos.iter_succ, Pos2Z.inj_xO, IH, Pos2Z.inj_succ, Z.pow_succ_r by lia. ring.
Qed.

Lemma shl_align_spec (m : positive) (e e' : Z) :
  let '(m', e'') := shl_align m e e' in
  e'' = Z.min e e' /\ Zpos m' = Zpos m * 2 ^ (e - e'').
Proof.
  unfold shl_align. destruct (e' - e) as [|d|d] eqn:E.
  - split; [lia|]. replace (e - e) with 0 by lia. cbn [Z.pow]. lia.
  - split; [lia|]. replace (e - e) with 0 by lia. cbn [Z.pow]. lia.
  - split; [lia|]. rewrite iter_xO. f_equal. f_equal. lia.
Qed.

Lemma Zdigits2_mul_pow2 (m n : Z) :
  0 < m -> 0 <= n -> Zdigits2 (m * 2 ^ n) = Zdigits2 m + n.
Proof.
  intros Hm Hn. pose proof (Zdigits2_bounds m Hm) as [B1 B2].
  pose proof (Zdigits2_pos m Hm).
  pose proof (Z.pow_pos_nonneg 2 n ltac:(lia) Hn).
  apply Zdigits2_unique; [nia|].
  replace (Zdigits2 m + n - 1) with (Zdigits2 m - 1 + n) by lia.
  rewrite !Z.pow_add_r by lia. nia.
Qed.

(** [binary_round]: the nearest float to [m * 2^e], with its value. *)
Lemma binary_round_Q (s : bool) (m : positive) (e : Z) :
  let E := fexp prec emax (Zpos (digits2_pos m) + e) in
  let r := binary_round prec emax s m e in
  E + 1 <= emax - prec ->
  is_finite r = true /\
  (r = S754_zero s \/ exists p e', r = S754_finite s p e') /\
  exists M : Z,
    0 <= M /\
    (F2Q r == inject_Z (cond_Zopp s M) * pow2 E)%Q /\
    (inject_Z M * pow2 E - inject_Z (Zpos m) * pow2 e <= pow2 (E - 1))%Q /\
    (inject_Z (Zpos m) * pow2 e - inject_Z M * pow2 E <= pow2 (E - 1))%Q /\
    (E <= e -> (inject_Z M * pow2 E == inject_Z (Zpos m) * pow2 e)%Q).
Proof.
  intros E r HE. unfold r, binary_round. fold E.
  pose proof (shl_align_spec m e E) as Hal.
  destruct (shl_align m e E) as [mz ez]. destruct Hal as [Hez Hmz].
  assert (Hd : Zdigits2 (Zpos mz) + ez = Zpos (digits2_pos m) + e).
  { rewrite Hmz, Zdigits2_mul_pow2 by lia. cbn [Zdigits2]. lia. }
  assert (He1 : Z.max ez (fexp prec emax (Zdigits2 (Zpos mz) + ez)) = E).
  { rewrite Hd. fold E. lia. }
  pose proof (binary_round_aux_Q s (Zpos mz) ez loc_Exact (Zpos mz) 1
                ltac:(lia) ltac:(lia)) as H.
  rewrite He1 in H. specialize (H ltac:(now rewrite Z.div_1_r)
                                  ltac:(unfold loc_of; now rewrite Z.mod_1_r) HE).
  destruct H as (Hfin & Hshape & HM & Hval).
  split; [exact Hfin|]. split; [exact Hshape|].
  rewrite Z.mul_1_l in *.
  set (K := E - ez) in *. assert (HK : 0 <= K) by (unfold K; lia).
  exists (round_half_even (Zpos mz) (2 ^ K)). split; [exact HM|]. split; [exact Hval|].
  pose proof (Z.pow_pos_nonneg 2 K ltac:(lia) HK) as HpK.
  pose proof (round_half_even_error (Zpos mz) (2 ^ K) HpK) as Herr.
  set (M := round_half_even (Zpos mz) (2 ^ K)) in *.
  (* exact value, in units of 2^ez *)
  assert (Hx : (inject_Z (Zpos m) * pow2 e == inject_Z (Zpos mz) * pow2 ez)%Q).
  { rewrite Hmz, inject_Z_mult, pow2_inject by lia.
    rewrite <- Qmult_assoc, <- pow2_add. now replace (e - ez + ez) with e by lia. }
  assert (HE2 : (pow2 E == inject_Z (2 ^ K) * pow2 ez)%Q).
  { rewrite pow2_inject by lia. rewrite <- pow2_add. now replace (K + ez) with E by (unfold K; lia). }
  assert (HE1 : (pow2 E == 2 * pow2 (E - 1))%Q) by apply pow2_pred.
  rewrite Hx.
  assert (Hz1 : 2 * (M * 2 ^ K + - Zpos mz) <= 2 ^ K) by lia.
  assert (Hz2 : - 2 ^ K <= 2 * (M * 2 ^ K + - Zpos mz)) by lia.
  rewrite Zle_Qle in Hz1, Hz2.
  rewrite ?inject_Z_mult, ?inject_Z_plus, ?inject_Z_opp, ?inject_Z_mult in Hz1, Hz2.
  change (inject_Z 2) with 2%Q in Hz1, Hz2.
  pose proof (pow2_pos ez) as Hpez.
  change (inject_Z (- Zpos mz)) with (- inject_Z (Zpos mz))%Q in Hz2.
  assert (Hex : E <= e -> (inject_Z M * pow2 E == inject_Z (Zpos mz) * pow2 ez)%Q).
  { intros HEe. assert (HK0 : K = 0) by (unfold K; lia).
    assert (HM1 : M = Zpos mz).
    { unfold M. rewrite HK0, Z.pow_0_r. rewrite <- (Z.mul_1_r (Zpos mz)) at 1.
      apply round_half_even_exact. lia. }
    rewrite HM1. replace E with ez by (unfold K in HK0; lia). reflexivity. }
  split; [|split; [|exact Hex]].
  - clear Hex. generalize dependent (inject_Z (2 ^ K)). generalize dependent (inject_Z (Zpos mz)).
    generalize dependent (inject_Z M). generalize dependent (pow2 ez).
    generalize dependent (pow2 (E - 1)). generalize dependent (pow2 E).
    intros. nra.
  - clear Hex. generalize dependent (inject_Z (2 ^ K)). generalize dependent (inject_Z (Zpos mz)).
    generalize dependent (inject_Z M). generalize dependent (pow2 ez).
    generalize dependent (pow2 (E - 1)). generalize dependent (pow2 E).
    intros. nra.
Qed.

Lemma binary_normalize_Q (z e p : Z) :
  (- pow2 p < inject_Z z * pow2 e < pow2 p)%Q ->
  p <= emax - 1 ->
  let r := binary_normalize prec emax z e false in
  is_finite r = true /\
  (- half_ulp p <= F2Q r - inject_Z z * pow2 e <= half_ulp p)%Q /\
  (0 < z -> positive_or_zero r) /\
  (z < 0 -> negative_or_zero r).
Proof.
  intros Hz Hp r. unfold half_ulp.
  pose proof (pow2_pos (fexp prec emax p - 1)) as Hpos.
  destruct z as [|m|m]; cbn [binary_normalize] in r; subst r.
  - split; [reflexivity|]. split; [|split; lia]. cbn [F2Q]. change (inject_Z 0) with 0%Q. lra.
  - assert (Hd : Zdigits2 (Zpos m) + e <= p) by (apply digits_le_of_lt; [lia|tauto]).
    cbn [Zdigits2] in Hd.
    assert (HE : fexp prec emax (Zpos (digits2_pos m) + e) <= fexp prec emax p)
      by (rewrite !fexp_eq; lia).
    assert (HE' : fexp prec emax p + 1 <= emax - prec)
      by (rewrite fexp_eq; unfold emax, prec in *; lia).
    destruct (binary_round_Q false m e ltac:(lia)) as (Hfin & Hshape & M & HM & Hval & H1 & H2 & _).
    split; [exact Hfin|]. split; [|split; [intros _; exact Hshape | lia]].
    rewrite Hval. cbn [cond_Zopp].
    pose proof (pow2_le (fexp prec emax (Zpos (digits2_pos m) + e) - 1) (fexp prec emax p - 1) ltac:(lia)). lra.
  - assert (Hd : Zdigits2 (Zpos m) + e <= p).
    { apply digits_le_of_lt; [lia|].
      change (Zneg m) with (- Zpos m) in Hz. rewrite inject_Z_opp in Hz. lra. }
    cbn [Zdigits2] in Hd.
    assert (HE : fexp prec emax (Zpos (digits2_pos m) + e) <= fexp prec emax p)
      by (rewrite !fexp_eq; lia).
    assert (HE' : fexp prec emax p + 1 <= emax - prec)
      by (rewrite fexp_eq; unfold emax, prec in *; lia).
    destruct (binary_round_Q true m e ltac:(lia)) as (Hfin & Hshape & M & HM & Hval & H1 & H2 & _).
    split; [exact Hfin|]. split; [|split; [lia | intros _; exact Hshape]].
    rewrite Hval. cbn [cond_Zopp]. rewrite inject_Z_opp.
    change (Zneg m) with (- Zpos m). rewrite inject_Z_opp.
    pose proof (pow2_le (fexp prec emax (Zpos (digits2_pos m) + e) - 1) (fexp prec emax p - 1) ltac:(lia)). lra.
Qed.

Lemma F2Q_aligned (s : bool) (m : positive) (e ez : Z) :
  ez <= e ->
  (F2Q (S754_finite s m e)
   == inject_Z (cond_Zopp s (Zpos (fst (shl_align m e ez)))) * pow2 ez)%Q.
Proof.
  intros H. pose proof (shl_align_spec m e ez) as Hal.
  destruct (shl_align m e ez) as [m' e']. destruct Hal as [He' Hm']. cbn [fst F2Q].
  rewrite Z.min_r in He' by lia. subst e'.
  assert (Hp : (pow2 e == pow2 (e - ez) * pow2 ez)%Q)
    by (rewrite <- pow2_add; now replace (e - ez + ez) with e by lia).
  assert (Hi : (inject_Z (Zpos m') == inject_Z (Zpos m) * pow2 (e - ez))%Q)
    by (rewrite Hm', inject_Z_mult, pow2_inject by lia; reflexivity).
  destruct s; cbn [cond_Zopp]; rewrite ?inject_Z_opp, Hi, Hp; ring.
Qed.

(** Addition of finite floats: exact sum, then one rounding. *)
Lemma fadd_Q (x y : float) (p : Z) :
  is_finite x = true -> is_finite y = true ->
  (- pow2 p < F2Q x + F2Q y < pow2 p)%Q ->
  p <= emax - 1 ->
  is_finite (fadd x y) = true /\
  (- half_ulp p <= F2Q (fadd x y) - (F2Q x + F2Q y) <= half_ulp p)%Q.
Proof.
  intros Hx Hy Hb Hp. unfold half_ulp.
  pose proof (pow2_pos (fexp prec emax p - 1)) as Hpos.
  destruct x as [sx|sx| |sx mx ex]; try discriminate;
    destruct y as [sy|sy| |sy my ey]; try discriminate.
  - split; [destruct sx, sy; reflexivity|]. destruct sx, sy; cbn; lra.
  - split; [reflexivity|]. cbn [fadd SFadd]. cbn [F2Q] in *. lra.
  - split; [reflexivity|]. cbn [fadd SFadd]. cbn [F2Q] in *. lra.
  - unfold fadd. cbn [SFadd].
    set (ez := Z.min ex ey) in *.
    rewrite (F2Q_aligned sx mx ex ez), (F2Q_aligned sy my ey ez) in * by (unfold ez; lia).
    set (zx := cond_Zopp sx (Zpos (fst (shl_align mx ex ez)))) in *.
    set (zy := cond_Zopp sy (Zpos (fst (shl_align my ey ez)))) in *.
    assert (Hs : (inject_Z zx * pow2 ez + inject_Z zy * pow2 ez
                  == inject_Z (zx + zy) * pow2 ez)%Q) by (rewrite inject_Z_plus; ring).
    rewrite Hs in *.
    destruct (binary_normalize_Q (zx + zy) ez p Hb Hp) as (Hfin & Herr & _).
    split; assumption.
Qed.

Lemma fsub_Q (x y : float) (p : Z) :
  is_finite x = true -> is_finite y = true ->
  (- pow2 p < F2Q x - F2Q y < pow2 p)%Q ->
  p <= emax - 1 ->
  is_finite (fsub x y) = true /\
  (- half_ulp p <= F2Q (fsub x y) - (F2Q x - F2Q y) <= half_ulp p)%Q /\
  (F2Q y < F2Q x -> positive_or_zero (fsub x y))%Q.
Proof.
  intros Hx Hy Hb Hp. unfold half_ulp.
  pose proof (pow2_pos (fexp prec emax p - 1)) as Hpos.
  destruct x as [sx|sx| |sx mx ex]; try discriminate;
    destruct y as [sy|sy| |sy my ey]; try discriminate.
  - split; [destruct sx, sy; reflexivity|]. split; [destruct sx, sy; cbn; lra|].
    cbn. lra.
  - split; [reflexivity|]. cbn [fsub SFsub]. cbn [F2Q] in *. split.
    + rewrite !inject_cond_Zopp in *. destruct sy; cbn [negb]; lra.
    + intros H. right. rewrite inject_cond_Zopp in H.
      pose proof (pow2_pos ey).
      assert (0 < inject_Z (Zpos my))%Q by (rewrite <- (Zlt_Qlt 0); lia).
      destruct sy; [eauto|nra].
  - split; [reflexivity|]. cbn [fsub SFsub]. cbn [F2Q] in *. split; [lra|].
    intros H. right. rewrite inject_cond_Zopp in H.
    pose proof (pow2_pos ex).
    assert (0 < inject_Z (Zpos mx))%Q by (rewrite <- (Zlt_Qlt 0); lia).
    destruct sx; [nra|eauto].
  - unfold fsub. cbn [SFsub].
    set (ez := Z.min ex ey) in *.
    rewrite (F2Q_aligned sx mx ex ez), (F2Q_aligned sy my ey ez) in * by (unfold ez; lia).
    set (zx := cond_Zopp sx (Zpos (fst (shl_align mx ex ez)))) in *.
    set (zy := cond_Zopp sy (Zpos (fst (shl_align my ey ez)))) in *.
    assert (Hs : (inject_Z zx * pow2 ez - inject_Z zy * pow2 ez
                  == inject_Z (zx - zy) * pow2 ez)%Q).
    { unfold Z.sub. rewrite inject_Z_plus, inject_Z_opp. ring. }
    rewrite Hs in *.
    destruct (binary_normalize_Q (zx - zy) ez p Hb Hp) as (Hfin & Herr & Hpos' & _).
    split; [assumption|]. split; [assumption|].
    intros H. apply Hpos'.
    assert (Hlt : (inject_Z zy < inject_Z zx)%Q) by (pose proof (pow2_pos ez); nra).
    rewrite <- Zlt_Qlt in Hlt. lia.
Qed.

Lemma new_location_spec (N D : Z) :
  0 < D -> new_location D (N mod D) = loc_of N D.
Proof.
  intros HD. pose proof (Z.mod_pos_bound N D HD) as Hr.
  unfold new_location, new_location_even, new_location_odd, loc_of.
  set (r := N mod D) in *. clearbody r.
  destruct (Z.even D) eqn:Ev; [reflexivity|].
  destruct (Z.eqb_spec r 0) as [E|E]; [reflexivity|]. f_equal.
  assert (Hodd : Z.odd D = true) by (rewrite <- Z.negb_even, Ev; reflexivity).
  apply Z.odd_spec in Hodd. destruct Hodd as [h Hh].
  destruct (Z.compare_spec (2 * r + 1) D); destruct (Z.compare_spec (2 * r) D);
    try reflexivity; lia.
Qed.

Lemma quotient_magnitude (X P Y U D2 D1 A B : Q) :
  (0 < X -> X < P -> 0 < Y -> 0 < U -> 0 < B -> B < D2 -> D1 <= A ->
   X * (B * Y) == A * U -> D1 * U < P * (D2 * Y))%Q.
Proof.
  intros HX0 Hlt HY HU HB L2 L1 HX.
  assert (S1 : (D1 * U <= A * U)%Q) by nra.
  assert (S0 : (0 < B * Y)%Q) by nra.
  assert (S2 : (X * (B * Y) < P * (B * Y))%Q) by nra.
  assert (S4 : (B * Y < D2 * Y)%Q) by nra.
  assert (HP : (0 < P)%Q) by lra.
  assert (S3 : (P * (B * Y) < P * (D2 * Y))%Q) by nra.
  lra.
Qed.

Lemma quotient_error (X M m' B T u E E1 H : Q) :
  (0 < B -> 0 < T -> 0 < u ->
   X * B == m' * u ->
   2 * (M * (B * T) + - m') <= B * T ->
   - (B * T) <= 2 * (M * (B * T) + - m') ->
   E == T * u -> E == 2 * E1 -> E1 <= H ->
   - H <= M * E - X <= H)%Q.
Proof.
  intros HB HT Hu HX Hz1 Hz2 HE2 HE1 Hle.
  assert (A1 : ((M * E - X) * B <= E1 * B)%Q) by nra.
  assert (A2 : ((X - M * E) * B <= E1 * B)%Q) by nra.
  split; nra.
Qed.

(** Division of finite nonzero floats: the magnitude of the quotient is
    rounded once. *)
Lemma fdiv_Q (sx sy : bool) (mx my : positive) (ex ey p : Z) (X : Q) :
  (X * (inject_Z (Zpos my) * pow2 ey) == inject_Z (Zpos mx) * pow2 ex)%Q ->
  (X < pow2 p)%Q ->
  p <= emax - 1 ->
  let r := fdiv (S754_finite sx mx ex) (S754_finite sy my ey) in
  is_finite r = true /\
  (r = S754_zero (xorb sx sy) \/ exists m e, r = S754_finite (xorb sx sy) m e) /\
  exists v : Q,
    (F2Q r == if xorb sx sy then - v else v)%Q /\
    (- half_ulp p <= v - X <= half_ulp p)%Q.
Proof.
  intros HX Hlt Hp r. subst r. unfold fdiv. cbn [SFdiv].
  unfold SFdiv_core_binary.
  set (d1 := Zdigits2 (Zpos mx)). set (d2 := Zdigits2 (Zpos my)).
  set (e' := Z.min (fexp prec emax (d1 + ex - (d2 + ey))) (ex - ey)).
  set (s := ex - ey - e').
  assert (Hs : 0 <= s) by (unfold s, e'; lia).
  set (m' := match s with Zpos _ => Z.shiftl (Zpos mx) s | Z0 => Zpos mx | Zneg _ => 0 end).
  assert (Hm' : m' = Zpos mx * 2 ^ s).
  { unfold m'. destruct s as [|q|q]; [cbn; lia| |lia]. apply Z.shiftl_mul_pow2. lia. }
  clearbody m'.
  pose proof (Z.pow_pos_nonneg 2 s ltac:(lia) Hs) as Hps.
  assert (Hdiv : Z.div_eucl m' (Zpos my) = (m' / Zpos my, m' mod Zpos my)).
  { unfold Z.div, Z.modulo. now destruct (Z.div_eucl m' (Zpos my)). }
  rewrite Hdiv. set (q := m' / Zpos my).
  pose proof (Zdigits2_bounds (Zpos mx) ltac:(lia)) as [B1 B1'].
  pose proof (Zdigits2_bounds (Zpos my) ltac:(lia)) as [B2 B2'].
  fold d1 in B1, B1'. fold d2 in B2, B2'.
  assert (Hd1 : 0 < d1) by (unfold d1; cbn; lia).
  assert (Hd2 : 0 < d2) by (unfold d2; cbn; lia).
  pose proof (pow2_pos ex) as Hpex. pose proof (pow2_pos ey) as Hpey.
  pose proof (pow2_pos e') as Hpe'.
  assert (Imx : (0 < inject_Z (Zpos mx))%Q) by (rewrite <- (Zlt_Qlt 0); lia).
  assert (Imy : (0 < inject_Z (Zpos my))%Q) by (rewrite <- (Zlt_Qlt 0); lia).
  assert (Ty : (0 < inject_Z (Zpos my) * pow2 ey)%Q) by (apply Qmult_lt_0_compat; assumption).
  assert (Tx : (0 < inject_Z (Zpos mx) * pow2 ex)%Q) by (apply Qmult_lt_0_compat; assumption).
  assert (HX0 : (0 < X)%Q).
  { destruct (Qlt_le_dec 0 X) as [L|L]; [exact L|exfalso].
    generalize dependent (inject_Z (Zpos my) * pow2 ey)%Q.
    generalize dependent (inject_Z (Zpos mx) * pow2 ex)%Q. intros. nra. }
  (* the exponent of the quotient is below p *)
  assert (Hmag : d1 + ex - (d2 + ey) <= p).
  { assert (L1 : (pow2 (d1 - 1) <= inject_Z (Zpos mx))%Q)
      by (rewrite <- pow2_inject by lia; now rewrite <- Zle_Qle).
    assert (L2 : (inject_Z (Zpos my) < pow2 d2)%Q)
      by (rewrite <- pow2_inject by lia; now rewrite <- Zlt_Qlt).
    assert (L3 : (pow2 (d1 - 1 + ex) < pow2 (p + (d2 + ey)))%Q).
    { rewrite !pow2_add.
      apply (quotient_magnitude X (pow2 p) (pow2 ey) (pow2 ex) (pow2 d2) (pow2 (d1 - 1))
               (inject_Z (Zpos mx)) (inject_Z (Zpos my))); assumption. }
    apply pow2_lt_inv in L3. lia. }
  assert (He'p : e' <= fexp prec emax p) by (unfold e'; rewrite !fexp_eq; lia).
  (* the exact quotient in units of 2^e' *)
  assert (HXq : (X * inject_Z (Zpos my) == inject_Z m' * pow2 e')%Q).
  { rewrite Hm', inject_Z_mult, pow2_inject by lia.
    assert (Hsplit : (pow2 ex == pow2 s * pow2 e' * pow2 ey)%Q).
    { rewrite <- !pow2_add. now replace (s + e' + ey) with ex by (unfold s; lia). }
    rewrite Hsplit in HX. nra. }
  assert (Hq0 : 0 <= q) by (apply Z.div_pos; lia).
  assert (Hqd : Zdigits2 q + e' <= Z.max p e').
  { destruct (Z.eq_dec q 0) as [->|Hq]; [cbn; lia|].
    assert (Zdigits2 q + e' <= p); [|lia].
    apply digits_le_of_lt; [lia|].
    assert (Hqle : (inject_Z q * inject_Z (Zpos my) <= inject_Z m')%Q).
    { rewrite <- inject_Z_mult, <- Zle_Qle. unfold q.
      pose proof (Z.mul_div_le m' (Zpos my) ltac:(lia)). lia. }
    nra. }
  set (e1 := Z.max e' (fexp prec emax (Zdigits2 q + e'))).
  assert (He1 : e1 <= fexp prec emax p) by (unfold e1; rewrite !fexp_eq in *; lia).
  assert (He1' : e1 + 1 <= emax - prec)
    by (rewrite fexp_eq in He1; unfold emax, prec in *; lia).
  pose proof (binary_round_aux_Q (xorb sx sy) q e' (new_location (Zpos my) (m' mod Zpos my))
                m' (Zpos my) ltac:(lia) ltac:(lia) eq_refl
                (new_location_spec m' (Zpos my) ltac:(lia))) as H.
  fold e1 in H. specialize (H He1'). destruct H as (Hfin & Hshape & HM & Hval).
  split; [exact Hfin|]. split; [exact Hshape|].
  set (K := e1 - e') in *. assert (HK : 0 <= K) by (unfold K, e1; lia).
  pose proof (Z.pow_pos_nonneg 2 K ltac:(lia) HK) as HpK.
  set (M := round_half_even m' (Zpos my * 2 ^ K)) in *.
  exists (inject_Z M * pow2 e1)%Q. split.
  { rewrite Hval, inject_cond_Zopp. destruct (xorb sx sy); ring. }
  pose proof (round_half_even_error m' (Zpos my * 2 ^ K) ltac:(lia)) as Herr. fold M in Herr.
  assert (Hz1 : 2 * (M * (Zpos my * 2 ^ K) + - m') <= Zpos my * 2 ^ K) by lia.
  assert (Hz2 : - (Zpos my * 2 ^ K) <= 2 * (M * (Zpos my * 2 ^ K) + - m')) by lia.
  rewrite Zle_Qle in Hz1, Hz2.
  rewrite ?inject_Z_mult, ?inject_Z_plus, ?inject_Z_opp, ?inject_Z_mult in Hz1, Hz2.
  change (inject_Z 2) with 2%Q in Hz1, Hz2.
  assert (HE2 : (pow2 e1 == inject_Z (2 ^ K) * pow2 e')%Q).
  { rewrite pow2_inject by lia. rewrite <- pow2_add. now replace (K + e') with e1 by (unfold K; lia). }
  assert (HE1 : (pow2 e1 == 2 * pow2 (e1 - 1))%Q) by apply pow2_pred.
  pose proof (pow2_le (e1 - 1) (fexp prec emax p - 1) ltac:(lia)) as Hle.
  unfold half_ulp.
  assert (IK : (0 < inject_Z (2 ^ K))%Q) by (rewrite <- (Zlt_Qlt 0); lia).
  apply (quotient_error X (inject_Z M) (inject_Z m') (inject_Z (Zpos my)) (inject_Z (2 ^ K))
           (pow2 e') (pow2 e1) (pow2 (e1 - 1))); assumption.
Qed.

Lemma binary_round_valid_sign (s : bool) (m : positive) (e : Z) :
  valid_binary prec emax (binary_round prec emax s m e) = true /\
  has_sign s (binary_round prec emax s m e).
Proof.
  unfold binary_round.
  set (E := fexp prec emax (Zpos (digits2_pos m) + e)).
  pose proof (shl_align_spec m e E) as Hal.
  destruct (shl_align m e E) as [mz ez]. destruct Hal as [Hez Hmz].
  assert (Hd : Zdigits2 (Zpos mz) + ez = Zpos (digits2_pos m) + e).
  { rewrite Hmz, Zdigits2_mul_pow2 by lia. cbn [Zdigits2]. lia. }
  split.
  - apply (binary_round_aux_valid s (Zpos mz) ez loc_Exact (Zpos mz) 1); try lia.
    + now rewrite Z.div_1_r.
    + unfold loc_of. now rewrite Z.mod_1_r.
    + rewrite Hd. fold E. lia.
  - apply (binary_round_aux_sign s (Zpos mz) ez loc_Exact (Zpos mz) 1); try lia.
    + now rewrite Z.div_1_r.
    + unfold loc_of. now rewrite Z.mod_1_r.
Qed.

Lemma binary_normalize_valid (z e : Z) :
  valid_binary prec emax (binary_normalize prec emax z e false) = true.
Proof. destruct z; cbn [binary_normalize]; [reflexivity| |]; apply binary_round_valid_sign. Qed.

Lemma binary_normalize_sign (z e : Z) :
  0 < z -> has_sign false (binary_normalize prec emax z e false).
Proof. destruct z; try lia. intros _. apply binary_round_valid_sign. Qed.


Lemma fsub_valid (x y : float) :
  valid_binary prec emax x = true -> valid_binary prec emax y = true ->
  valid_binary prec emax (fsub x y) = true.
Proof.
  intros Vx Vy. unfold fsub.
  destruct x as [sx|sx| |sx mx ex], y as [sy|sy| |sy my ey]; cbn [SFsub]; try reflexivity;
    try assumption; try (destruct sx, sy; reflexivity).
  apply binary_normalize_valid.
Qed.

(** Whatever the magnitudes, a positive difference never comes out
    negative or as a NaN. *)
Lemma fsub_sign (x y : float) :
  is_finite x = true -> is_finite y = true ->
  (F2Q y < F2Q x)%Q -> has_sign false (fsub x y).
Proof.
  intros Hx Hy Hlt. unfold fsub, has_sign.
  destruct x as [sx|sx| |sx mx ex]; try discriminate;
    destruct y as [sy|sy| |sy my ey]; try discriminate; cbn [SFsub].
  - cbn [F2Q] in Hlt. rewrite inject_cond_Zopp in Hlt.
    pose proof (pow2_pos ey).
    assert (0 < inject_Z (Zpos my))%Q by (rewrite <- (Zlt_Qlt 0); lia).
    destruct sy; [cbn; eauto|nra].
  - cbn [F2Q] in Hlt. rewrite inject_cond_Zopp in Hlt.
    pose proof (pow2_pos ex).
    assert (0 < inject_Z (Zpos mx))%Q by (rewrite <- (Zlt_Qlt 0); lia).
    destruct sx; [nra|eauto].
  - set (ez := Z.min ex ey) in *.
    rewrite (F2Q_aligned sx mx ex ez), (F2Q_aligned sy my ey ez) in Hlt by (unfold ez; lia).
    apply binary_normalize_sign.
    assert (H : (inject_Z (cond_Zopp sy (Zpos (fst (shl_align my ey ez))))
                 < inject_Z (cond_Zopp sx (Zpos (fst (shl_align mx ex ez)))))%Q)
      by (pose proof (pow2_pos ez); nra).
    rewrite <- Zlt_Qlt in H. lia.
Qed.

Lemma fdiv_valid_sign (sx sy : bool) (mx my : positive) (ex ey : Z) :
  let r := fdiv (S754_finite sx mx ex) (S754_finite sy my ey) in
  valid_binary prec emax r = true /\ has_sign (xorb sx sy) r.
Proof.
  intros r. subst r. unfold fdiv. cbn [SFdiv]. unfold SFdiv_core_binary.
  set (d1 := Zdigits2 (Zpos mx)). set (d2 := Zdigits2 (Zpos my)).
  set (e' := Z.min (fexp prec emax (d1 + ex - (d2 + ey))) (ex - ey)).
  set (s := ex - ey - e').
  assert (Hs : 0 <= s) by (unfold s, e'; lia).
  set (m' := match s with Zpos _ => Z.shiftl (Zpos mx) s | Z0 => Zpos mx | Zneg _ => 0 end).
  assert (Hm' : m' = Zpos mx * 2 ^ s).
  { unfold m'. destruct s as [|q|q]; [cbn; lia| |lia]. apply Z.shiftl_mul_pow2. lia. }
  clearbody m'.
  pose proof (Z.pow_pos_nonneg 2 s ltac:(lia) Hs) as Hps.
  assert (Hdiv : Z.div_eucl m' (Zpos my) = (m' / Zpos my, m' mod Zpos my)).
  { unfold Z.div, Z.modulo. now destruct (Z.div_eucl m' (Zpos my)). }
  rewrite Hdiv. set (q := m' / Zpos my).
  split.
  - apply (binary_round_aux_valid _ q e' _ m' (Zpos my) ltac:(lia) ltac:(lia) eq_refl
             (new_location_spec m' (Zpos my) ltac:(lia))).
    + (* the quotient has at least d1 + s - d2 digits *)
      pose proof (Zdigits2_bounds (Zpos mx) ltac:(lia)) as [B1 _].
      pose proof (Zdigits2_bounds (Zpos my) ltac:(lia)) as [_ B2].
      fold d1 in B1. fold d2 in B2.
      assert (Hd1 : 0 < d1) by (unfold d1; cbn; lia).
      assert (Hd2 : 0 < d2) by (unfold d2; cbn; lia).
      assert (Hq0 : 0 <= q) by (apply Z.div_pos; lia).
      assert (Hqd : d1 + s - d2 <= Zdigits2 q).
      { pose proof (Zdigits2_nonneg q).
        destruct (Z.le_gt_cases (d1 + s - d2) 0) as [L|G]; [lia|].
        assert (Hge : 2 ^ (d1 + s - d2 - 1) <= q).
        { apply Z.div_le_lower_bound; [lia|].
          assert (Zpos my * 2 ^ (d1 + s - d2 - 1) <= 2 ^ d2 * 2 ^ (d1 + s - d2 - 1))
            by (apply Z.mul_le_mono_nonneg_r; [apply Z.pow_nonneg|]; lia).
          rewrite <- Z.pow_add_r in H0 by lia.
          replace (d2 + (d1 + s - d2 - 1)) with (d1 - 1 + s) in H0 by lia.
          rewrite Z.pow_add_r in H0 by lia. nia. }
        assert (0 < q) by (pose proof (Z.pow_pos_nonneg 2 (d1 + s - d2 - 1)); lia).
        pose proof (Zdigits2_bounds q ltac:(lia)) as [_ Bq].
        destruct (Z.le_gt_cases (d1 + s - d2) (Zdigits2 q)); [assumption|].
        assert (2 ^ Zdigits2 q <= 2 ^ (d1 + s - d2 - 1)) by (apply Z.pow_le_mono_r; lia).
        lia. }
      assert (He' : e' <= fexp prec emax (d1 + ex - (d2 + ey))) by (unfold e'; lia).
      rewrite !fexp_eq in *. unfold s in Hqd. clearbody e'. lia.
  - apply (binary_round_aux_sign _ q e' _ m' (Zpos my) ltac:(lia) ltac:(lia) eq_refl
             (new_location_spec m' (Zpos my) ltac:(lia))).
Qed.

(** Integers below [2^53] in magnitude convert exactly. *)
Lemma float_of_int_exact (z : Z) :
  Z.abs z < 2 ^ 53 ->
  is_finite (float_of_int z) = true /\
  valid_binary prec emax (float_of_int z) = true /\
  (F2Q (float_of_int z) == inject_Z z)%Q.
Proof.
  intros Hz. split; [|split; [apply binary_normalize_valid|]].
  - unfold float_of_int. destruct z as [|m|m]; cbn [binary_normalize]; [reflexivity| |].
    + assert (Hd : Zpos (digits2_pos m) <= 53) by (apply (Zdigits2_le (Zpos m) 53); lia).
      apply (binary_round_Q false m 0). rewrite fexp_eq. unfold emax, prec. lia.
    + assert (Hd : Zpos (digits2_pos m) <= 53) by (apply (Zdigits2_le (Zpos m) 53); lia).
      apply (binary_round_Q true m 0). rewrite fexp_eq. unfold emax, prec. lia.
  - unfold float_of_int. destruct z as [|m|m]; cbn [binary_normalize]; [reflexivity| |].
    + assert (Hd : Zpos (digits2_pos m) <= 53) by (apply (Zdigits2_le (Zpos m) 53); lia).
      destruct (binary_round_Q false m 0) as (_ & _ & M & _ & Hval & _ & _ & Hex).
      { rewrite fexp_eq. unfold emax, prec. lia. }
      rewrite Hval. cbn [cond_Zopp]. rewrite Hex by (rewrite fexp_eq; lia).
      change (pow2 0) with 1%Q. ring.
    + assert (Hd : Zpos (digits2_pos m) <= 53) by (apply (Zdigits2_le (Zpos m) 53); lia).
      destruct (binary_round_Q true m 0) as (_ & _ & M & _ & Hval & _ & _ & Hex).
      { rewrite fexp_eq. unfold emax, prec. lia. }
      rewrite Hval. cbn [cond_Zopp]. rewrite inject_Z_opp.
      setoid_replace (- inject_Z M * pow2 (fexp prec emax (Zpos (digits2_pos m) + 0)))%Q
        with (- (inject_Z M * pow2 (fexp prec emax (Zpos (digits2_pos m) + 0))))%Q by ring.
      rewrite Hex by (rewrite fexp_eq; lia).
      change (pow2 0) with 1%Q. change (Zneg m) with (- Zpos m). rewrite inject_Z_opp. ring.
Qed.

Lemma valid_finite_bounds (s : bool) (m : positive) (e : Z) :
  valid_binary prec emax (S754_finite s m e) = true ->
  -1074 <= e <= 971 /\ Zpos m < 2 ^ 53 /\ (-1074 < e -> 2 ^ 52 <= Zpos m).
Proof.
  cbn [valid_binary]. unfold bounded, canonical_mantissa. rewrite andb_true_iff, Z.eqb_eq, Z.leb_le.
  rewrite fexp_eq. intros [Hc He]. change (emax - prec) with 971 in He.
  pose proof (digits2_pos_bounds m) as [B1 B2].
  assert (Hd : Zpos (digits2_pos m) <= 53) by lia.
  split; [lia|]. split.
  - assert (2 ^ Zpos (digits2_pos m) <= 2 ^ 53) by (apply Z.pow_le_mono_r; lia). lia.
  - intros H. assert (Zpos (digits2_pos m) = 53) by lia.
    replace 52 with (Zpos (digits2_pos m) - 1) by lia. exact B1.
Qed.

Lemma canonical_lt (m1 m2 : positive) (e1 e2 : Z) :
  valid_binary prec emax (S754_finite false m1 e1) = true ->
  valid_binary prec emax (S754_finite false m2 e2) = true ->
  e1 < e2 ->
  (inject_Z (Zpos m1) * pow2 e1 < inject_Z (Zpos m2) * pow2 e2)%Q.
Proof.
  intros V1 V2 H.
  destruct (valid_finite_bounds _ _ _ V1) as (He1 & Hm1 & _).
  destruct (valid_finite_bounds _ _ _ V2) as (He2 & _ & Hm2).
  specialize (Hm2 ltac:(lia)).
  assert (A : (inject_Z (Zpos m1) < pow2 53)%Q)
    by (rewrite <- pow2_inject by lia; now rewrite <- Zlt_Qlt).
  assert (B : (pow2 52 <= inject_Z (Zpos m2))%Q)
    by (rewrite <- pow2_inject by lia; now rewrite <- Zle_Qle).
  assert (C : (pow2 (53 + e1) <= pow2 (52 + e2))%Q) by (apply pow2_le; lia).
  rewrite !pow2_add in C.
  pose proof (pow2_pos e1). pose proof (pow2_pos e2).
  assert (S1 : (inject_Z (Zpos m1) * pow2 e1 < pow2 53 * pow2 e1)%Q) by nra.
  assert (S2 : (pow2 52 * pow2 e2 <= inject_Z (Zpos m2) * pow2 e2)%Q) by nra.
  lra.
Qed.

Lemma pos_compare_cont_Eq (m1 m2 : positive) :
  Pos.compare_cont Eq m1 m2 = (Zpos m1 ?= Zpos m2).
Proof. reflexivity. Qed.

(** On valid finite floats, [SFcompare] is the comparison of the values. *)
Lemma SFcompare_Q (x y : float) :
  valid_binary prec emax x = true -> valid_binary prec emax y = true ->
  is_finite x = true -> is_finite y = true ->
  exists c, SFcompare x y = Some c /\
            match c with
            | Lt => (F2Q x < F2Q y)%Q
            | Eq => (F2Q x == F2Q y)%Q
            | Gt => (F2Q y < F2Q x)%Q
            end.
Proof.
  intros Vx Vy Fx Fy.
  destruct x as [sx|sx| |sx mx ex]; try discriminate;
    destruct y as [sy|sy| |sy my ey]; try discriminate; cbn [SFcompare F2Q].
  - exists Eq. split; reflexivity.
  - pose proof (pow2_pos ey).
    assert (0 < inject_Z (Zpos my))%Q by (rewrite <- (Zlt_Qlt 0); lia).
    destruct sy; cbn [cond_Zopp]; eexists; (split; [reflexivity|]); cbn beta iota;
      rewrite ?(inject_Z_opp (Zpos my)); nra.
  - pose proof (pow2_pos ex).
    assert (0 < inject_Z (Zpos mx))%Q by (rewrite <- (Zlt_Qlt 0); lia).
    destruct sx; cbn [cond_Zopp]; eexists; (split; [reflexivity|]); cbn beta iota;
      rewrite ?(inject_Z_opp (Zpos mx)); nra.
  - pose proof (pow2_pos ex). pose proof (pow2_pos ey).
    assert (Ix : (0 < inject_Z (Zpos mx))%Q) by (rewrite <- (Zlt_Qlt 0); lia).
    assert (Iy : (0 < inject_Z (Zpos my))%Q) by (rewrite <- (Zlt_Qlt 0); lia).
    assert (Vx' : valid_binary prec emax (S754_finite false mx ex) = true) by exact Vx.
    assert (Vy' : valid_binary prec emax (S754_finite false my ey) = true) by exact Vy.
    rewrite pos_compare_cont_Eq.
    destruct sx, sy; cbn [cond_Zopp]; rewrite ?(inject_Z_opp (Zpos mx)), ?(inject_Z_opp (Zpos my)).
    + destruct (Z.compare_spec ex ey) as [E|L|G].
      * subst ey. destruct (Z.compare_spec (Zpos mx) (Zpos my)) as [E'|L'|G']; cbn [CompOpp];
          eexists; (split; [reflexivity|]); cbn beta iota.
        -- rewrite E'. reflexivity.
        -- rewrite Zlt_Qlt in L'. nra.
        -- rewrite Zlt_Qlt in G'. nra.
      * eexists; split; [reflexivity|]. cbn beta iota.
        pose proof (canonical_lt mx my ex ey Vx' Vy' L). lra.
      * eexists; split; [reflexivity|]. cbn beta iota.
        pose proof (canonical_lt my mx ey ex Vy' Vx' G). lra.
    + eexists; split; [reflexivity|]. cbn beta iota. nra.
    + eexists; split; [reflexivity|]. cbn beta iota. nra.
    + destruct (Z.compare_spec ex ey) as [E|L|G].
      * subst ey. destruct (Z.compare_spec (Zpos mx) (Zpos my)) as [E'|L'|G'];
          eexists; (split; [reflexivity|]); cbn beta iota.
        -- rewrite E'. reflexivity.
        -- rewrite Zlt_Qlt in L'. nra.
        -- rewrite Zlt_Qlt in G'. nra.
      * eexists; split; [reflexivity|]. cbn beta iota.
        exact (canonical_lt mx my ex ey Vx' Vy' L).
      * eexists; split; [reflexivity|]. cbn beta iota.
        exact (canonical_lt my mx ey ex Vy' Vx' G).
Qed.

(** ** Comparisons as comparisons of values *)

Lemma flt_Q (x y : float) :
  valid x = true -> valid y = true -> is_finite x = true -> is_finite y = true ->
  (flt x y = true <-> (F2Q x < F2Q y)%Q).
Proof.
  intros Vx Vy Fx Fy. destruct (SFcompare_Q x y Vx Vy Fx Fy) as (c & Hc & Hv).
  unfold flt, SFltb. rewrite Hc. destruct c; split; intros H; try discriminate; try reflexivity; lra.
Qed.

Lemma fle_Q (x y : float) :
  valid x = true -> valid y = true -> is_finite x = true -> is_finite y = true ->
  (fle x y = true <-> (F2Q x <= F2Q y)%Q).
Proof.
  intros Vx Vy Fx Fy. destruct (SFcompare_Q x y Vx Vy Fx Fy) as (c & Hc & Hv).
  unfold fle, SFleb. rewrite Hc. destruct c; split; intros H; try discriminate; try reflexivity; lra.
Qed.


(** ** The order of floats *)


Lemma fle_finite_pos (m1 m2 : positive) (e1 e2 : Z) :
  fle (S754_finite false m1 e1) (S754_finite false m2 e2) = true <->
  e1 < e2 \/ (e1 = e2 /\ (m1 <= m2)%positive).
Proof.
  unfold fle, SFleb. cbn [SFcompare]. change (Pos.compare_cont Eq m1 m2) with (Pos.compare m1 m2).
  destruct (Z.compare_spec e1 e2) as [E|L|G].
  - destruct (Pos.compare_spec m1 m2); split; intros K; try discriminate; try lia; try reflexivity.
  - split; [lia|reflexivity].
  - split; [discriminate|lia].
Qed.

Lemma fle_finite_neg (m1 m2 : positive) (e1 e2 : Z) :
  fle (S754_finite true m1 e1) (S754_finite true m2 e2) = true <->
  e2 < e1 \/ (e1 = e2 /\ (m2 <= m1)%positive).
Proof.
  unfold fle, SFleb. cbn [SFcompare]. change (Pos.compare_cont Eq m1 m2) with (Pos.compare m1 m2).
  destruct (Z.compare_spec e1 e2) as [E|L|G].
  - destruct (Pos.compare_spec m1 m2); cbn [CompOpp]; split; intros K; try discriminate; try lia; try reflexivity.
  - split; [discriminate|lia].
  - split; [lia|reflexivity].
Qed.

Lemma fle_trans (x y z : float) :
  fle x y = true -> fle y z = true -> fle x z = true.
Proof.
  destruct x as [sx|sx| |sx mx ex], y as [sy|sy| |sy my ey], z as [sz|sz| |sz mz ez];
    try destruct sx; try destruct sy; try destruct sz;
    try (cbn; congruence); try (intros _ _; reflexivity).
  - rewrite !fle_finite_neg. lia.
  - rewrite !fle_finite_pos. lia.
Qed.

Lemma fle_total (x y : float) :
  is_nan x = false -> is_nan y = false -> fle x y = true \/ fle y x = true.
Proof.
  destruct x as [sx|sx| |sx mx ex], y as [sy|sy| |sy my ey];
    try destruct sx; try destruct sy; try (cbn; intros; congruence);
    try (intros _ _; left; reflexivity); try (intros _ _; right; reflexivity).
  - rewrite !fle_finite_neg. lia.
  - rewrite !fle_finite_pos. lia.
Qed.

(** ** Rounding to decimals and to integers *)

Lemma pow2_neg_inv (e : Z) : e < 0 -> (pow2 e * inject_Z (2 ^ (- e)) == 1)%Q.
Proof.
  intros H. rewrite pow2_inject by lia. rewrite <- pow2_add.
  replace (e + - e) with 0 by lia. reflexivity.
Qed.

(** [nearest_scaled m e p] is within one half of [m * 2^e * p], and is the
    only integer strictly within one half of it. *)
Lemma nearest_scaled_Q (m : positive) (e p : Z) :
  0 < p ->
  let K := nearest_scaled m e p in
  let x := (inject_Z (Zpos m) * pow2 e * inject_Z p)%Q in
  0 <= K /\
  (- (1 # 2) <= inject_Z K - x <= 1 # 2)%Q /\
  (forall j : Z, (- (1 # 2) < inject_Z j - x < 1 # 2)%Q -> K = j).
Proof.
  intros Hp K x. unfold nearest_scaled in K.
  destruct (Z.leb_spec 0 e) as [He|He].
  - assert (HKx : (inject_Z K == x)%Q).
    { unfold K, x. rewrite !inject_Z_mult, pow2_inject by lia. reflexivity. }
    split; [unfold K; pose proof (Z.pow_pos_nonneg 2 e ltac:(lia) He); nia|].
    split; [lra|]. intros j Hj.
    assert (H1 : (inject_Z (2 * (j - K)) < inject_Z 1)%Q).
    { unfold Z.sub. rewrite inject_Z_mult, inject_Z_plus, inject_Z_opp.
      change (inject_Z 2) with 2%Q. change (inject_Z 1) with 1%Q. lra. }
    assert (H2 : (inject_Z (-1) < inject_Z (2 * (j - K)))%Q).
    { unfold Z.sub. rewrite inject_Z_mult, inject_Z_plus, inject_Z_opp.
      change (inject_Z 2) with 2%Q. change (inject_Z (-1)) with (-1)%Q. lra. }
    rewrite <- Zlt_Qlt in H1, H2. lia.
  - set (D := 2 ^ (- e)) in *.
    assert (HD : 0 < D) by (apply Z.pow_pos_nonneg; lia).
    pose proof (round_half_even_error (Zpos m * p) D HD) as Herr. fold K in Herr.
    pose proof (round_half_even_bounds (Zpos m * p) D HD) as Hb. fold K in Hb.
    pose proof (pow2_neg_inv e He) as Hinv. fold D in Hinv.
    pose proof (pow2_pos e) as Hpe.
    assert (ID : (0 < inject_Z D)%Q) by (rewrite <- (Zlt_Qlt 0); lia).
    assert (Hx : (x * inject_Z D == inject_Z (Zpos m * p))%Q).
    { unfold x. rewrite inject_Z_mult.
      setoid_replace (inject_Z (Zpos m) * pow2 e * inject_Z p * inject_Z D)%Q
        with (inject_Z (Zpos m) * inject_Z p * (pow2 e * inject_Z D))%Q by ring.
      rewrite Hinv. ring. }
    split; [pose proof (Z.div_pos (Zpos m * p) D ltac:(lia) HD); lia|].
    assert (Hz1 : 2 * (K * D + - (Zpos m * p)) <= D) by lia.
    assert (Hz2 : - D <= 2 * (K * D + - (Zpos m * p))) by lia.
    rewrite Zle_Qle in Hz1, Hz2.
    rewrite (inject_Z_mult 2), inject_Z_plus, inject_Z_opp, (inject_Z_mult K D) in Hz1, Hz2.
    rewrite inject_Z_opp in Hz2.
    change (inject_Z 2) with 2%Q in Hz1, Hz2.
    split.
    + generalize dependent (inject_Z (Zpos m * p)). generalize dependent (inject_Z D).
      generalize dependent (inject_Z K). clearbody x. intros. split; nra.
    + intros j Hj. apply round_half_even_unique; [exact HD|].
      assert (H1 : (2 * (inject_Z j * inject_Z D - inject_Z (Zpos m * p)) < inject_Z D)%Q)
        by (clear - Hj Hx ID; generalize dependent (inject_Z (Zpos m * p));
            generalize dependent (inject_Z D); intros; nra).
      assert (H2 : (- inject_Z D < 2 * (inject_Z j * inject_Z D - inject_Z (Zpos m * p)))%Q)
        by (clear - Hj Hx ID; generalize dependent (inject_Z (Zpos m * p));
            generalize dependent (inject_Z D); intros; nra).
      assert (H1' : (inject_Z (2 * (j * D + - (Zpos m * p))) < inject_Z D)%Q).
      { rewrite inject_Z_mult, inject_Z_plus, inject_Z_opp, (inject_Z_mult j D).
        change (inject_Z 2) with 2%Q. lra. }
      assert (H2' : (inject_Z (- D) < inject_Z (2 * (j * D + - (Zpos m * p))))%Q).
      { rewrite inject_Z_mult, inject_Z_plus, !inject_Z_opp, (inject_Z_mult j D).
        change (inject_Z 2) with 2%Q. lra. }
      rewrite <- Zlt_Qlt in H1', H2'. lia.
Qed.

Lemma float_of_int_1000 :
  float_of_int 1000 = S754_finite false 8796093022208000 (-43).
Proof. reflexivity. Qed.

Lemma py_round_thousandths (x : float) :
  is_finite x = true ->
  py_round x 3 = of_decimal (sign_of x) (Z.abs (thousandths x)) 1000.
Proof.
  destruct x as [s|s| |s m e]; try discriminate; intros _; [reflexivity|].
  cbn [py_round sign_of thousandths]. change (10 ^ 3) with 1000.
  destruct (nearest_scaled_Q m e 1000 ltac:(lia)) as [HK _].
  destruct s; cbn [cond_Zopp]; f_equal; lia.
Qed.

Lemma thousandths_sign (x : float) :
  exists K, 0 <= K /\ thousandths x = cond_Zopp (sign_of x) K.
Proof.
  destruct x as [s|s| |s m e]; cbn [thousandths sign_of];
    try (exists 0; split; [lia|]; try destruct s; reflexivity).
  exists (nearest_scaled m e 1000). split; [|reflexivity].
  apply (nearest_scaled_Q m e 1000). lia.
Qed.

Lemma thousandths_Q (x : float) :
  is_finite x = true ->
  (- (1 # 2) <= inject_Z (thousandths x) - 1000 * F2Q x <= 1 # 2)%Q /\
  (forall j : Z, (- (1 # 2) < inject_Z j - 1000 * F2Q x < 1 # 2)%Q -> thousandths x = j).
Proof.
  destruct x as [s|s| |s m e]; try discriminate; intros _.
  - cbn [thousandths F2Q]. split; [change (inject_Z 0) with 0%Q; lra|].
    intros j Hj.
    assert (H1 : (inject_Z (2 * j) < inject_Z 1)%Q)
      by (rewrite inject_Z_mult; change (inject_Z 2) with 2%Q; change (inject_Z 1) with 1%Q; lra).
    assert (H2 : (inject_Z (-1) < inject_Z (2 * j))%Q)
      by (rewrite inject_Z_mult; change (inject_Z 2) with 2%Q; change (inject_Z (-1)) with (-1)%Q; lra).
    rewrite <- Zlt_Qlt in H1, H2. lia.
  - cbn [thousandths F2Q].
    destruct (nearest_scaled_Q m e 1000 ltac:(lia)) as (HK & Herr & Huniq).
    cbv zeta in Herr, Huniq. change (inject_Z 1000) with 1000%Q in *.
    rewrite !inject_cond_Zopp. destruct s.
    + split; [lra|]. intros j Hj.
      change (inject_Z (cond_Zopp true (Zpos m))) with (- inject_Z (Zpos m))%Q in Hj.
      assert (nearest_scaled m e 1000 = - j); [|cbn [cond_Zopp]; lia].
      apply Huniq. rewrite inject_Z_opp. lra.
    + split; [lra|]. intros j Hj. cbn [cond_Zopp] in Hj. apply Huniq. lra.
Qed.

Lemma of_decimal_valid_sign (s : bool) (K : Z) :
  valid (of_decimal s K 1000) = true /\ has_sign s (of_decimal s K 1000).
Proof.
  unfold of_decimal. destruct K as [|k|k]; try (split; [reflexivity|left; reflexivity]).
  rewrite float_of_int_1000.
  destruct (fdiv_valid_sign s false k 8796093022208000 0 (-43)) as [Hv Hs].
  rewrite xorb_false_r in Hs. split; assumption.
Qed.

Lemma has_sign_not_nan (s : bool) (r : float) : has_sign s r -> is_nan r = false.
Proof. intros [->|[->|(m & e & ->)]]; reflexivity. Qed.

(** Reading [K / 1000] back: one rounding of the decimal value. *)
Lemma of_decimal_Q (s : bool) (K p : Z) :
  0 <= K -> (inject_Z K < 1000 * pow2 p)%Q -> p <= emax - 1 ->
  let r := of_decimal s K 1000 in
  is_finite r = true /\
  (- half_ulp p <= F2Q r - inject_Z (cond_Zopp s K) * (1 # 1000) <= half_ulp p)%Q.
Proof.
  intros HK Hlt Hp r. subst r. unfold of_decimal.
  pose proof (pow2_pos (fexp prec emax p - 1)) as Hpos. fold (half_ulp p) in Hpos.
  destruct K as [|k|k]; [| |lia].
  - split; [reflexivity|]. unfold half_ulp in *.
    assert (E : (inject_Z (cond_Zopp s 0) == 0)%Q) by (destruct s; reflexivity).
    rewrite E. cbn [F2Q]. lra.
  - rewrite float_of_int_1000.
    destruct (fdiv_Q s false k 8796093022208000 0 (-43) p (inject_Z (Zpos k) * (1 # 1000))%Q)
      as (Hfin & _ & v & Hv & Herr).
    + assert (E : (inject_Z 8796093022208000 * pow2 (-43) == 1000)%Q) by reflexivity.
      rewrite <- Qmult_assoc, E. change (pow2 0) with 1%Q. ring.
    + lra.
    + exact Hp.
    + split; [exact Hfin|]. rewrite Hv, xorb_false_r, inject_cond_Zopp.
      destruct s; lra.
Qed.


(** [int(x)] drops the fractional part: the magnitude is rounded down. *)
Lemma truncation (m : positive) (e : Z) :
  let a := if 0 <=? e then Zpos m * 2 ^ e else Zpos m / 2 ^ (- e) in
  0 <= a /\
  (inject_Z a <= inject_Z (Zpos m) * pow2 e < inject_Z a + 1)%Q.
Proof.
  intros a. subst a. pose proof (pow2_pos e) as Hpe.
  destruct (Z.leb_spec 0 e) as [He|He].
  - assert (E : (inject_Z (Zpos m * 2 ^ e) == inject_Z (Zpos m) * pow2 e)%Q)
      by (rewrite inject_Z_mult, pow2_inject by lia; reflexivity).
    split; [pose proof (Z.pow_pos_nonneg 2 e ltac:(lia) He); nia|].
    rewrite E. lra.
  - set (D := 2 ^ (- e)).
    assert (HD : 0 < D) by (apply Z.pow_pos_nonneg; lia).
    pose proof (Z.div_mod (Zpos m) D ltac:(lia)) as Hdm.
    pose proof (Z.mod_pos_bound (Zpos m) D HD) as Hmod.
    pose proof (pow2_neg_inv e He) as Hinv. fold D in Hinv.
    assert (ID : (0 < inject_Z D)%Q) by (rewrite <- (Zlt_Qlt 0); lia).
    split; [apply Z.div_pos; lia|].
    assert (L1 : (inject_Z (Zpos m / D) * inject_Z D <= inject_Z (Zpos m))%Q)
      by (rewrite <- inject_Z_mult, <- Zle_Qle; lia).
    assert (L2 : (inject_Z (Zpos m) < (inject_Z (Zpos m / D) + 1) * inject_Z D)%Q).
    { change 1%Q with (inject_Z 1). rewrite <- inject_Z_plus, <- inject_Z_mult, <- Zlt_Qlt. lia. }
    clear - L1 L2 Hinv ID Hpe.
    generalize dependent (inject_Z (Zpos m / D)). generalize dependent (inject_Z (Zpos m)).
    generalize dependent (inject_Z D). generalize dependent (pow2 e).
    intros P HP d Hinv Hd a q L1 L2.
    assert (a * P * d == a)%Q by (rewrite <- Qmult_assoc, Hinv; ring).
    split; nra.
Qed.

(** [int(x)] on a finite float is the integer part of its value, toward
    zero. *)
Lemma int_truncates (x : float) :
  is_finite x = true ->
  exists v, int (PyFlt x) = Ok v /\
            ((0 <= v /\ (inject_Z v <= F2Q x < inject_Z v + 1)%Q) \/
             (v <= 0 /\ (inject_Z v - 1 < F2Q x <= inject_Z v)%Q)).
Proof.
  destruct x as [s|s| |s m e]; try discriminate; intros _.
  - exists 0. split; [reflexivity|]. left. cbn [F2Q]. change (inject_Z 0) with 0%Q.
    split; [lia|lra].
  - destruct (truncation m e) as [Ha Hv]. cbv zeta in Ha, Hv. cbn [int py_int].
    set (a := if 0 <=? e then Zpos m * 2 ^ e else Zpos m / 2 ^ (- e)) in *.
    eexists. split; [reflexivity|]. cbn [F2Q].
    destruct s; cbn [cond_Zopp].
    + right. rewrite !inject_Z_opp. split; [lia|]. lra.
    + left. split; [exact Ha|exact Hv].
Qed.

(** ** The float model on values known from Python *)

Example literal_5_3333 :
  literal 53333 4 = S754_finite false 6004761973163767 (-50).
Proof. reflexivity. Qed.

(** [round(10.0 + 5.3333, 3) == 15.333] *)
Example round_15_3333 :
  py_round (fadd (float_of_int 10) (literal 53333 4)) 3 = literal 15333 3.
Proof. reflexivity. Qed.

(** [round(2.675, 2) == 2.67]: the float 2.675 lies below the decimal. *)
Example round_2_675 : py_round (literal 2675 3) 2 = literal 267 2.
Proof. reflexivity. Qed.

(** [round(2.5, 0) == 2.0]: an exact tie goes to the even neighbour. *)
Example round_2_5 : py_round (literal 25 1) 0 = float_of_int 2.
Proof. reflexivity. Qed.

(** [round(-0.0004, 3)] is [-0.0]. *)
Example round_minus_0_0004 : py_round (literal (-4) 4) 3 = S754_zero true.
Proof. reflexivity. Qed.

(** [int(-3.7) == -3] *)
Example int_minus_3_7 : int (PyFlt (literal (-37) 1)) = Ok (-3).
Proof. reflexivity. Qed.

(** ** Running the monad *)

Ltac run :=
  repeat (cbn [bind ret raise lift session commit time_time time_strftime random_random
               get_today tables time_src today_src random_src
               userdata groupdata pay_data with_userdata with_groupdata with_pay_data] in *).



Lemma find_existsb_none {A} (p : A -> bool) (l : list A) :
  find p l = None <-> existsb p l = false.
Proof.
  induction l as [|a l IH]; cbn; [tauto|].
  destruct (p a); cbn; [split; discriminate | exact IH].
Qed.



Lemma insert_by_key_perm {A} (key : A -> Z) (r : A) (rows : list A) :
  Permutation (insert_by_key key r rows) (r :: rows).
Proof.
  induction rows as [|x rows IH]; cbn [insert_by_key]; [reflexivity|].
  destruct (key r <? key x); [reflexivity|].
  rewrite IH. apply perm_swap.
Qed.

Lemma existsb_insert_by_key {A} (p : A -> bool) (key : A -> Z) (r : A) (rows : list A) :
  existsb p (insert_by_key key r rows) = p r || existsb p rows.
Proof.
  induction rows as [|x rows IH]; cbn [insert_by_key existsb]; [reflexivity|].
  destruct (key r <? key x); cbn [existsb]; [reflexivity|].
  rewrite IH. destruct (p r), (p x); reflexivity.
Qed.



(** [update] through [find]: the first row selected by [p] is the image of
    the first one selected before, when [f] keeps the row selected. *)
Lemma find_update {A} (p : A -> bool) (f : A -> A) (l : list A) :
  (forall a, p a = true -> p (f a) = true) ->
  find p (update p f l) = option_map f (find p l).
Proof.
  intros Hf. induction l as [|a l IH]; cbn; [reflexivity|].
  destruct (p a) eqn:E.
  - now rewrite (Hf a E).
  - now rewrite E.
Qed.

Lemma int_finite (t : float) :
  is_finite t = true -> exists now, int (PyFlt t) = Ok now.
Proof.
  destruct t; cbn; try discriminate; intros _; eexists; reflexivity.
Qed.

Lemma by_userid_refl (userid : Z) (c : float) (l : Z) :
  by_userid userid (UserData.mk userid c l) = true.
Proof. unfold by_userid; cbn. apply Z.eqb_refl. Qed.

(** ** Creating users *)




(** ** What the REAL column gives back *)

Lemma real_finite (c : float) : is_finite (real c) = is_finite c.
Proof. destruct c; reflexivity. Qed.

Lemma real_nan (c : float) : is_nan (real c) = is_nan c.
Proof. destruct c; reflexivity. Qed.



Lemma thousandths_real (c : float) : thousandths (real c) = thousandths c.
Proof. destruct c; reflexivity. Qed.

Lemma real_three_decimals (c : float) : three_decimals c -> three_decimals (real c).
Proof. unfold three_decimals. destruct c; cbn [real]; intros H; try exact H; reflexivity. Qed.

Lemma real_decimal (c : float) : decimal c -> decimal (real c).
Proof.
  intros (F & H3 & HT). split; [now rewrite real_finite|].
  split; [now apply real_three_decimals|]. now rewrite thousandths_real.
Qed.


Lemma fle_real_l (c x : float) : fle (real c) x = fle c x.
Proof. destruct c as [[]| | |]; destruct x as [[]| | |]; reflexivity. Qed.

Lemma fle_real_r (c x : float) : fle x (real c) = fle x c.
Proof. destruct c as [[]| | |]; destruct x as [[]| | |]; reflexivity. Qed.

Lemma flt_real_l (c x : float) : flt (real c) x = flt c x.
Proof. destruct c as [[]| | |]; destruct x as [[]| | |]; reflexivity. Qed.

Lemma flt_real_r (c x : float) : flt x (real c) = flt x c.
Proof. destruct c as [[]| | |]; destruct x as [[]| | |]; reflexivity. Qed.

Lemma real_has_sign (c : float) : has_sign false c -> real c = c.
Proof. intros [->|[->|(m & e & ->)]]; reflexivity. Qed.

(** ** A balance moved up and back down *)

Lemma moderate_Q (b : float) :
  moderate b -> is_finite b = true /\ (- 4294967296 <= F2Q b <= 4294967296)%Q.
Proof.
  intros (Vb & Hlo & Hhi).
  assert (Fb : is_finite b = true).
  { destruct b as [s|[]| |s m e]; try reflexivity; cbn in Hlo, Hhi; discriminate. }
  split; [exact Fb|].
  apply fle_Q in Hlo; [|reflexivity|exact Vb|reflexivity|exact Fb].
  apply fle_Q in Hhi; [|exact Vb|reflexivity|exact Fb|reflexivity].
  assert (E1 : (F2Q (float_of_int (- 2 ^ 32)) == - 4294967296)%Q) by reflexivity.
  assert (E2 : (F2Q (float_of_int (2 ^ 32)) == 4294967296)%Q) by reflexivity.
  rewrite E1 in Hlo. rewrite E2 in Hhi. split; assumption.
Qed.























(** ** Adjusting a balance *)

Lemma set_Coins_run (userid : Z) (length : float) (w : World) (u : UserData.t) (now : Z) :
  first (by_userid userid) (userdata (tables w)) = Some u ->
  int (PyFlt (time_src w 0%nat)) = Ok now ->
  let c := py_round (fadd (UserData.Coins u) length) 3 in
  set_Coins userid length w =
  if is_nan c then Raise IntegrityError
  else Ok (tt, mkWorld (with_userdata (update (by_userid userid) (adjusted (real c) now)
                                              (userdata (tables w))) (tables w))
                       (tl_src (time_src w)) (today_src w) (random_src w)).
Proof.
  intros Hu Hnow c. unfold set_Coins, bind, session. rewrite Hu. cbn [attr lift ret].
  cbn [time_time time_src]. rewrite Hnow. cbn [lift ret]. fold c. unfold not_null.
  destruct (is_nan c); reflexivity.
Qed.

Lemma first_adjusted (userid : Z) (c : float) (now : Z) (us : list UserData.t) (u : UserData.t) :
  first (by_userid userid) us = Some u ->
  first (by_userid userid) (update (by_userid userid) (adjusted c now) us)
  = Some (adjusted c now u).
Proof.
  intros Hu. unfold first in *. rewrite find_update by (intros a Ha; exact Ha).
  now rewrite Hu.
Qed.




(** ** Group flags *)





(** ** Reads that find no row *)



(** ** The payment log *)

Lemma pay_by_userid_date_key (userid : Z) (d : string) (p : PayData.t) :
  pay_by_userid_date userid d p = true <-> pay_key p = (userid, d).
Proof.
  unfold pay_by_userid_date, pay_key. rewrite andb_true_iff, Z.eqb_eq, String.eqb_eq.
  split; [intros [-> ->]; reflexivity | intros [= -> ->]; auto].
Qed.

Lemma find_key_none (userid : Z) (d : string) (ps : list PayData.t) :
  find (pay_by_userid_date userid d) ps = None <-> ~ In (userid, d) (map pay_key ps).
Proof.
  induction ps as [|p ps IH]; cbn; [tauto|].
  destruct (pay_by_userid_date userid d p) eqn:E.
  - apply pay_by_userid_date_key in E. split; [discriminate|]. intros H. exfalso. apply H. now left.
  - rewrite IH. split.
    + intros H [K|K]; [|now apply H].
      apply pay_by_userid_date_key in K. congruence.
    + intros H K. apply H. now right.
Qed.


Lemma map_update_key {A B} (p : A -> bool) (f : A -> A) (k : A -> B) (l : list A) :
  (forall a, k (f a) = k a) -> map k (update p f l) = map k l.
Proof.
  intros Hk. unfold update. rewrite map_map. apply map_ext.
  intros a. destruct (p a); [apply Hk | reflexivity].
Qed.

Lemma NoDup_snoc {A} (l : list A) (a : A) :
  NoDup l -> ~ In a l -> NoDup (l ++ [a]).
Proof.
  intros Hl Ha. apply NoDup_app; [exact Hl | repeat constructor; intros [] | ].
  intros x Hx [<-|[]]. exact (Ha Hx).
Qed.


Lemma integer_Ok (v : Z) : int64 v -> integer v = Ok v.
Proof.
  unfold int64, integer. intros [L U].
  destruct (Z.leb_spec (- 2 ^ 63) v); [|lia]. destruct (Z.ltb_spec v (2 ^ 63)); [|lia].
  reflexivity.
Qed.

Lemma integer_Raise (v : Z) : ~ int64 v -> integer v = Raise OverflowError.
Proof.
  unfold int64, integer. intros N.
  destruct (Z.leb_spec (- 2 ^ 63) v); [|reflexivity].
  destruct (Z.ltb_spec v (2 ^ 63)); [lia|reflexivity].
Qed.

Lemma int64_dec (v : Z) : {int64 v} + {~ int64 v}.
Proof.
  unfold int64. destruct (Z_le_gt_dec (- 2 ^ 63) v); [|right; lia].
  destruct (Z_lt_ge_dec v (2 ^ 63)); [left|right]; lia.
Qed.

Lemma find_user_none_date (userid : Z) (d : string) (ps : list PayData.t) :
  find (pay_by_userid userid) ps = None -> find (pay_by_userid_date userid d) ps = None.
Proof.
  induction ps as [|p ps IH]; cbn; [reflexivity|].
  unfold pay_by_userid_date. destruct (pay_by_userid userid p) eqn:E; [discriminate|].
  unfold pay_by_userid in E. rewrite E. cbn. exact IH.
Qed.

(** The volume that [insert_pay] writes for the integer [v]: the sum with
    the volume of today's record, or [v] in a new record. *)
Lemma insert_pay_run (userid : Z) (volume : number) (v : Z) (w : World) :
  int volume = Ok v ->
  let d := today_src w 0%nat in
  let ps := pay_data (tables w) in
  insert_pay userid volume w =
  match integer (written userid d v ps) with
  | Ok v' =>
      Ok (tt, mkWorld (with_pay_data
                         match first (pay_by_userid_date userid d) ps with
                         | Some r => update (pay_by_userid_date userid d)
                                            (PayData.set_volume v') ps
                         | None => ps ++ [PayData.mk (next_id ps) userid d v']
                         end (tables w))
                      (time_src w) (tl_src (today_src w)) (random_src w))
  | Raise e => Raise e
  end.
Proof.
  intros Hv d ps. unfold insert_pay, written. rewrite Hv. run. unfold first.
  fold d. fold ps.
  destruct (find (pay_by_userid userid) ps) as [r0|] eqn:Hu.
  - destruct (find (pay_by_userid_date userid d) ps) as [r|] eqn:Hd; run.
    + cbn [attr lift ret bind]. unfold round_int.
      destruct (integer (PayData.volume r + v)); reflexivity.
    + unfold add_pay. destruct (integer v); reflexivity.
  - rewrite (find_user_none_date userid d ps Hu).
    unfold add_pay. destruct (integer v); reflexivity.
Qed.

(** The effect of one [insert_pay] on the log when the volume to write
    fits the column, by cases on what it finds. *)
Lemma insert_pay_Ok (userid : Z) (volume : number) (v : Z) (w : World) :
  int volume = Ok v ->
  let d := today_src w 0%nat in
  let ps := pay_data (tables w) in
  int64 (written userid d v ps) ->
  exists w',
    insert_pay userid volume w = Ok (tt, w') /\
    userdata (tables w') = userdata (tables w) /\
    groupdata (tables w') = groupdata (tables w) /\
    time_src w' = time_src w /\
    today_src w' = tl_src (today_src w) /\
    random_src w' = random_src w /\
    pay_data (tables w') =
      match first (pay_by_userid_date userid d) ps with
      | Some r => update (pay_by_userid_date userid d)
                         (PayData.set_volume (PayData.volume r + v)) ps
      | None => ps ++ [PayData.mk (next_id ps) userid d v]
      end.
Proof.
  intros Hv d ps H64. rewrite (insert_pay_run userid volume v w Hv). fold d ps.
  rewrite (integer_Ok _ H64). eexists. split; [reflexivity|].
  repeat (split; [reflexivity|]). cbn [tables pay_data with_pay_data].
  unfold written. destruct (first (pay_by_userid_date userid d) ps); reflexivity.
Qed.

(** A volume that does not fit the column is refused. *)
Lemma insert_pay_overflow (userid : Z) (volume : number) (v : Z) (w : World) :
  int volume = Ok v ->
  ~ int64 (written userid (today_src w 0%nat) v (pay_data (tables w))) ->
  insert_pay userid volume w = Raise OverflowError.
Proof.
  intros Hv H64. rewrite (insert_pay_run userid volume v w Hv).
  now rewrite (integer_Raise _ H64).
Qed.

(** A payment that returned has written a volume that fits the column. *)
Lemma insert_pay_inv (userid : Z) (volume : number) (v : Z) (w w' : World) :
  int volume = Ok v ->
  insert_pay userid volume w = Ok (tt, w') ->
  let d := today_src w 0%nat in
  let ps := pay_data (tables w) in
  int64 (written userid d v ps) /\
  userdata (tables w') = userdata (tables w) /\
  groupdata (tables w') = groupdata (tables w) /\
  time_src w' = time_src w /\
  today_src w' = tl_src (today_src w) /\
  random_src w' = random_src w /\
  pay_data (tables w') =
    match first (pay_by_userid_date userid d) ps with
    | Some r => update (pay_by_userid_date userid d)
                       (PayData.set_volume (PayData.volume r + v)) ps
    | None => ps ++ [PayData.mk (next_id ps) userid d v]
    end.
Proof.
  intros Hv Hrun d ps.
  destruct (int64_dec (written userid d v ps)) as [H64|H64].
  - split; [exact H64|].
    destruct (insert_pay_Ok userid volume v w Hv H64) as (w1 & Hrun1 & H).
    assert (w1 = w') by congruence. subst w1. exact H.
  - rewrite (insert_pay_overflow userid volume v w Hv H64) in Hrun. discriminate.
Qed.

Lemma insert_pay_raises (userid : Z) (volume : number) (e : exn) (w : World) :
  int volume = Raise e -> insert_pay userid volume w = Raise e.
Proof. intros H. unfold insert_pay. rewrite H. reflexivity. Qed.

Lemma find_update_key (userid : Z) (d : string) (v : Z) (ps : list PayData.t) :
  find (pay_by_userid_date userid d)
       (update (pay_by_userid_date userid d) (PayData.set_volume v) ps)
  = option_map (PayData.set_volume v) (find (pay_by_userid_date userid d) ps).
Proof. apply find_update. intros a Ha. exact Ha. Qed.






(** ** One record per user and day *)

Lemma insert_pay_keeps_one_per_day (userid : Z) (volume : number) (w : World) :
  one_per_day (pay_data (tables w)) ->
  one_per_day (pay_data (tables (after (insert_pay userid volume) w))).
Proof.
  intros Hinv. unfold after.
  destruct (int volume) as [v|e] eqn:Hv.
  - rewrite (insert_pay_run userid volume v w Hv).
    destruct (integer _) as [v'|e]; [|exact Hinv].
    cbn [tables pay_data with_pay_data]. unfold first, one_per_day in *.
    destruct (find _ _) as [r|] eqn:Hf.
    + rewrite map_update_key by reflexivity. exact Hinv.
    + rewrite map_app. cbn. apply NoDup_snoc; [exact Hinv|].
      now apply find_key_none.
  - now rewrite (insert_pay_raises _ _ e w Hv).
Qed.

(** C7: every sequence of [insert_pay] calls keeps at most one record per
    (userid, date); a payment on a day that has a record leaves the set of
    rows as it is, and adds its volume to that record when the sum fits
    the INTEGER column: otherwise the call raises [OverflowError] and the
    record keeps its volume. *)
Theorem C7_one_record_per_user_and_day (calls : list (Z * number)) (w : World) :
  one_per_day (pay_data (tables w)) ->
  one_per_day (pay_data (tables (after_payments calls w))) /\
  (forall userid volume v r,
      int volume = Ok v ->
      first (pay_by_userid_date userid (today_src w 0%nat)) (pay_data (tables w)) = Some r ->
      let ps' := pay_data (tables (after (insert_pay userid volume) w)) in
      map pay_key ps' = map pay_key (pay_data (tables w)) /\
      map PayData.id ps' = map PayData.id (pay_data (tables w)) /\
      (int64 (PayData.volume r + v) ->
       insert_pay userid volume w
       = Ok (tt, after (insert_pay userid volume) w) /\
       first (pay_by_userid_date userid (today_src w 0%nat)) ps'
       = Some (PayData.set_volume (PayData.volume r + v) r)) /\
      (~ int64 (PayData.volume r + v) ->
       insert_pay userid volume w = Raise OverflowError /\
       ps' = pay_data (tables w))).
Proof.
  intros Hinv. split.
  - revert w Hinv. unfold after_payments.
    induction calls as [|[u vol] calls IH]; intros w Hinv; cbn; [exact Hinv|].
    apply IH. now apply insert_pay_keeps_one_per_day.
  - intros userid volume v r Hv Hr ps'. subst ps'. unfold after.
    destruct (int64_dec (PayData.volume r + v)) as [H64|H64].
    + destruct (insert_pay_Ok userid volume v w Hv) as (w' & Hrun & _ & _ & _ & _ & _ & Hps).
      { unfold written. now rewrite Hr. }
      rewrite Hrun, Hps, Hr. unfold first in *.
      rewrite !map_update_key by reflexivity.
      rewrite find_update_key, Hr. cbn [option_map].
      split; [reflexivity|]. split; [reflexivity|]. split; [|intros N; contradiction].
      intros _. split; reflexivity.
    + rewrite (insert_pay_overflow userid volume v w Hv) by (unfold written; now rewrite Hr).
      split; [reflexivity|]. split; [reflexivity|]. split; [intros N; contradiction|].
      intros _. split; reflexivity.
Qed.

Lemma C7_witness :
  let w := mkWorld (mkTables [] [] [PayData.mk 1 7 "2024-01-01" 30])
                   (fun _ => float_of_int 1700000000) (fun _ => "2024-01-01"%string)
                   (fun _ => S754_zero false) in
  one_per_day (pay_data (tables (after_payments [(7, PyInt 100); (8, PyInt 5); (7, PyInt 50)] w))).
Proof.
  intro w.
  refine (proj1 (C7_one_record_per_user_and_day _ w _)).
  unfold one_per_day. cbn. repeat constructor. intros [].
Defined.

(** A repeated payment is not always added to the record of the day: with
    [2^62] recorded for today, a payment of [2^62] raises [OverflowError]
    (the sum, [2^63], does not fit the column) and the record keeps its
    volume. *)
Lemma C7_counterexample :
  let w := mkWorld (mkTables [] [] [PayData.mk 1 7 "2024-01-01" (2 ^ 62)])
                   (fun _ => float_of_int 1700000000) (fun _ => "2024-01-01"%string)
                   (fun _ => S754_zero false) in
  insert_pay 7 (PyInt (2 ^ 62)) w = Raise OverflowError /\
  pay_data (tables (after (insert_pay 7 (PyInt (2 ^ 62))) w))
  = [PayData.mk 1 7 "2024-01-01" (2 ^ 62)] /\
  get_today_pay_data 7 (after (insert_pay 7 (PyInt (2 ^ 62))) w)
  = Ok (PyInt (2 ^ 62),
        mkWorld (tables w) (time_src w) (tl_src (tl_src (today_src w))) (random_src w)).
Proof.
  cbv zeta. split; [|split]; vm_compute; reflexivity.
Qed.

(** ** The inactivity sweep: floats *)

Lemma unit_draw_Q (r : float) :
  unit_draw r = true ->
  valid r = true /\ is_finite r = true /\ (0 <= F2Q r < 1)%Q.
Proof.
  unfold unit_draw. rewrite !andb_true_iff. intros [[Vr H0] H1].
  assert (Fr : is_finite r = true).
  { destruct r as [s|[]| |s m e]; try reflexivity; cbn in H0, H1; discriminate. }
  split; [exact Vr|]. split; [exact Fr|].
  apply fle_Q in H0; [|reflexivity|exact Vr|reflexivity|exact Fr].
  apply flt_Q in H1; [|exact Vr|reflexivity|exact Fr|reflexivity].
  assert (E1 : (F2Q (float_of_int 1) == 1)%Q) by reflexivity.
  assert (E0 : (F2Q (S754_zero false) == 0)%Q) by reflexivity.
  rewrite E1 in H1. rewrite E0 in H0. split; assumption.
Qed.

Lemma above_one_shape (c : float) :
  flt (float_of_int 1) c = true ->
  c = S754_infinity false \/ exists m e, c = S754_finite false m e.
Proof.
  destruct c as [s|[]| |[] m e]; cbn; try discriminate; intros _; eauto.
Qed.

Lemma has_sign_false_nonneg (c : float) :
  has_sign false c -> fle (S754_zero false) c = true.
Proof. intros [->|[->|(m & e & ->)]]; reflexivity. Qed.

Lemma py_round_sign (x : float) (s : bool) :
  has_sign s x -> has_sign s (py_round x 3).
Proof.
  intros [->|[->|(m & e & ->)]]; [left; reflexivity|right; left; reflexivity|].
  cbn [py_round]. change (10 ^ 3) with 1000. apply of_decimal_valid_sign.
Qed.


Lemma py_round_not_nan (x : float) : is_nan x = false -> is_nan (py_round x 3) = false.
Proof.
  destruct x as [s|s| |s m e]; try (intros H; exact H). intros _.
  cbn [py_round]. change (10 ^ 3) with 1000.
  apply (has_sign_not_nan s), of_decimal_valid_sign.
Qed.

Lemma fsub_not_nan (x y : float) :
  is_nan x = false -> is_finite y = true -> is_nan (fsub x y) = false.
Proof.
  intros Hx Hy. unfold fsub.
  destruct x as [sx|sx| |sx mx ex]; try discriminate;
    destruct y as [sy|sy| |sy my ey]; try discriminate; cbn [SFsub]; try reflexivity.
  - destruct sx, sy; reflexivity.
  - set (z := _ - _). destruct z as [|p|p]; cbn [binary_normalize]; [reflexivity| |].
    + apply (has_sign_not_nan false), binary_round_valid_sign.
    + apply (has_sign_not_nan true), binary_round_valid_sign.
Qed.

(** The sweep writes no negative zero: the difference of a valid balance
    above 1 and a draw below 1 is positive, and rounds to a float with
    the sign bit clear, which the column gives back as it is. *)
Lemma punished_sign (c r : float) :
  flt (float_of_int 1) c = true -> unit_draw r = true -> valid c = true ->
  has_sign false (py_round (fsub c r) 3) /\
  real (py_round (fsub c r) 3) = py_round (fsub c r) 3.
Proof.
  intros Hc Hr Vc. destruct (unit_draw_Q r Hr) as (Vr & Fr & Hr0 & Hr1).
  assert (S : has_sign false (py_round (fsub c r) 3)).
  { apply py_round_sign.
    destruct (above_one_shape c Hc) as [->|(m & e & ->)].
    - destruct r as [s|s| |s mr er]; try discriminate; right; left; reflexivity.
    - apply fsub_sign; [reflexivity|exact Fr|].
      apply flt_Q in Hc; [|reflexivity|exact Vc|reflexivity|reflexivity].
      assert (E1 : (F2Q (float_of_int 1) == 1)%Q) by reflexivity.
      rewrite E1 in Hc. lra. }
  split; [exact S|]. apply real_has_sign, S.
Qed.

(** The new balance of a punished user is a number, and it is not
    negative when the floats involved are valid. *)
Lemma punished_balance (c r : float) :
  flt (float_of_int 1) c = true -> unit_draw r = true ->
  let c' := py_round (fsub c r) 3 in
  is_nan c' = false /\
  (valid c = true -> fle (S754_zero false) c' = true).
Proof.
  intros Hc Hr c'. destruct (unit_draw_Q r Hr) as (Vr & Fr & Hr0 & Hr1).
  assert (Hnan : is_nan c = false) by (destruct (above_one_shape c Hc) as [->|(m & e & ->)]; reflexivity).
  split.
  - apply py_round_not_nan, fsub_not_nan; assumption.
  - intros Vc. apply has_sign_false_nonneg, py_round_sign.
    destruct (above_one_shape c Hc) as [->|(m & e & ->)].
    + destruct r as [s|s| |s mr er]; try discriminate; right; left; reflexivity.
    + apply fsub_sign; [reflexivity|exact Fr|].
      apply flt_Q in Hc; [|reflexivity|exact Vc|reflexivity|reflexivity].
      assert (E1 : (F2Q (float_of_int 1) == 1)%Q) by reflexivity.
      rewrite E1 in Hc. lra.
Qed.

(** The balances reachable from 5.0 by one punishment, 4.000 to 5.000,
    all lie within one coin below 5.0. *)
Lemma five_table :
  forallb (fun n => within_one_below_five (of_decimal false (Z.of_nat n) 1000))
          (seq 4000 1001) = true.
Proof. vm_compute. reflexivity. Qed.

Lemma half_ulp_3 : (half_ulp 3 == 1 # 2251799813685248)%Q.
Proof. reflexivity. Qed.

Lemma from_five (r : float) :
  unit_draw r = true ->
  within_one_below_five (py_round (fsub (float_of_int 5) r) 3) = true.
Proof.
  intros Hr. destruct (unit_draw_Q r Hr) as (Vr & Fr & Hr0 & Hr1).
  assert (E5 : (F2Q (float_of_int 5) == 5)%Q) by reflexivity.
  assert (E8 : (pow2 3 == 8)%Q) by reflexivity.
  destruct (fsub_Q (float_of_int 5) r 3 eq_refl Fr ltac:(lra) ltac:(unfold emax; lia))
    as (Fx & Hx & Hpos).
  rewrite half_ulp_3, E5 in Hx. specialize (Hpos ltac:(lra)).
  set (x := fsub (float_of_int 5) r) in *.
  destruct (thousandths_Q x Fx) as [Hk _].
  destruct (thousandths_sign x) as (K & HK0 & HK).
  assert (Hs : sign_of x = false) by (destruct Hpos as [->|(m & e & ->)]; reflexivity).
  rewrite Hs in HK. cbn [cond_Zopp] in HK.
  rewrite (py_round_thousandths x Fx), Hs, HK, Z.abs_eq by lia.
  rewrite HK in Hk.
  assert (H1 : (inject_Z 3999 < inject_Z K)%Q) by (change (inject_Z 3999) with 3999%Q; lra).
  assert (H2 : (inject_Z K < inject_Z 5001)%Q) by (change (inject_Z 5001) with 5001%Q; lra).
  rewrite <- Zlt_Qlt in H1, H2.
  pose proof five_table as Ht. rewrite forallb_forall in Ht.
  specialize (Ht (Z.to_nat K)). rewrite Z2Nat.id in Ht by lia.
  apply Ht. apply in_seq. lia.
Qed.

(** ** The clock *)

Lemma clock_reading_Q (t : float) :
  clock_reading t = true ->
  valid t = true /\ is_finite t = true /\ (0 <= F2Q t < 9007199254740992)%Q.
Proof.
  unfold clock_reading. rewrite !andb_true_iff. intros [[Vt H0] H1].
  assert (Ft : is_finite t = true).
  { destruct t as [s|[]| |s m e]; try reflexivity; cbn in H0, H1; discriminate. }
  split; [exact Vt|]. split; [exact Ft|].
  apply fle_Q in H0; [|reflexivity|exact Vt|reflexivity|exact Ft].
  apply flt_Q in H1; [|exact Vt|reflexivity|exact Ft|reflexivity].
  assert (E1 : (F2Q (float_of_int (2 ^ 53)) == 9007199254740992)%Q) by reflexivity.
  assert (E0 : (F2Q (S754_zero false) == 0)%Q) by reflexivity.
  rewrite E1 in H1. rewrite E0 in H0. split; assumption.
Qed.

(** [int(t)] of a clock reading: the whole seconds. *)
Lemma int_clock (t : float) :
  clock_reading t = true ->
  exists now, int (PyFlt t) = Ok now /\
              0 <= now < 2 ^ 53 /\
              (inject_Z now <= F2Q t < inject_Z now + 1)%Q.
Proof.
  intros Ht. destruct (clock_reading_Q t Ht) as (Vt & Ft & H0 & H1).
  destruct (int_truncates t Ft) as (now & Hnow & Hcase).
  exists now. split; [exact Hnow|].
  assert (Hb : 0 <= now /\ (inject_Z now <= F2Q t < inject_Z now + 1)%Q).
  { destruct Hcase as [[Hn Hv]|[Hn Hv]]; [split; assumption|].
    assert (Hz : (inject_Z (-1) < inject_Z now)%Q) by (change (inject_Z (-1)) with (-1)%Q; lra).
    rewrite <- Zlt_Qlt in Hz.
    assert (now = 0) by lia. subst now. change (inject_Z 0) with 0%Q in *. split; [lia|lra]. }
  destruct Hb as [Hn Hv]. split; [|exact Hv]. split; [exact Hn|].
  assert (Hlt : (inject_Z now < inject_Z (2 ^ 53))%Q)
    by (change (inject_Z (2 ^ 53)) with 9007199254740992%Q; lra).
  now rewrite <- Zlt_Qlt in Hlt.
Qed.

Lemma half_ulp_0 : (half_ulp 0 == 1 # 18014398509481984)%Q.
Proof. reflexivity. Qed.

Lemma half_ulp_18 : (half_ulp 18 == 1 # 68719476736)%Q.
Proof. reflexivity. Qed.

Lemma F2Q_86400 : (F2Q (float_of_int 86400) == 86400)%Q.
Proof. reflexivity. Qed.

(** A user whose [last_login] is the whole seconds of the clock reading is
    not inactive; one whose [last_login] is two days (172800 s) earlier is. *)
Lemma inactive_now_and_two_days_ago (t : float) (now : Z) (i : UserData.t) :
  clock_reading t = true -> int (PyFlt t) = Ok now ->
  (UserData.last_login i = now -> inactive t i = false) /\
  (UserData.last_login i = now - 172800 -> inactive t i = true).
Proof.
  intros Ht Hnow. destruct (clock_reading_Q t Ht) as (Vt & Ft & H0 & H1).
  destruct (int_clock t Ht) as (now' & Hnow' & Hrange & Hfrac).
  assert (now' = now) by congruence. subst now'.
  pose proof F2Q_86400 as E864.
  assert (V864 : valid (float_of_int 86400) = true) by reflexivity.
  unfold inactive. split; intros HL; rewrite HL.
  - destruct (float_of_int_exact now ltac:(lia)) as (FL & VL & EL).
    destruct (fsub_Q t (float_of_int now) 0 Ft FL) as (Fr & Hr & _).
    { rewrite EL. change (pow2 0) with 1%Q. lra. }
    { unfold emax. lia. }
    rewrite half_ulp_0, EL in Hr.
    pose proof (fsub_valid t (float_of_int now) Vt VL) as Vr.
    destruct (flt (float_of_int 86400) (fsub t (float_of_int now))) eqn:E; [|reflexivity].
    apply flt_Q in E; [|exact V864|exact Vr|reflexivity|exact Fr].
    rewrite E864 in E. lra.
  - destruct (float_of_int_exact (now - 172800) ltac:(lia)) as (FL & VL & EL).
    assert (EL' : (F2Q (float_of_int (now - 172800)) == inject_Z now - 172800)%Q).
    { rewrite EL. unfold Z.sub. rewrite inject_Z_plus. reflexivity. }
    destruct (fsub_Q t (float_of_int (now - 172800)) 18 Ft FL) as (Fr & Hr & _).
    { rewrite EL'. assert (E : (pow2 18 == 262144)%Q) by reflexivity. rewrite E. lra. }
    { unfold emax. lia. }
    rewrite half_ulp_18, EL' in Hr.
    pose proof (fsub_valid t (float_of_int (now - 172800)) Vt VL) as Vr.
    apply flt_Q; [exact V864|exact Vr|reflexivity|exact Fr|].
    rewrite E864. lra.
Qed.

(** ** The inactivity sweep: the loop *)

Lemma punish_row_run (i : UserData.t) (w : World) :
  let t := time_src w 0%nat in
  let w1 := mkWorld (tables w) (tl_src (time_src w)) (today_src w) (random_src w) in
  let w2 := mkWorld (tables w) (tl_src (time_src w)) (today_src w) (tl_src (random_src w)) in
  let c' := py_round (fsub (UserData.Coins i) (random_src w 0%nat)) 3 in
  punish_row i w =
  if inactive t i && above_one i
  then if is_nan c' then Raise IntegrityError else Ok (UserData.set_Coins c' i, w2)
  else Ok (i, w1).
Proof.
  intros t w1 w2 c'. unfold punish_row. cbn [bind time_time time_src].
  fold t. destruct (inactive t i && above_one i); [|reflexivity].
  cbn [bind random_random random_src]. fold c'. unfold not_null.
  destruct (is_nan c'); reflexivity.
Qed.

Lemma for_each_punish_row (rows : list UserData.t) : forall w : World,
  match for_each punish_row rows w with
  | Ok (rows', w') =>
      tables w' = tables w /\
      List.length rows' = List.length rows /\
      forall k i, nth_error rows k = Some i ->
                  exists i', nth_error rows' k = Some i' /\ punished w (time_src w k) i i'
  | Raise _ =>
      exists i r, In i rows /\ above_one i = true /\ drawn_from w r /\
                  is_nan (py_round (fsub (UserData.Coins i) r) 3) = true
  end.
Proof.
  induction rows as [|i rows IH]; intros w.
  - cbn. split; [reflexivity|]. split; [reflexivity|]. intros [|k] ? H; discriminate H.
  - cbn [for_each]. unfold bind. rewrite punish_row_run.
    set (t := time_src w 0%nat).
    set (c' := py_round (fsub (UserData.Coins i) (random_src w 0%nat)) 3).
    destruct (inactive t i && above_one i) eqn:Hcond.
    + destruct (is_nan c') eqn:Hnan.
      * exists i, (random_src w 0%nat). apply andb_true_iff in Hcond.
        split; [now left|]. split; [tauto|]. split; [now exists 0%nat|exact Hnan].
      * set (w2 := mkWorld (tables w) (tl_src (time_src w)) (today_src w) (tl_src (random_src w))).
        specialize (IH w2). destruct (for_each punish_row rows w2) as [[rows' w']|e].
        -- cbn [ret]. destruct IH as (Ht & Hlen & Hrows). split; [exact Ht|].
           split; [cbn; now rewrite Hlen|]. intros [|k] j Hj; cbn in Hj.
           ++ injection Hj as <-. exists (UserData.set_Coins c' i). split; [reflexivity|].
              unfold punished. fold t. rewrite Hcond.
              exists (random_src w 0%nat). split; [now exists 0%nat|reflexivity].
           ++ destruct (Hrows k j Hj) as (j' & Hj' & Hp). exists j'. split; [exact Hj'|].
              unfold punished in *. cbn [time_src w2] in Hp. unfold tl_src in Hp at 1.
              destruct (inactive (time_src w (S k)) j && above_one j); [|exact Hp].
              destruct Hp as (r & [n Hn] & Hr). exists r. split; [|exact Hr].
              exists (S n). exact Hn.
        -- destruct IH as (j & r & Hin & Habove & [n Hn] & Hnan').
           exists j, r. split; [now right|]. split; [exact Habove|]. split; [|exact Hnan'].
           exists (S n). exact Hn.
    + set (w1 := mkWorld (tables w) (tl_src (time_src w)) (today_src w) (random_src w)).
      specialize (IH w1). destruct (for_each punish_row rows w1) as [[rows' w']|e].
      * cbn [ret]. destruct IH as (Ht & Hlen & Hrows). split; [exact Ht|].
        split; [cbn; now rewrite Hlen|]. intros [|k] j Hj; cbn in Hj.
        -- injection Hj as <-. exists i. split; [reflexivity|].
           unfold punished. fold t. now rewrite Hcond.
        -- destruct (Hrows k j Hj) as (j' & Hj' & Hp). exists j'. split; [exact Hj'|].
           exact Hp.
      * destruct IH as (j & r & Hin & Habove & Hdrawn & Hnan').
        exists j, r. split; [now right|]. split; [exact Habove|]. split; assumption.
Qed.

(** With draws in [0, 1) the sweep commits, and every row is [punished]. *)
Lemma punish_all_inactive_users_run (w : World) :
  draws_in_unit w ->
  exists w',
    punish_all_inactive_users w = Ok (tt, w') /\
    groupdata (tables w') = groupdata (tables w) /\
    pay_data (tables w') = pay_data (tables w) /\
    List.length (userdata (tables w')) = List.length (userdata (tables w)) /\
    forall k i, nth_error (userdata (tables w)) k = Some i ->
                exists i', nth_error (userdata (tables w')) k = Some i' /\
                           punished w (time_src w k) i i'.
Proof.
  intros Hdraws. unfold punish_all_inactive_users, bind, session.
  pose proof (for_each_punish_row (userdata (tables w)) w) as H.
  destruct (for_each punish_row (userdata (tables w)) w) as [[rows' w']|e].
  - destruct H as (Ht & Hlen & Hrows). cbn [commit]. eexists. split; [reflexivity|].
    cbn [tables with_userdata userdata groupdata pay_data]. auto.
  - exfalso. destruct H as (i & r & _ & Habove & [n ->] & Hnan).
    destruct (punished_balance (UserData.Coins i) (random_src w n) Habove (Hdraws n)) as [H _].
    congruence.
Qed.

(** ** The inactivity sweep: the claims *)

Lemma punished_frame (w : World) (t : float) (i i' : UserData.t) :
  punished w t i i' ->
  UserData.userid i' = UserData.userid i /\
  UserData.last_login i' = UserData.last_login i /\
  (inactive t i && above_one i = false -> i' = i).
Proof.
  unfold punished. destruct (inactive t i && above_one i).
  - intros (r & _ & ->). cbn. repeat split. discriminate.
  - intros ->. auto.
Qed.

Lemma map_pointwise {A B} (f : A -> B) (l l' : list A) :
  List.length l' = List.length l ->
  (forall k a, nth_error l k = Some a -> exists a', nth_error l' k = Some a' /\ f a' = f a) ->
  map f l' = map f l.
Proof.
  revert l'. induction l as [|a l IH]; intros [|a' l'] Hlen H; try discriminate; [reflexivity|].
  cbn. f_equal.
  - destruct (H 0%nat a eq_refl) as (b & Hb & Hf). cbn in Hb. now injection Hb as <-.
  - apply IH; [now injection Hlen|]. intros k x Hx. exact (H (S k) x Hx).
Qed.

(** C1, with the decrease bounded by [<= 1]: the sweep commits, and for
    every user row, met at the
    clock reading [t], the balance becomes [round(Coins - r, 3)] for a
    draw [r] in [0, 1) exactly when [t - last_login > 86400] and
    [Coins > 1], the row being left as it is otherwise.  A user with 5.0
    coins whose [last_login] is two days before the clock ends with
    [0 <= 5.0 - Coins <= 1]; a user whose [last_login] is the clock's
    whole second is unchanged; a user with 0.5 coins is unchanged. *)
Theorem C1_punish_inactive_users (w : World) :
  draws_in_unit w ->
  exists w',
    punish_all_inactive_users w = Ok (tt, w') /\
    forall k i, nth_error (userdata (tables w)) k = Some i ->
      exists i',
        nth_error (userdata (tables w')) k = Some i' /\
        let t := time_src w k in
        (if inactive t i && above_one i
         then exists r, unit_draw r = true /\
                        i' = UserData.set_Coins (py_round (fsub (UserData.Coins i) r) 3) i
         else i' = i) /\
        (forall now, clock_reading t = true -> int (PyFlt t) = Ok now ->
                     UserData.Coins i = float_of_int 5 ->
                     UserData.last_login i = now - 172800 ->
                     within_one_below_five (UserData.Coins i') = true /\
                     exists r, unit_draw r = true /\
                               UserData.Coins i' = py_round (fsub (float_of_int 5) r) 3) /\
        (forall now, clock_reading t = true -> int (PyFlt t) = Ok now ->
                     UserData.last_login i = now -> i' = i) /\
        (UserData.Coins i = literal 5 1 -> i' = i).
Proof.
  intros Hdraws.
  destruct (punish_all_inactive_users_run w Hdraws) as (w' & Hrun & _ & _ & _ & Hrows).
  exists w'. split; [exact Hrun|]. intros k i Hi.
  destruct (Hrows k i Hi) as (i' & Hi' & Hp). exists i'. split; [exact Hi'|].
  cbv zeta. unfold punished in Hp.
  assert (Hp' : if inactive (time_src w k) i && above_one i
                then exists r, unit_draw r = true /\
                               i' = UserData.set_Coins (py_round (fsub (UserData.Coins i) r) 3) i
                else i' = i).
  { destruct (inactive (time_src w k) i && above_one i); [|exact Hp].
    destruct Hp as (r & [n ->] & ->). exists (random_src w n). split; [apply Hdraws|reflexivity]. }
  split; [exact Hp'|]. split; [|split].
  - intros now Ht Hnow H5 HL.
    destruct (inactive_now_and_two_days_ago _ now i Ht Hnow) as [_ Hin].
    rewrite (Hin HL) in Hp'. unfold above_one in Hp'. rewrite H5 in Hp'.
    change (flt (float_of_int 1) (float_of_int 5)) with true in Hp'. cbn [andb] in Hp'.
    destruct Hp' as (r & Hr & ->). cbn [UserData.set_Coins UserData.Coins].
    split; [now apply from_five|]. exists r. split; [exact Hr|reflexivity].
  - intros now Ht Hnow HL.
    destruct (inactive_now_and_two_days_ago _ now i Ht Hnow) as [Hin _].
    rewrite (Hin HL) in Hp'. exact Hp'.
  - intros H05. unfold above_one in Hp'. rewrite H05 in Hp'.
    change (flt (float_of_int 1) (literal 5 1)) with false in Hp'.
    rewrite andb_false_r in Hp'. exact Hp'.
Qed.

(** [5.0 - Coins < 1] does not hold for every draw: with 2047/2048 the
    sweep leaves exactly 4.0 coins, a decrease of 1. *)
Lemma C1_counterexample :
  let r := S754_finite false 9002801208229888 (-53) in
  let w := mkWorld (mkTables [UserData.mk 7 (float_of_int 5) (1700000000 - 172800)] [] [])
                   (fun _ => float_of_int 1700000000) (fun _ => "2024-01-01"%string)
                   (fun _ => r) in
  unit_draw r = true /\
  (F2Q r == 2047 # 2048)%Q /\
  match punish_all_inactive_users w with
  | Ok (_, w') => userdata (tables w') = [UserData.mk 7 (float_of_int 4) (1700000000 - 172800)]
  | Raise _ => False
  end /\
  flt (fsub (float_of_int 5) (float_of_int 4)) (float_of_int 1) = false.
Proof.
  cbv zeta. split; [reflexivity|]. split; [reflexivity|]. split; [vm_compute; reflexivity|].
  reflexivity.
Qed.

Lemma C1_witness :
  let w := mkWorld (mkTables [UserData.mk 7 (float_of_int 5) (1700000000 - 172800);
                              UserData.mk 8 (float_of_int 5) 1700000000;
                              UserData.mk 9 (literal 5 1) 0] [] [])
                   (fun _ => float_of_int 1700000000) (fun _ => "2024-01-01"%string)
                   (fun _ => literal 25 2) in
  exists w', punish_all_inactive_users w = Ok (tt, w').
Proof.
  intro w. destruct (C1_punish_inactive_users w) as (w' & Hrun & _).
  - intros n. reflexivity.
  - exists w'. exact Hrun.
Defined.

(** C9, with what is left of its last clause: the sweep changes nothing
    but [Coins]: the userids and the [last_login] stamps of all rows, the
    group flags and the payment log are as before, and the rows that fail
    the test are as before.  The stamp of a punished user is not reset, so
    the user is exactly as inactive after the sweep as before; a later
    turn of the sweep on the row, at a clock reading more than 86400 s
    after the stamp, punishes the user again when the balance left is
    above 1 and leaves the row alone when it is not. *)
Theorem C9_punish_changes_only_Coins (w : World) :
  let w' := after punish_all_inactive_users w in
  map UserData.userid (userdata (tables w')) = map UserData.userid (userdata (tables w)) /\
  map UserData.last_login (userdata (tables w'))
  = map UserData.last_login (userdata (tables w)) /\
  groupdata (tables w') = groupdata (tables w) /\
  pay_data (tables w') = pay_data (tables w) /\
  (forall k i i',
      nth_error (userdata (tables w)) k = Some i ->
      nth_error (userdata (tables w')) k = Some i' ->
      (inactive (time_src w k) i && above_one i = false -> i' = i) /\
      (forall t, inactive t i' = inactive t i) /\
      (forall w2 : World,
          inactive (time_src w2 0%nat) i = true ->
          let c := py_round (fsub (UserData.Coins i') (random_src w2 0%nat)) 3 in
          punish_row i' w2 =
          if above_one i'
          then if is_nan c then Raise IntegrityError
               else Ok (UserData.set_Coins c i',
                        mkWorld (tables w2) (tl_src (time_src w2)) (today_src w2)
                                (tl_src (random_src w2)))
          else Ok (i', mkWorld (tables w2) (tl_src (time_src w2)) (today_src w2)
                               (random_src w2)))).
Proof.
  intros w'. subst w'.
  assert (Hlater : forall i i' : UserData.t,
             UserData.last_login i' = UserData.last_login i ->
             (forall t, inactive t i' = inactive t i) /\
             (forall w2 : World,
                 inactive (time_src w2 0%nat) i = true ->
                 let c := py_round (fsub (UserData.Coins i') (random_src w2 0%nat)) 3 in
                 punish_row i' w2 =
                 if above_one i'
                 then if is_nan c then Raise IntegrityError
                      else Ok (UserData.set_Coins c i',
                               mkWorld (tables w2) (tl_src (time_src w2)) (today_src w2)
                                       (tl_src (random_src w2)))
                 else Ok (i', mkWorld (tables w2) (tl_src (time_src w2)) (today_src w2)
                                      (random_src w2)))).
  { intros i i' HL.
    assert (Hin : forall t, inactive t i' = inactive t i)
      by (intros t; unfold inactive; now rewrite HL).
    split; [exact Hin|]. intros w2 Ht c. rewrite punish_row_run. cbv zeta. fold c.
    rewrite Hin, Ht. reflexivity. }
  unfold after, punish_all_inactive_users, bind, session.
  pose proof (for_each_punish_row (userdata (tables w)) w) as H.
  destruct (for_each punish_row (userdata (tables w)) w) as [[rows' w1]|e].
  - destruct H as (_ & Hlen & Hrows). cbn [commit tables with_userdata userdata groupdata pay_data].
    split; [|split; [|split; [reflexivity|split; [reflexivity|]]]].
    + apply map_pointwise; [exact Hlen|]. intros k i Hi.
      destruct (Hrows k i Hi) as (i' & Hi' & Hp). exists i'. split; [exact Hi'|].
      apply (punished_frame _ _ _ _ Hp).
    + apply map_pointwise; [exact Hlen|]. intros k i Hi.
      destruct (Hrows k i Hi) as (i' & Hi' & Hp). exists i'. split; [exact Hi'|].
      apply (punished_frame _ _ _ _ Hp).
    + intros k i i' Hi Hi'. destruct (Hrows k i Hi) as (j & Hj & Hp).
      assert (j = i') by congruence. subst j.
      destruct (punished_frame _ _ _ _ Hp) as (_ & HL & Hsame).
      split; [exact Hsame|]. exact (Hlater i i' HL).
  - split; [reflexivity|]. split; [reflexivity|]. split; [reflexivity|].
    split; [reflexivity|]. intros k i i' Hi Hi'.
    assert (i' = i) by congruence. subst i'.
    split; [reflexivity|]. exact (Hlater i i eq_refl).
Qed.

(** A punished user does not always remain eligible: a user with 1.2 coins
    and a [last_login] of long ago is left with 0.45 coins by a draw of
    0.75; the stamp is as it was and the user is as inactive as before,
    but the next sweep leaves the row alone. *)
Lemma C9_counterexample :
  let w := mkWorld (mkTables [UserData.mk 7 (literal 12 1) 0] [] [])
                   (fun _ => float_of_int 1700000000) (fun _ => "2024-01-01"%string)
                   (fun _ => literal 75 2) in
  let w' := after punish_all_inactive_users w in
  let w'' := after punish_all_inactive_users w' in
  punish_all_inactive_users w = Ok (tt, w') /\
  userdata (tables w') = [UserData.mk 7 (literal 45 2) 0] /\
  inactive (time_src w' 0%nat) (UserData.mk 7 (literal 45 2) 0) = true /\
  above_one (UserData.mk 7 (literal 45 2) 0) = false /\
  punish_all_inactive_users w' = Ok (tt, w'') /\
  userdata (tables w'') = userdata (tables w').
Proof.
  cbv zeta. repeat split; vm_compute; reflexivity.
Qed.

(** C10: the sweep drives no balance below zero: a user with more than one
    coin ends with a balance of at least 0, every other user keeps the
    balance it had. *)
Theorem C10_punish_never_negative (w : World) :
  draws_in_unit w ->
  Forall (fun i => valid (UserData.Coins i) = true) (userdata (tables w)) ->
  exists w',
    punish_all_inactive_users w = Ok (tt, w') /\
    forall k i, nth_error (userdata (tables w)) k = Some i ->
      exists i',
        nth_error (userdata (tables w')) k = Some i' /\
        (above_one i = true -> fle (S754_zero false) (UserData.Coins i') = true) /\
        (above_one i = false -> UserData.Coins i' = UserData.Coins i).
Proof.
  intros Hdraws Hvalid.
  destruct (punish_all_inactive_users_run w Hdraws) as (w' & Hrun & _ & _ & _ & Hrows).
  exists w'. split; [exact Hrun|]. intros k i Hi.
  destruct (Hrows k i Hi) as (i' & Hi' & Hp). exists i'. split; [exact Hi'|].
  assert (Vi : valid (UserData.Coins i) = true).
  { rewrite Forall_forall in Hvalid. apply Hvalid. eapply nth_error_In; exact Hi. }
  unfold punished in Hp. split.
  - intros Habove. destruct (inactive (time_src w k) i && above_one i).
    + destruct Hp as (r & [n ->] & ->). cbn [UserData.set_Coins UserData.Coins].
      apply (punished_balance (UserData.Coins i) (random_src w n) Habove (Hdraws n)). exact Vi.
    + subst i'. apply has_sign_false_nonneg.
      destruct (above_one_shape _ Habove) as [->|(m & e & ->)]; unfold has_sign; eauto.
  - intros Hnot. rewrite Hnot, andb_false_r in Hp. now subst.
Qed.

Lemma C10_witness :
  let w := mkWorld (mkTables [UserData.mk 7 (literal 12 1) 0; UserData.mk 8 (literal 5 1) 0] [] [])
                   (fun _ => float_of_int 1700000000) (fun _ => "2024-01-01"%string)
                   (fun _ => literal 75 2) in
  exists w', punish_all_inactive_users w = Ok (tt, w').
Proof.
  intro w. destruct (C10_punish_never_negative w) as (w' & Hrun & _).
  - intros n. reflexivity.
  - repeat constructor.
  - exists w'. exact Hrun.
Defined.

(** ** The leaderboard *)

Lemma insert_desc_perm (u : UserData.t) (l : list UserData.t) :
  Permutation (u :: l) (insert_desc u l).
Proof.
  induction l as [|v l IH]; cbn; [reflexivity|].
  destruct (fle (UserData.Coins v) (UserData.Coins u)); [reflexivity|].
  rewrite perm_swap. now constructor.
Qed.

Lemma order_by_Coins_desc_perm (l : list UserData.t) :
  Permutation l (order_by_Coins_desc l).
Proof.
  induction l as [|u l IH]; cbn; [constructor|].
  rewrite <- insert_desc_perm. now constructor.
Qed.

Lemma insert_desc_sorted (u : UserData.t) (l : list UserData.t) :
  is_nan (UserData.Coins u) = false -> no_nan_Coins l ->
  Sorted not_below l -> Sorted not_below (insert_desc u l).
Proof.
  intros Hu Hl Hs. induction l as [|v l IH]; cbn.
  - repeat constructor.
  - destruct (fle (UserData.Coins v) (UserData.Coins u)) eqn:E.
    + constructor; [exact Hs|]. constructor. exact E.
    + inversion Hl as [|? ? Hv Hl']; subst. inversion Hs as [|? ? Hs' Hhd]; subst.
      constructor; [now apply IH|].
      assert (Hvu : not_below v u).
      { unfold not_below. destruct (fle_total _ _ Hu Hv) as [H|H]; [exact H|congruence]. }
      destruct l as [|x l]; cbn; [now constructor|].
      destruct (fle (UserData.Coins x) (UserData.Coins u)); constructor; [exact Hvu|].
      now inversion Hhd.
Qed.

Lemma order_by_Coins_desc_sorted (l : list UserData.t) :
  no_nan_Coins l -> StronglySorted not_below (order_by_Coins_desc l).
Proof.
  intros Hl. apply Sorted_StronglySorted.
  { intros a b c Hab Hbc. unfold not_below in *. now apply fle_trans with (UserData.Coins b). }
  induction l as [|u l IH]; cbn; [constructor|].
  inversion Hl as [|? ? Hu Hl']; subst.
  apply insert_desc_sorted; [exact Hu| |now apply IH].
  unfold no_nan_Coins in *. rewrite Forall_forall in *. intros x Hx.
  apply Hl'. eapply Permutation_in; [symmetry; apply order_by_Coins_desc_perm|exact Hx].
Qed.

(** C8: [get_sorted] returns one (userid, Coins) entry per user, in
    non-increasing order of Coins. *)
Theorem C8_get_sorted_descending (w : World) :
  no_nan_Coins (userdata (tables w)) ->
  exists board,
    get_sorted w = Ok (board, w) /\
    Permutation (map (fun i => (UserData.userid i, UserData.Coins i)) (userdata (tables w)))
                board /\
    StronglySorted (fun a b => fle (snd b) (snd a) = true) board.
Proof.
  intros Hnan. unfold get_sorted. cbn [bind ret session].
  eexists. split; [reflexivity|]. split.
  - apply Permutation_map, order_by_Coins_desc_perm.
  - pose proof (order_by_Coins_desc_sorted _ Hnan) as Hs.
    induction Hs as [|a l Hs IH Hall]; cbn; constructor; [exact IH|].
    rewrite Forall_map. exact Hall.
Qed.

Lemma C8_witness :
  let w := mkWorld (mkTables [UserData.mk 1 (literal 25 1) 0; UserData.mk 2 (float_of_int 10) 0;
                              UserData.mk 3 (literal 7125 3) 0] [] [])
                   (fun _ => float_of_int 1700000000) (fun _ => "2024-01-01"%string)
                   (fun _ => S754_zero false) in
  exists board,
    get_sorted w = Ok (board, w) /\
    Permutation (map (fun i => (UserData.userid i, UserData.Coins i)) (userdata (tables w)))
                board /\
    StronglySorted (fun a b => fle (snd b) (snd a) = true) board.
Proof.
  intro w. apply (C8_get_sorted_descending w).
  repeat constructor.
Defined.

(** * Further properties *)

(** ** Sequencing *)

(** A call that returned hands its result and its world to the rest. *)
Lemma bind_Ok {A B} (c : M A) (k : A -> M B) (w w' : World) (a : A) :
  c w = Ok (a, w') -> bind c k w = k a w'.
Proof. intros H. unfold bind. now rewrite H. Qed.

Lemma add_new_user_Ok (userid : Z) (w : World) (now : Z) :
  first (by_userid userid) (userdata (tables w)) = None ->
  int (PyFlt (time_src w 0%nat)) = Ok now ->
  add_new_user userid w
  = Ok (tt, mkWorld (with_userdata
                       (insert_by_key UserData.userid (UserData.mk userid (float_of_int 10) now)
                                      (userdata (tables w)))
                       (tables w))
                    (tl_src (time_src w)) (today_src w) (random_src w)).
Proof.
  intros Hnone Hnow. unfold first in Hnone. apply find_existsb_none in Hnone.
  unfold add_new_user, add_user. run. rewrite Hnow. run. cbn [UserData.userid].
  rewrite Hnone. reflexivity.
Qed.


(** ** Users: what a write leaves alone *)

Lemma find_update_other {A} (p q : A -> bool) (f : A -> A) (l : list A) :
  (forall a, p a = true -> q a = false /\ q (f a) = false) ->
  find q (update p f l) = find q l.
Proof.
  intros H. unfold update. induction l as [|a l IH]; cbn; [reflexivity|].
  destruct (p a) eqn:E.
  - destruct (H a E) as [H1 H2]. now rewrite H1, H2.
  - now rewrite IH.
Qed.

Lemma by_userid_other (userid other : Z) (a : UserData.t) :
  other <> userid -> by_userid userid a = true -> by_userid other a = false.
Proof.
  unfold by_userid. intros Hne Ha. apply Z.eqb_eq in Ha. apply Z.eqb_neq. lia.
Qed.

Lemma first_update_other (userid other : Z) (f : UserData.t -> UserData.t) (us : list UserData.t) :
  other <> userid ->
  (forall a, UserData.userid (f a) = UserData.userid a) ->
  first (by_userid other) (update (by_userid userid) f us) = first (by_userid other) us.
Proof.
  intros Hne Hf. unfold first. apply find_update_other. intros a Ha.
  pose proof (by_userid_other userid other a Hne Ha) as H. split; [exact H|].
  unfold by_userid in *. now rewrite Hf.
Qed.

Lemma update_activity_run (userid : Z) (w : World) (u : UserData.t) (now : Z) :
  first (by_userid userid) (userdata (tables w)) = Some u ->
  int (PyFlt (time_src w 0%nat)) = Ok now ->
  update_activity userid w
  = Ok (tt, mkWorld (with_userdata (update (by_userid userid) (UserData.set_last_login now)
                                           (userdata (tables w))) (tables w))
                    (tl_src (time_src w)) (today_src w) (random_src w)).
Proof.
  intros Hu Hnow. unfold update_activity, is_in_table. run. rewrite Hu. cbn [negb]. run.
  rewrite Hnow. run. reflexivity.
Qed.

(** X1: [update_activity] on a user that has a row stamps [last_login]
    with the whole seconds of the clock and changes nothing else: the
    balance of the user, the rows of the other users, the group flags and
    the payment log are as before. *)
Theorem update_activity_stamps_known_user (userid : Z) (w : World) (u : UserData.t) :
  first (by_userid userid) (userdata (tables w)) = Some u ->
  is_finite (time_src w 0%nat) = true ->
  exists w' now,
    update_activity userid w = Ok (tt, w') /\
    int (PyFlt (time_src w 0%nat)) = Ok now /\
    first (by_userid userid) (userdata (tables w')) = Some (UserData.set_last_login now u) /\
    get_Coins userid w' = Ok (UserData.Coins u, w') /\
    (forall other, other <> userid ->
       first (by_userid other) (userdata (tables w'))
       = first (by_userid other) (userdata (tables w))) /\
    map UserData.userid (userdata (tables w')) = map UserData.userid (userdata (tables w)) /\
    map UserData.Coins (userdata (tables w')) = map UserData.Coins (userdata (tables w)) /\
    groupdata (tables w') = groupdata (tables w) /\
    pay_data (tables w') = pay_data (tables w).
Proof.
  intros Hu Hfin. destruct (int_finite _ Hfin) as [now Hnow].
  eexists. exists now. split; [apply (update_activity_run userid w u now Hu Hnow)|].
  split; [exact Hnow|]. run.
  assert (Hrow : first (by_userid userid)
                       (update (by_userid userid) (UserData.set_last_login now) (userdata (tables w)))
                 = Some (UserData.set_last_login now u)).
  { unfold first in *. rewrite find_update by (intros a Ha; exact Ha). now rewrite Hu. }
  split; [exact Hrow|]. split.
  { unfold get_Coins. run. rewrite Hrow. reflexivity. }
  split.
  { intros other Hne. apply first_update_other; [exact Hne|reflexivity]. }
  split; [apply map_update_key; reflexivity|].
  split; [apply map_update_key; reflexivity|]. split; reflexivity.
Qed.

Lemma update_activity_stamps_known_user_witness :
  let w := mkWorld (mkTables [UserData.mk 7 (literal 25 1) 5; UserData.mk 8 (float_of_int 3) 6] [] [])
                   (fun _ => literal 17000000005 1) (fun _ => "2024-01-01"%string)
                   (fun _ => S754_zero false) in
  exists w', update_activity 7 w = Ok (tt, w') /\
             userdata (tables w')
             = [UserData.mk 7 (literal 25 1) 1700000000; UserData.mk 8 (float_of_int 3) 6].
Proof.
  intro w.
  destruct (update_activity_stamps_known_user 7 w (UserData.mk 7 (literal 25 1) 5) eq_refl eq_refl)
    as (w' & now & Hrun & _).
  exists w'. split; [exact Hrun|].
  vm_compute in Hrun. injection Hrun as <-. reflexivity.
Defined.

(** X2: [add_new_user] on a userid that has a row raises the integrity
    error of the primary key instead of resetting the balance; so does
    the second of two [add_new_user] calls for a new userid. *)
Theorem add_new_user_refuses_known_user (userid : Z) (w : World) :
  is_finite (time_src w 0%nat) = true ->
  (is_in_table userid w = Ok (true, w) ->
   add_new_user userid w = Raise IntegrityError) /\
  (is_in_table userid w = Ok (false, w) ->
   is_finite (time_src w 1%nat) = true ->
   (add_new_user userid ;;; add_new_user userid) w = Raise IntegrityError).
Proof.
  intros Hfin. destruct (int_finite _ Hfin) as [now Hnow].
  unfold is_in_table. run. split.
  - destruct (first (by_userid userid) (userdata (tables w))) as [u|] eqn:Hu; [|discriminate].
    intros _. unfold add_new_user, add_user. run. rewrite Hnow. run.
    cbn [UserData.userid].
    destruct (existsb (by_userid userid) (userdata (tables w))) eqn:E; [reflexivity|].
    apply find_existsb_none in E. unfold first in Hu. congruence.
  - destruct (first (by_userid userid) (userdata (tables w))) as [u|] eqn:Hnone; [discriminate|].
    intros _ Hfin1. destruct (int_finite _ Hfin1) as [now1 Hnow1].
    rewrite (bind_Ok _ _ _ _ _ (add_new_user_Ok userid w now Hnone Hnow)).
    unfold add_new_user, add_user. run. unfold tl_src at 1. rewrite Hnow1. run.
    cbn [UserData.userid].
    rewrite existsb_insert_by_key, by_userid_refl. reflexivity.
Qed.

Lemma add_new_user_refuses_known_user_witness :
  let w := mkWorld (mkTables [UserData.mk 7 (literal 25 1) 5] [] [])
                   (fun _ => float_of_int 1700000000) (fun _ => "2024-01-01"%string)
                   (fun _ => S754_zero false) in
  add_new_user 7 w = Raise IntegrityError.
Proof.
  intro w.
  exact (proj1 (add_new_user_refuses_known_user 7 w eq_refl) eq_refl).
Defined.



(** X4: [set_Coins] writes to the rows of its userid only: whether it
    returns or raises, no row is added or removed, the rows of the other
    users are as before, so that [get_Coins] returns for them what it
    returned before, and the group flags and the payment log are
    untouched. *)
Theorem set_Coins_touches_one_user (userid : Z) (length : float) (w : World) :
  let w' := after (set_Coins userid length) w in
  map UserData.userid (userdata (tables w')) = map UserData.userid (userdata (tables w)) /\
  (forall k i, nth_error (userdata (tables w)) k = Some i ->
               UserData.userid i <> userid ->
               nth_error (userdata (tables w')) k = Some i) /\
  (forall other c, other <> userid ->
                   get_Coins other w = Ok (c, w) -> get_Coins other w' = Ok (c, w')) /\
  groupdata (tables w') = groupdata (tables w) /\
  pay_data (tables w') = pay_data (tables w).
Proof.
  intros w'. subst w'. unfold after.
  destruct (set_Coins userid length w) as [[[] w']|e] eqn:Hrun;
    [|repeat split; auto].
  revert Hrun. unfold set_Coins. run.
  destruct (first (by_userid userid) (userdata (tables w))) as [u|]; cbn [attr]; run;
    [|discriminate].
  destruct (int (PyFlt (time_src w 0%nat))) as [now|e]; run; [|discriminate].
  destruct (not_null _) as [c|e]; run; [|discriminate].
  intros [= <-]. run.
  split; [apply map_update_key; reflexivity|]. split.
  { intros k i Hi Hne. unfold update. rewrite nth_error_map, Hi. cbn.
    unfold by_userid. destruct (Z.eqb_spec (UserData.userid i) userid); [contradiction|reflexivity]. }
  split; [|split; reflexivity].
  intros other c0 Hne. unfold get_Coins. run.
  rewrite (first_update_other userid other _ _ Hne) by reflexivity.
  destruct (first (by_userid other) (userdata (tables w))); cbn [attr]; run;
    intros [= <-]; reflexivity.
Qed.

(** ** Group flags: what a write leaves alone *)





(** ** The payment log: volumes that are floats *)

(** X6: [insert_pay] converts the volume with [int] before it reads the
    clock or the log: a NaN raises [ValueError], an infinity raises
    [OverflowError], and a finite float is paid in as its integer
    part. *)
Theorem insert_pay_takes_the_integer_part (userid : Z) (f : float) (w : World) :
  match f with
  | S754_nan => insert_pay userid (PyFlt f) w = Raise ValueError
  | S754_infinity _ => insert_pay userid (PyFlt f) w = Raise OverflowError
  | _ => exists v, int (PyFlt f) = Ok v /\
                   insert_pay userid (PyFlt f) w = insert_pay userid (PyInt v) w
  end.
Proof.
  destruct f as [s|s| |s m e].
  - exists 0. split; reflexivity.
  - apply insert_pay_raises. reflexivity.
  - apply insert_pay_raises. reflexivity.
  - eexists. split; reflexivity.
Qed.

(** ** The payment log, read back *)






(** ** Today's payments *)



Lemma get_today_pay_data_run (userid : Z) (w : World) :
  let ps := pay_data (tables w) in
  let w1 := mkWorld (tables w) (time_src w) (tl_src (today_src w)) (random_src w) in
  let w2 := mkWorld (tables w) (time_src w) (tl_src (tl_src (today_src w))) (random_src w) in
  get_today_pay_data userid w =
  match first (pay_by_userid_date userid (today_src w 0%nat)) ps with
  | Some _ =>
      match first (pay_by_userid_date userid (today_src w 1%nat)) ps with
      | Some r => Ok (PyInt (PayData.volume r), w2)
      | None => Raise AttributeError
      end
  | None => Ok (PyFlt (S754_zero false), w1)
  end.
Proof.
  intros ps w1 w2. unfold get_today_pay_data. run. fold ps.
  destruct (first (pay_by_userid_date userid (today_src w 0%nat)) ps); [|reflexivity].
  run. unfold tl_src at 1. fold ps.
  destruct (first (pay_by_userid_date userid (today_src w 1%nat)) ps); reflexivity.
Qed.



(** X9: [get_today_pay_data] asks for the date twice.  When the user has
    a record for the first date and the date has changed by the second
    reading, the call raises the error of an attribute read on [None] if
    the user has no record for the new date, and returns the volume of
    the new date otherwise. *)
Theorem get_today_pay_data_across_midnight (userid : Z) (w : World) (r : PayData.t) :
  first (pay_by_userid_date userid (today_src w 0%nat)) (pay_data (tables w)) = Some r ->
  (first (pay_by_userid_date userid (today_src w 1%nat)) (pay_data (tables w)) = None ->
   get_today_pay_data userid w = Raise AttributeError) /\
  (forall r', first (pay_by_userid_date userid (today_src w 1%nat)) (pay_data (tables w)) = Some r' ->
              exists w', get_today_pay_data userid w = Ok (PyInt (PayData.volume r'), w')).
Proof.
  intros Hr. rewrite get_today_pay_data_run. cbv zeta. rewrite Hr. split.
  - intros ->. reflexivity.
  - intros r' ->. eexists. reflexivity.
Qed.

Lemma get_today_pay_data_across_midnight_witness :
  let w := mkWorld (mkTables [] [] [PayData.mk 1 7 "2024-01-01" 30])
                   (fun _ => float_of_int 1700000000)
                   (fun n => match n with O => "2024-01-01" | _ => "2024-01-02" end%string)
                   (fun _ => S754_zero false) in
  get_today_pay_data 7 w = Raise AttributeError.
Proof.
  intro w.
  exact (proj1 (get_today_pay_data_across_midnight 7 w (PayData.mk 1 7 "2024-01-01" 30) eq_refl)
               eq_refl).
Defined.

(** ** Three-decimal values *)

Lemma half_ulp_35 : (half_ulp 35 == 1 # 524288)%Q.
Proof. reflexivity. Qed.

Lemma pow2_35 : (pow2 35 == 34359738368)%Q.
Proof. reflexivity. Qed.

Lemma inject_Z_abs_le (z b : Z) :
  Z.abs z <= b -> (- inject_Z b <= inject_Z z <= inject_Z b)%Q.
Proof. intros H. rewrite <- inject_Z_opp, <- !Zle_Qle. lia. Qed.

Lemma has_sign_sign_of (s : bool) (c : float) : has_sign s c -> sign_of c = s.
Proof. intros [->|[->|(m & e & ->)]]; reflexivity. Qed.

(** Rounding to three decimals lands on a value that a second rounding
    leaves alone, and that lies within [2^-19] of the decimal. *)
Lemma py_round_near (x : float) :
  is_finite x = true -> Z.abs (thousandths x) <= 1000 * 2 ^ 34 ->
  let c := py_round x 3 in
  is_finite c = true /\ valid c = true /\ three_decimals c /\
  thousandths c = thousandths x /\
  (- (1 # 524288) <= F2Q c - inject_Z (thousandths x) * (1 # 1000) <= 1 # 524288)%Q.
Proof.
  intros Fx HT c.
  destruct (thousandths_sign x) as (K & HK0 & HK).
  assert (HKabs : Z.abs (thousandths x) = K) by (rewrite HK; destruct (sign_of x); cbn; lia).
  assert (Hc : c = of_decimal (sign_of x) K 1000).
  { unfold c. rewrite (py_round_thousandths x Fx). now rewrite HKabs. }
  pose proof half_ulp_35 as Hh. pose proof pow2_35 as Hp.
  assert (HKQ : (inject_Z K <= 1000 * 17179869184)%Q).
  { change (1000 * 17179869184)%Q with (inject_Z (1000 * 2 ^ 34)). rewrite <- Zle_Qle. lia. }
  destruct (of_decimal_Q (sign_of x) K 35 HK0 ltac:(lra) ltac:(unfold emax; lia)) as [Fc Hv].
  destruct (of_decimal_valid_sign (sign_of x) K) as [Vc Sc].
  rewrite <- Hc in Fc, Hv, Vc, Sc. rewrite <- HK, Hh in Hv.
  destruct (thousandths_Q c Fc) as [_ Huniq].
  assert (ET : thousandths c = thousandths x) by (apply Huniq; lra).
  split; [exact Fc|]. split; [exact Vc|]. split; [|split; [exact ET|exact Hv]].
  unfold three_decimals. rewrite (py_round_thousandths c Fc), ET, HKabs.
  rewrite (has_sign_sign_of _ _ Sc). now symmetry.
Qed.

Lemma three_decimals_Q (b : float) :
  is_finite b = true -> three_decimals b -> Z.abs (thousandths b) <= 1000 * 2 ^ 34 ->
  valid b = true /\
  (- (1 # 524288) <= F2Q b - inject_Z (thousandths b) * (1 # 1000) <= 1 # 524288)%Q.
Proof.
  intros Fb H3 HT. destruct (py_round_near b Fb HT) as (_ & V & _ & _ & Hv).
  unfold three_decimals in H3. rewrite H3 in V, Hv. split; assumption.
Qed.

Lemma decimal_Q (b : float) :
  decimal b ->
  is_finite b = true /\ valid b = true /\
  (- (1 # 524288) <= F2Q b - inject_Z (thousandths b) * (1 # 1000) <= 1 # 524288)%Q /\
  (- (1000 * 4294967296) <= inject_Z (thousandths b) <= 1000 * 4294967296)%Q.
Proof.
  intros (Fb & H3 & HT).
  destruct (three_decimals_Q b Fb H3 ltac:(lia)) as [V Hv].
  split; [exact Fb|]. split; [exact V|]. split; [exact Hv|].
  apply (inject_Z_abs_le _ (1000 * 2 ^ 32)). exact HT.
Qed.

(** Two three-decimal values with the same thousandths have the same
    value. *)
Lemma three_decimals_same (b c : float) :
  is_finite b = true -> is_finite c = true -> three_decimals b -> three_decimals c ->
  thousandths b = thousandths c -> (F2Q b == F2Q c)%Q.
Proof.
  intros Fb Fc Hb Hc E. unfold three_decimals in *.
  rewrite <- Hb, <- Hc, (py_round_thousandths b Fb), (py_round_thousandths c Fc), <- E.
  destruct (Z.eq_dec (thousandths b) 0) as [Z0|N0].
  - rewrite Z0. reflexivity.
  - destruct (thousandths_sign b) as (Kb & HKb0 & HKb).
    destruct (thousandths_sign c) as (Kc & HKc0 & HKc).
    assert (sign_of b = sign_of c); [|now subst; replace (sign_of c) with (sign_of b)].
    rewrite <- E in HKc. rewrite HKb in HKc, N0.
    destruct (sign_of b), (sign_of c); cbn [cond_Zopp] in *; try reflexivity; lia.
Qed.

(** Three-decimal values are ordered as their thousandths are. *)
Lemma three_decimals_le (b c : float) :
  is_finite b = true -> is_finite c = true -> three_decimals b -> three_decimals c ->
  Z.abs (thousandths b) <= 1000 * 2 ^ 34 -> Z.abs (thousandths c) <= 1000 * 2 ^ 34 ->
  thousandths b <= thousandths c -> fle b c = true.
Proof.
  intros Fb Fc Hb Hc Bb Bc Hle.
  destruct (three_decimals_Q b Fb Hb Bb) as [Vb Qb].
  destruct (three_decimals_Q c Fc Hc Bc) as [Vc Qc].
  apply fle_Q; try assumption.
  destruct (Z.eq_dec (thousandths b) (thousandths c)) as [E|N].
  - rewrite (three_decimals_same b c Fb Fc Hb Hc E). lra.
  - assert (H1 : thousandths b + 1 <= thousandths c) by lia.
    rewrite Zle_Qle, inject_Z_plus in H1. change (inject_Z 1) with 1%Q in H1. lra.
Qed.

(** The sum of two three-decimal values, rounded to three decimals, is
    the three-decimal value of the sum of their thousandths. *)
Lemma decimal_add (b d : float) :
  decimal b -> decimal d ->
  Z.abs (thousandths b) + Z.abs (thousandths d) <= 1000 * 2 ^ 32 ->
  let c := py_round (fadd b d) 3 in
  decimal c /\ thousandths c = thousandths b + thousandths d.
Proof.
  intros Hb Hd Hsum c.
  destruct (decimal_Q b Hb) as (Fb & Vb & Qb & Bb).
  destruct (decimal_Q d Hd) as (Fd & Vd & Qd & Bd).
  pose proof half_ulp_35 as Hh. pose proof pow2_35 as Hp.
  assert (HS : (- (1000 * 4294967296) <= inject_Z (thousandths b) + inject_Z (thousandths d)
                <= 1000 * 4294967296)%Q).
  { rewrite <- inject_Z_plus. apply (inject_Z_abs_le _ (1000 * 2 ^ 32)). lia. }
  set (x := fadd b d) in *.
  destruct (fadd_Q b d 35 Fb Fd ltac:(lra) ltac:(unfold emax; lia)) as [Fx Hx].
  fold x in Fx, Hx. rewrite Hh in Hx.
  destruct (thousandths_Q x Fx) as [_ Huniq].
  assert (ET : thousandths x = thousandths b + thousandths d).
  { apply Huniq. rewrite inject_Z_plus. lra. }
  destruct (py_round_near x Fx ltac:(lia)) as (Fc & Vc & H3 & ETc & _). fold c in Fc, Vc, H3, ETc.
  split; [|congruence]. split; [exact Fc|]. split; [exact H3|]. lia.
Qed.

(** ** Balances stay decimal *)

(** X10: when the sum of the balance and the delta is at most [2^32] in
    magnitude, the balance [set_Coins] stores is a three-decimal value:
    rounding it to three decimals again gives the same float. *)
Theorem set_Coins_stores_three_decimals (userid : Z) (length : float) (w : World)
    (u : UserData.t) :
  first (by_userid userid) (userdata (tables w)) = Some u ->
  is_finite (time_src w 0%nat) = true ->
  moderate (fadd (UserData.Coins u) length) ->
  exists w' c,
    set_Coins userid length w = Ok (tt, w') /\
    get_Coins userid w' = Ok (c, w') /\
    decimal c.
Proof.
  intros Hu Hfin Hmod. destruct (int_finite _ Hfin) as [now Hnow].
  destruct (moderate_Q _ Hmod) as [Fx Bx].
  set (x := fadd (UserData.Coins u) length) in *.
  destruct (thousandths_Q x Fx) as [HTx _].
  assert (HT : Z.abs (thousandths x) <= 1000 * 2 ^ 32).
  { assert (H1 : (inject_Z (thousandths x) < inject_Z (1000 * 2 ^ 32 + 1))%Q).
    { change (inject_Z (1000 * 2 ^ 32 + 1)) with (1000 * 4294967296 + 1)%Q. lra. }
    assert (H2 : (inject_Z (- (1000 * 2 ^ 32 + 1)) < inject_Z (thousandths x))%Q).
    { change (inject_Z (- (1000 * 2 ^ 32 + 1))) with (- (1000 * 4294967296 + 1))%Q. lra. }
    rewrite <- Zlt_Qlt in H1, H2. lia. }
  destruct (py_round_near x Fx ltac:(lia)) as (Fc & Vc & H3 & ETc & _).
  set (c := py_round x 3) in *.
  assert (Hnan : is_nan c = false) by (destruct c; try reflexivity; discriminate Fc).
  pose proof (set_Coins_run userid length w u now Hu Hnow) as Hrun.
  cbv zeta in Hrun. fold x c in Hrun. rewrite Hnan in Hrun.
  assert (Hget : forall w', userdata (tables w')
                            = update (by_userid userid) (adjusted (real c) now)
                                     (userdata (tables w)) ->
                            get_Coins userid w' = Ok (real c, w')).
  { intros w' Hw'. unfold get_Coins. run. rewrite Hw', (first_adjusted _ _ _ _ _ Hu). reflexivity. }
  eexists. exists (real c). split; [exact Hrun|].
  split; [apply Hget; reflexivity|].
  apply real_decimal. split; [exact Fc|split; [exact H3|lia]].
Qed.

Lemma set_Coins_stores_three_decimals_witness :
  let w := mkWorld (mkTables [UserData.mk 7 (float_of_int 10) 5] [] [])
                   (fun _ => float_of_int 1700000000) (fun _ => "2024-01-01"%string)
                   (fun _ => S754_zero false) in
  exists w' c, set_Coins 7 (literal 53333 4) w = Ok (tt, w') /\
               get_Coins 7 w' = Ok (c, w') /\
               decimal c.
Proof.
  intro w.
  apply (set_Coins_stores_three_decimals 7 (literal 53333 4) w (UserData.mk 7 (float_of_int 10) 5)
           eq_refl eq_refl).
  repeat split; reflexivity.
Defined.

(** ** Decimal amounts add up exactly *)

Lemma set_Coins_decimal_run (userid : Z) (length : float) (w : World) (u : UserData.t) :
  first (by_userid userid) (userdata (tables w)) = Some u ->
  is_finite (time_src w 0%nat) = true ->
  decimal (UserData.Coins u) -> decimal length ->
  Z.abs (thousandths (UserData.Coins u)) + Z.abs (thousandths length) <= 1000 * 2 ^ 32 ->
  exists w' u',
    set_Coins userid length w = Ok (tt, w') /\
    first (by_userid userid) (userdata (tables w')) = Some u' /\
    time_src w' = tl_src (time_src w) /\
    decimal (UserData.Coins u') /\
    thousandths (UserData.Coins u') = thousandths (UserData.Coins u) + thousandths length.
Proof.
  intros Hu Hfin Hb Hd Hsum. destruct (int_finite _ Hfin) as [now Hnow].
  destruct (decimal_add _ _ Hb Hd Hsum) as [Hc HTc].
  set (c := py_round (fadd (UserData.Coins u) length) 3) in *.
  assert (Hnan : is_nan c = false).
  { destruct Hc as (Fc & _). destruct c; try reflexivity; discriminate Fc. }
  pose proof (set_Coins_run userid length w u now Hu Hnow) as Hrun.
  cbv zeta in Hrun. fold c in Hrun. rewrite Hnan in Hrun.
  eexists. exists (adjusted (real c) now u). split; [exact Hrun|]. run.
  split; [apply (first_adjusted _ _ _ _ _ Hu)|]. split; [reflexivity|].
  cbn [adjusted UserData.set_last_login UserData.set_Coins UserData.Coins].
  split; [apply real_decimal; exact Hc|]. rewrite thousandths_real. exact HTc.
Qed.

(** X11: three-decimal amounts add up exactly.  After [set_Coins] calls
    with three-decimal deltas on a three-decimal balance, all within
    [2^32] coins, the balance is the three-decimal float of the exact
    sum: in thousandths, the balance plus the sum of the deltas. *)
Theorem set_Coins_adds_decimals_exactly (userid : Z) (lengths : list float) (w : World)
    (u : UserData.t) :
  first (by_userid userid) (userdata (tables w)) = Some u ->
  (forall n, is_finite (time_src w n) = true) ->
  decimal (UserData.Coins u) ->
  Forall decimal lengths ->
  Z.abs (thousandths (UserData.Coins u)) + sum_of (map (fun d => Z.abs (thousandths d)) lengths)
  <= 1000 * 2 ^ 32 ->
  exists w' c,
    set_Coins_each userid lengths w = Ok (tt, w') /\
    get_Coins userid w' = Ok (c, w') /\
    decimal c /\
    thousandths c = thousandths (UserData.Coins u) + sum_of (map thousandths lengths).
Proof.
  revert w u. induction lengths as [|d rest IH]; intros w u Hu Hfin Hb Hds Hsum.
  - exists w, (UserData.Coins u). split; [reflexivity|].
    split; [unfold get_Coins; run; now rewrite Hu|]. split; [exact Hb|]. cbn. lia.
  - inversion Hds as [|? ? Hd Hrest]; subst. cbn [map sum_of fold_right] in Hsum.
    fold (sum_of (map (fun d => Z.abs (thousandths d)) rest)) in Hsum.
    assert (Hpos : 0 <= sum_of (map (fun d => Z.abs (thousandths d)) rest)).
    { clear. induction rest as [|a l IHl]; cbn; [lia|]. unfold sum_of in IHl. lia. }
    destruct (set_Coins_decimal_run userid d w u Hu (Hfin 0%nat) Hb Hd ltac:(lia))
      as (w1 & u1 & Hrun & Hu1 & Hsrc & Hc1 & HT1).
    destruct (IH w1 u1 Hu1) as (w' & c & Hrest' & Hget & Hc & HT).
    + intros n. rewrite Hsrc. apply Hfin.
    + exact Hc1.
    + exact Hrest.
    + rewrite HT1. lia.
    + exists w', c. cbn [set_Coins_each]. rewrite (bind_Ok _ _ _ _ _ Hrun).
      split; [exact Hrest'|]. split; [exact Hget|]. split; [exact Hc|].
      rewrite HT, HT1. cbn [map sum_of fold_right]. unfold sum_of. lia.
Qed.

Lemma set_Coins_adds_decimals_exactly_witness :
  let w := mkWorld (mkTables [UserData.mk 7 (float_of_int 10) 5] [] [])
                   (fun _ => float_of_int 1700000000) (fun _ => "2024-01-01"%string)
                   (fun _ => S754_zero false) in
  exists w' c,
    set_Coins_each 7 [literal 1 1; literal 2 1; literal (-3) 1; literal 7 1] w = Ok (tt, w') /\
    get_Coins 7 w' = Ok (c, w') /\
    thousandths c = 10700.
Proof.
  intro w.
  destruct (set_Coins_adds_decimals_exactly 7 [literal 1 1; literal 2 1; literal (-3) 1; literal 7 1]
              w (UserData.mk 7 (float_of_int 10) 5) eq_refl)
    as (w' & c & Hrun & Hget & _ & HT).
  - intros n. reflexivity.
  - repeat split; try reflexivity. vm_compute. discriminate.
  - repeat constructor; try reflexivity; vm_compute; discriminate.
  - vm_compute. discriminate.
  - exists w', c. split; [exact Hrun|]. split; [exact Hget|]. exact HT.
Defined.

(** ** Gains and losses *)

(** X12: on a three-decimal balance, [set_Coins] with a delta that is not
    negative never lowers the balance, and with a delta that is not
    positive never raises it, whatever the decimals of the delta. *)
Theorem set_Coins_moves_with_the_sign (userid : Z) (length : float) (w : World)
    (u : UserData.t) :
  first (by_userid userid) (userdata (tables w)) = Some u ->
  is_finite (time_src w 0%nat) = true ->
  decimal (UserData.Coins u) ->
  moderate length ->
  exists w' c,
    set_Coins userid length w = Ok (tt, w') /\
    get_Coins userid w' = Ok (c, w') /\
    (fle (S754_zero false) length = true -> fle (UserData.Coins u) c = true) /\
    (fle length (S754_zero false) = true -> fle c (UserData.Coins u) = true).
Proof.
  intros Hu Hfin Hb Hmod. destruct (int_finite _ Hfin) as [now Hnow].
  destruct (decimal_Q _ Hb) as (Fb & Vb & Qb & Bb).
  destruct Hb as (_ & H3b & HTb).
  destruct (moderate_Q _ Hmod) as [Fl Bl]. destruct Hmod as (Vl & _ & _).
  pose proof half_ulp_35 as Hh. pose proof pow2_35 as Hp.
  set (b := UserData.Coins u) in *.
  set (x := fadd b length) in *.
  destruct (fadd_Q b length 35 Fb Fl ltac:(lra) ltac:(unfold emax; lia)) as [Fx Hx].
  fold x in Fx, Hx. rewrite Hh in Hx.
  destruct (thousandths_Q x Fx) as [HTx _].
  assert (HT : Z.abs (thousandths x) <= 1000 * 2 ^ 34).
  { assert (H1 : (inject_Z (thousandths x) < inject_Z (1000 * 2 ^ 34))%Q).
    { change (inject_Z (1000 * 2 ^ 34)) with (1000 * 17179869184)%Q. lra. }
    assert (H2 : (inject_Z (- (1000 * 2 ^ 34)) < inject_Z (thousandths x))%Q).
    { change (inject_Z (- (1000 * 2 ^ 34))) with (- (1000 * 17179869184))%Q. lra. }
    rewrite <- Zlt_Qlt in H1, H2. lia. }
  destruct (py_round_near x Fx HT) as (Fc & Vc & H3 & ETc & _).
  set (c := py_round x 3) in *.
  assert (Hnan : is_nan c = false) by (destruct c; try reflexivity; discriminate Fc).
  pose proof (set_Coins_run userid length w u now Hu Hnow) as Hrun.
  cbv zeta in Hrun. fold b x c in Hrun. rewrite Hnan in Hrun.
  eexists. exists (real c). split; [exact Hrun|]. split.
  { unfold get_Coins. run. rewrite (first_adjusted _ _ _ _ _ Hu). reflexivity. }
  rewrite fle_real_l, fle_real_r.
  assert (V0 : valid (S754_zero false) = true) by reflexivity.
  assert (E0 : (F2Q (S754_zero false) == 0)%Q) by reflexivity.
  split.
  - intros Hpos. apply fle_Q in Hpos; [|exact V0|exact Vl|reflexivity|exact Fl].
    rewrite E0 in Hpos.
    apply three_decimals_le; try assumption; try lia. rewrite ETc.
    assert (H1 : (inject_Z (thousandths b + -1) < inject_Z (thousandths x))%Q).
    { rewrite inject_Z_plus. change (inject_Z (-1)) with (-1)%Q. lra. }
    rewrite <- Zlt_Qlt in H1. lia.
  - intros Hneg. apply fle_Q in Hneg; [|exact Vl|exact V0|exact Fl|reflexivity].
    rewrite E0 in Hneg.
    apply three_decimals_le; try assumption; try lia. rewrite ETc.
    assert (H1 : (inject_Z (thousandths x) < inject_Z (thousandths b + 1))%Q).
    { rewrite inject_Z_plus. change (inject_Z 1) with 1%Q. lra. }
    rewrite <- Zlt_Qlt in H1. lia.
Qed.

Lemma set_Coins_moves_with_the_sign_witness :
  let w := mkWorld (mkTables [UserData.mk 7 (float_of_int 10) 5] [] [])
                   (fun _ => float_of_int 1700000000) (fun _ => "2024-01-01"%string)
                   (fun _ => S754_zero false) in
  exists w' c, set_Coins 7 (literal 53333 4) w = Ok (tt, w') /\
               get_Coins 7 w' = Ok (c, w') /\
               fle (float_of_int 10) c = true.
Proof.
  intro w.
  destruct (set_Coins_moves_with_the_sign 7 (literal 53333 4) w (UserData.mk 7 (float_of_int 10) 5)
              eq_refl eq_refl) as (w' & c & Hrun & Hget & Hup & _).
  - repeat split; try reflexivity. vm_compute. discriminate.
  - repeat split; reflexivity.
  - exists w', c. split; [exact Hrun|]. split; [exact Hget|]. apply Hup. reflexivity.
Defined.

(** ** The sweep on decimal balances *)

(** A three-decimal balance above one coin is at least 1.001. *)
Lemma above_one_thousandths (c : float) :
  decimal c -> flt (float_of_int 1) c = true -> 1001 <= thousandths c.
Proof.
  intros Hc Habove.
  destruct (decimal_Q _ Hc) as (Fc & Vc & Qc & Bc). destruct Hc as (_ & H3c & HTc).
  apply flt_Q in Habove; [|reflexivity|exact Vc|reflexivity|exact Fc].
  assert (E1 : (F2Q (float_of_int 1) == 1)%Q) by reflexivity. rewrite E1 in Habove.
  assert (H1000 : 1000 <= thousandths c).
  { assert (H1 : (inject_Z 999 < inject_Z (thousandths c))%Q).
    { change (inject_Z 999) with 999%Q. lra. }
    rewrite <- Zlt_Qlt in H1. lia. }
  destruct (Z.eq_dec (thousandths c) 1000) as [E|N]; [exfalso|lia].
  assert (Hsame : (F2Q c == F2Q (float_of_int 1))%Q).
  { apply three_decimals_same; try assumption; try reflexivity. }
  rewrite Hsame, E1 in Habove. lra.
Qed.

Lemma punished_decimal (c r : float) :
  decimal c -> flt (float_of_int 1) c = true -> unit_draw r = true ->
  let c' := py_round (fsub c r) 3 in
  decimal c' /\
  thousandths c - 1000 <= thousandths c' <= thousandths c /\
  1 <= thousandths c' /\
  fle c' c = true.
Proof.
  intros Hc Habove Hr c'.
  pose proof (above_one_thousandths c Hc Habove) as H1001.
  destruct (decimal_Q _ Hc) as (Fc & Vc & Qc & Bc). destruct Hc as (_ & H3c & HTc).
  destruct (unit_draw_Q r Hr) as (Vr & Fr & Hr0 & Hr1).
  apply flt_Q in Habove; [|reflexivity|exact Vc|reflexivity|exact Fc].
  assert (E1 : (F2Q (float_of_int 1) == 1)%Q) by reflexivity. rewrite E1 in Habove.
  pose proof half_ulp_35 as Hh. pose proof pow2_35 as Hp.
  set (x := fsub c r) in *.
  destruct (fsub_Q c r 35 Fc Fr ltac:(lra) ltac:(unfold emax; lia)) as (Fx & Hx & _).
  fold x in Fx, Hx. rewrite Hh in Hx.
  destruct (thousandths_Q x Fx) as [HTx _].
  assert (Hup : thousandths x <= thousandths c).
  { assert (H1 : (inject_Z (thousandths x) < inject_Z (thousandths c + 1))%Q).
    { rewrite inject_Z_plus. change (inject_Z 1) with 1%Q. lra. }
    rewrite <- Zlt_Qlt in H1. lia. }
  assert (Hlo : thousandths c - 1000 <= thousandths x).
  { assert (H1 : (inject_Z (thousandths c + -1001) < inject_Z (thousandths x))%Q).
    { rewrite inject_Z_plus. change (inject_Z (-1001)) with (-1001)%Q. lra. }
    rewrite <- Zlt_Qlt in H1. lia. }
  assert (H0 : 0 <= thousandths x).
  { assert (H1 : (inject_Z (-1) < inject_Z (thousandths x))%Q).
    { change (inject_Z (-1)) with (-1)%Q. lra. }
    rewrite <- Zlt_Qlt in H1. lia. }
  destruct (py_round_near x Fx ltac:(lia)) as (Fc' & Vc' & H3 & ET & _).
  fold c' in Fc', Vc', H3, ET.
  split; [split; [exact Fc'|split; [exact H3|lia]]|].
  split; [lia|]. split; [lia|].
  apply three_decimals_le; try assumption; lia.
Qed.

(** X13: on three-decimal balances the sweep never raises a balance,
    takes at most one coin and empties no account: every balance stays a
    three-decimal value and, in thousandths, ends between the old balance
    minus 1000 and the old balance; a balance above one coin keeps at
    least 0.001. *)
Theorem punish_takes_at_most_one_coin (w : World) :
  draws_in_unit w ->
  Forall (fun i => decimal (UserData.Coins i)) (userdata (tables w)) ->
  exists w',
    punish_all_inactive_users w = Ok (tt, w') /\
    forall k i, nth_error (userdata (tables w)) k = Some i ->
      exists i',
        nth_error (userdata (tables w')) k = Some i' /\
        decimal (UserData.Coins i') /\
        thousandths (UserData.Coins i) - 1000 <= thousandths (UserData.Coins i')
        <= thousandths (UserData.Coins i) /\
        (above_one i = true -> 1 <= thousandths (UserData.Coins i')) /\
        fle (UserData.Coins i') (UserData.Coins i) = true.
Proof.
  intros Hdraws Hdec.
  destruct (punish_all_inactive_users_run w Hdraws) as (w' & Hrun & _ & _ & _ & Hrows).
  exists w'. split; [exact Hrun|]. intros k i Hi.
  destruct (Hrows k i Hi) as (i' & Hi' & Hp). exists i'. split; [exact Hi'|].
  assert (Di : decimal (UserData.Coins i)).
  { rewrite Forall_forall in Hdec. apply Hdec. eapply nth_error_In; exact Hi. }
  unfold punished in Hp.
  destruct (inactive (time_src w k) i && above_one i) eqn:Hcond.
  - destruct Hp as (r & [n ->] & ->). cbn [UserData.set_Coins UserData.Coins].
    apply andb_true_iff in Hcond. destruct Hcond as [_ Habove].
    destruct (punished_decimal _ _ Di Habove (Hdraws n)) as (H1 & H2 & H3 & H4). auto.
  - subst i'. split; [exact Di|]. split; [lia|]. split.
    + intros Habove. pose proof (above_one_thousandths _ Di Habove). lia.
    + destruct (decimal_Q _ Di) as (Fi & _). destruct Di as (_ & H3 & HT).
      apply three_decimals_le; try assumption; lia.
Qed.

Lemma punish_takes_at_most_one_coin_witness :
  let w := mkWorld (mkTables [UserData.mk 7 (literal 12 1) 0; UserData.mk 8 (literal 5 1) 0] [] [])
                   (fun _ => float_of_int 1700000000) (fun _ => "2024-01-01"%string)
                   (fun _ => literal 75 2) in
  exists w', punish_all_inactive_users w = Ok (tt, w').
Proof.
  intro w. destruct (punish_takes_at_most_one_coin w) as (w' & Hrun & _).
  - intros n. reflexivity.
  - repeat constructor; try reflexivity; vm_compute; discriminate.
  - exists w'. exact Hrun.
Defined.

(** ** Differences that are computed exactly *)

(** A value on the grid [2^a] that needs at most 53 bits there is not
    changed by the rounding. *)
Lemma binary_round_exact (s : bool) (m : positive) (e a k : Z) :
  -1074 <= a <= 970 ->
  (inject_Z (Zpos m) * pow2 e == inject_Z k * pow2 a)%Q ->
  (inject_Z (Zpos m) * pow2 e < pow2 (a + 53))%Q ->
  (F2Q (binary_round prec emax s m e) == inject_Z (cond_Zopp s (Zpos m)) * pow2 e)%Q.
Proof.
  intros Ha Hk Hlt.
  pose proof (digits_le_of_lt (Zpos m) e (a + 53) ltac:(lia) Hlt) as Hd. cbn [Zdigits2] in Hd.
  set (E := fexp prec emax (Zpos (digits2_pos m) + e)).
  assert (HE : E <= a) by (unfold E; rewrite fexp_eq; lia).
  destruct (binary_round_Q s m e) as (_ & _ & M & HM & Hval & H1 & H2 & _).
  { fold E. unfold emax, prec. lia. }
  fold E in Hval, H1, H2. rewrite Hval.
  assert (Hpa : (pow2 a == inject_Z (2 ^ (a - E)) * pow2 E)%Q).
  { rewrite pow2_inject by lia. rewrite <- pow2_add. now replace (a - E + E) with a by lia. }
  pose proof (pow2_pred E) as Hpred. pose proof (pow2_pos (E - 1)) as Hpos.
  set (J := k * 2 ^ (a - E)).
  assert (HJ : (inject_Z (Zpos m) * pow2 e == inject_Z J * pow2 E)%Q).
  { rewrite Hk, Hpa. unfold J. rewrite inject_Z_mult. ring. }
  assert (HMJ : M = J).
  { rewrite HJ, Hpred in H1, H2.
    assert (L1 : (inject_Z (2 * (M + - J)) <= inject_Z 1)%Q).
    { rewrite inject_Z_mult, inject_Z_plus, inject_Z_opp.
      change (inject_Z 2) with 2%Q. change (inject_Z 1) with 1%Q.
      generalize dependent (inject_Z M). generalize dependent (inject_Z J).
      generalize dependent (pow2 (E - 1)). intros. nra. }
    assert (L2 : (inject_Z (-1) <= inject_Z (2 * (M + - J)))%Q).
    { rewrite inject_Z_mult, inject_Z_plus, inject_Z_opp.
      change (inject_Z 2) with 2%Q. change (inject_Z (-1)) with (-1)%Q.
      generalize dependent (inject_Z M). generalize dependent (inject_Z J).
      generalize dependent (pow2 (E - 1)). intros. nra. }
    rewrite <- Zle_Qle in L1, L2. lia. }
  rewrite !inject_cond_Zopp. rewrite HMJ. destruct s; [|symmetry; exact HJ].
  setoid_replace (- inject_Z J * pow2 E)%Q with (- (inject_Z J * pow2 E))%Q by ring.
  rewrite <- HJ. ring.
Qed.

Lemma binary_normalize_exact (z e a k : Z) :
  -1074 <= a <= 970 ->
  (inject_Z z * pow2 e == inject_Z k * pow2 a)%Q ->
  (- pow2 (a + 53) < inject_Z z * pow2 e < pow2 (a + 53))%Q ->
  (F2Q (binary_normalize prec emax z e false) == inject_Z z * pow2 e)%Q.
Proof.
  intros Ha Hk Hlt. destruct z as [|m|m]; cbn [binary_normalize].
  - cbn [F2Q]. change (inject_Z 0) with 0%Q. ring.
  - rewrite (binary_round_exact false m e a k Ha Hk ltac:(tauto)). reflexivity.
  - change (Zneg m) with (- Zpos m) in *. rewrite inject_Z_opp in *.
    rewrite (binary_round_exact true m e a (- k) Ha).
    + cbn [cond_Zopp]. rewrite inject_Z_opp. reflexivity.
    + rewrite inject_Z_opp.
      setoid_replace (- inject_Z k * pow2 a)%Q with (- (inject_Z k * pow2 a))%Q by ring.
      rewrite <- Hk. ring.
    + lra.
Qed.

(** The difference of two floats of the grid [2^a] is exact when it needs
    at most 53 bits there. *)
Lemma fsub_exact (x y : float) (a kx ky : Z) :
  is_finite x = true -> is_finite y = true ->
  -1074 <= a <= 970 ->
  (F2Q x == inject_Z kx * pow2 a)%Q ->
  (F2Q y == inject_Z ky * pow2 a)%Q ->
  (- pow2 (a + 53) < F2Q x - F2Q y < pow2 (a + 53))%Q ->
  (F2Q (fsub x y) == F2Q x - F2Q y)%Q.
Proof.
  intros Fx Fy Ha Hx Hy Hlt.
  destruct x as [sx|sx| |sx mx ex]; try discriminate;
    destruct y as [sy|sy| |sy my ey]; try discriminate.
  - destruct sx, sy; cbn; ring.
  - cbn [fsub SFsub F2Q]. rewrite !inject_cond_Zopp. destruct sy; cbn [negb]; ring.
  - cbn [fsub SFsub F2Q]. ring.
  - unfold fsub. cbn [SFsub].
    set (ez := Z.min ex ey) in *.
    rewrite (F2Q_aligned sx mx ex ez), (F2Q_aligned sy my ey ez) in * by (unfold ez; lia).
    set (zx := cond_Zopp sx (Zpos (fst (shl_align mx ex ez)))) in *.
    set (zy := cond_Zopp sy (Zpos (fst (shl_align my ey ez)))) in *.
    assert (Hs : (inject_Z zx * pow2 ez - inject_Z zy * pow2 ez
                  == inject_Z (zx - zy) * pow2 ez)%Q).
    { unfold Z.sub. rewrite inject_Z_plus, inject_Z_opp. ring. }
    rewrite Hs in *.
    apply (binary_normalize_exact (zx - zy) ez a (kx - ky) Ha); [|exact Hlt].
    rewrite <- Hs, Hx, Hy. unfold Z.sub. rewrite inject_Z_plus, inject_Z_opp. ring.
Qed.

(** ** The inactivity test, exactly *)

Lemma pow2_19 : (pow2 19 == 524288)%Q.
Proof. reflexivity. Qed.

Lemma pow2_54 : (pow2 54 == 18014398509481984)%Q.
Proof. reflexivity. Qed.

Lemma half_ulp_54 : (half_ulp 54 == 1)%Q.
Proof. reflexivity. Qed.

Lemma recent_clock_Q (t : float) :
  recent_clock t = true ->
  valid t = true /\ is_finite t = true /\
  (262144 <= F2Q t < 9007199254740992)%Q /\
  exists k, (F2Q t == inject_Z k * pow2 (-34))%Q.
Proof.
  unfold recent_clock. rewrite andb_true_iff. intros [Hc Hr].
  destruct (clock_reading_Q t Hc) as (Vt & Ft & H0 & H1).
  apply fle_Q in Hr; [|reflexivity|exact Vt|reflexivity|exact Ft].
  assert (E : (F2Q (float_of_int (2 ^ 18)) == 262144)%Q) by reflexivity.
  rewrite E in Hr. split; [exact Vt|]. split; [exact Ft|]. split; [lra|].
  destruct t as [s|s| |s m e]; try discriminate.
  - cbn [F2Q] in Hr. lra.
  - destruct (valid_finite_bounds s m e Vt) as (He & Hm & _).
    cbn [F2Q] in *.
    assert (Hge : -34 <= e).
    { destruct (Z.le_gt_cases (-34) e) as [L|G]; [exact L|exfalso].
      assert (Hs : s = false).
      { destruct s; [|reflexivity]. rewrite inject_cond_Zopp in H0.
        pose proof (pow2_pos e).
        assert (0 < inject_Z (Zpos m))%Q by (rewrite <- (Zlt_Qlt 0); lia). nra. }
      subst s. cbn [cond_Zopp] in Hr.
      assert (Hm' : (inject_Z (Zpos m) < pow2 53)%Q).
      { rewrite <- pow2_inject by lia. now rewrite <- Zlt_Qlt. }
      assert (Hp : (pow2 e <= pow2 (-35))%Q) by (apply pow2_le; lia).
      assert (Hprod : (pow2 53 * pow2 (-35) == 262144)%Q) by reflexivity.
      pose proof (pow2_pos e). pose proof (pow2_pos 53).
      assert (0 < inject_Z (Zpos m))%Q by (rewrite <- (Zlt_Qlt 0); lia).
      generalize dependent (inject_Z (Zpos m)). generalize dependent (pow2 e).
      generalize dependent (pow2 53). generalize dependent (pow2 (-35)). intros. nra. }
    exists (cond_Zopp s (Zpos m) * 2 ^ (e + 34)).
    rewrite inject_Z_mult, pow2_inject by lia. rewrite <- Qmult_assoc, <- pow2_add.
    now replace (e + 34 + -34) with e by lia.
Qed.

(** The test [time.time() - i.last_login > 86400] is the test on the
    exact difference. *)
Lemma inactive_iff (t : float) (i : UserData.t) :
  recent_clock t = true -> Z.abs (UserData.last_login i) < 2 ^ 53 ->
  (inactive t i = true <-> (86400 < F2Q t - inject_Z (UserData.last_login i))%Q).
Proof.
  intros Ht Hl. destruct (recent_clock_Q t Ht) as (Vt & Ft & Bt & kt & Hkt).
  destruct (float_of_int_exact _ Hl) as (Fl & Vl & El).
  set (l := UserData.last_login i) in *.
  set (y := float_of_int l) in *.
  pose proof (fsub_valid t y Vt Vl) as Vr.
  pose proof F2Q_86400 as E864.
  assert (V864 : valid (float_of_int 86400) = true) by reflexivity.
  assert (Bl : (- 9007199254740992 < inject_Z l < 9007199254740992)%Q).
  { assert (B1 : (inject_Z (- 2 ^ 53) < inject_Z l)%Q) by (rewrite <- Zlt_Qlt; lia).
    assert (B2 : (inject_Z l < inject_Z (2 ^ 53))%Q) by (rewrite <- Zlt_Qlt; lia).
    split; [exact B1|exact B2]. }
  pose proof pow2_19 as P19. pose proof pow2_54 as P54. pose proof half_ulp_54 as H54.
  unfold inactive. fold l y.
  destruct (Qlt_le_dec (F2Q t - inject_Z l) 524288) as [Hsmall|Hbig].
  - destruct (Qlt_le_dec (- 524288) (F2Q t - inject_Z l)) as [Hsmall'|Hneg].
    + assert (Hex : (F2Q (fsub t y) == F2Q t - F2Q y)%Q).
      { apply (fsub_exact t y (-34) kt (l * 2 ^ 34) Ft Fl ltac:(lia) Hkt).
        - rewrite El, inject_Z_mult, pow2_inject by lia. rewrite <- Qmult_assoc, <- pow2_add.
          change (pow2 (34 + -34)) with 1%Q. ring.
        - change (-34 + 53) with 19. rewrite El, P19. lra. }
      destruct (fsub_Q t y 54 Ft Fl) as (Fr & _ & _).
      { rewrite El, P54. lra. } { unfold emax. lia. }
      rewrite flt_Q by assumption. rewrite Hex, El, E864. tauto.
    + destruct (fsub_Q t y 54 Ft Fl) as (Fr & Hr & _).
      { rewrite El, P54. lra. } { unfold emax. lia. }
      rewrite H54, El in Hr.
      rewrite flt_Q by assumption. rewrite E864. split; intros; lra.
  - destruct (fsub_Q t y 54 Ft Fl) as (Fr & Hr & _).
    { rewrite El, P54. lra. } { unfold emax. lia. }
    rewrite H54, El in Hr.
    rewrite flt_Q by assumption. rewrite E864. split; intros; lra.
Qed.

(** X14: for a clock reading from 1970-01-04 on, the float test
    [time.time() - i.last_login > 86400] of the sweep is the test on the
    exact difference: a row at most 86400 seconds old is left as it is,
    an older row with more than one coin is punished. *)
Theorem punish_exactly_after_a_day (w : World) :
  draws_in_unit w ->
  exists w',
    punish_all_inactive_users w = Ok (tt, w') /\
    forall k i, nth_error (userdata (tables w)) k = Some i ->
      let t := time_src w k in
      recent_clock t = true ->
      Z.abs (UserData.last_login i) < 2 ^ 53 ->
      exists i',
        nth_error (userdata (tables w')) k = Some i' /\
        ((F2Q t - inject_Z (UserData.last_login i) <= 86400)%Q -> i' = i) /\
        ((86400 < F2Q t - inject_Z (UserData.last_login i))%Q -> above_one i = true ->
         exists r, unit_draw r = true /\
                   i' = UserData.set_Coins (py_round (fsub (UserData.Coins i) r) 3) i).
Proof.
  intros Hdraws.
  destruct (punish_all_inactive_users_run w Hdraws) as (w' & Hrun & _ & _ & _ & Hrows).
  exists w'. split; [exact Hrun|]. intros k i Hi t Ht Hl.
  destruct (Hrows k i Hi) as (i' & Hi' & Hp). exists i'. split; [exact Hi'|].
  fold t in Hp. unfold punished in Hp.
  pose proof (inactive_iff t i Ht Hl) as Hiff.
  split.
  - intros Hle. destruct (inactive t i) eqn:E.
    + exfalso. apply (Qlt_not_le _ _ (proj1 Hiff eq_refl)). exact Hle.
    + exact Hp.
  - intros Hgt Habove. rewrite (proj2 Hiff Hgt), Habove in Hp. cbn [andb] in Hp.
    destruct Hp as (r & [n ->] & ->). exists (random_src w n). split; [apply Hdraws|reflexivity].
Qed.

Lemma punish_exactly_after_a_day_witness :
  let w := mkWorld (mkTables [UserData.mk 7 (literal 12 1) (1700000000 - 86400);
                              UserData.mk 8 (literal 25 1) (1700000000 - 86401)] [] [])
                   (fun _ => float_of_int 1700000000) (fun _ => "2024-01-01"%string)
                   (fun _ => literal 75 2) in
  exists w', punish_all_inactive_users w = Ok (tt, w') /\
             nth_error (userdata (tables w')) 0 = Some (UserData.mk 7 (literal 12 1) (1700000000 - 86400)).
Proof.
  intro w. destruct (punish_exactly_after_a_day w) as (w' & Hrun & Hrows).
  - intros n. reflexivity.
  - exists w'. split; [exact Hrun|].
    destruct (Hrows 0%nat _ eq_refl eq_refl) as (i' & Hi' & Hkeep & _).
    + vm_compute. reflexivity.
    + rewrite Hi'. f_equal. apply Hkeep. vm_compute. discriminate.
Defined.

(** ** Checking in protects for a day *)

Lemma find_pointwise (p : UserData.t -> bool) (l l' : list UserData.t) :
  List.length l' = List.length l ->
  (forall k a, nth_error l k = Some a ->
               exists a', nth_error l' k = Some a' /\
                          p a' = p a /\ (p a = true -> a' = a)) ->
  find p l' = find p l.
Proof.
  revert l'. induction l as [|a l IH]; intros [|a' l'] Hlen H; try discriminate; [reflexivity|].
  destruct (H 0%nat a eq_refl) as (b & Hb & Hpb & Hsame). cbn in Hb. injection Hb as <-.
  cbn [find]. rewrite Hpb. destruct (p a) eqn:E.
  - now rewrite Hsame.
  - apply IH; [now injection Hlen|]. intros k x Hx. exact (H (S k) x Hx).
Qed.

(** X15: after [update_activity], a sweep whose clock readings are at
    most 86399 seconds later leaves the balance of the user as it
    was. *)
Theorem update_activity_protects_for_a_day (userid : Z) (w : World) (u : UserData.t) :
  first (by_userid userid) (userdata (tables w)) = Some u ->
  draws_in_unit w ->
  (forall n, recent_clock (time_src w n) = true) ->
  (forall n, (F2Q (time_src w n) <= F2Q (time_src w 0%nat) + 86399)%Q) ->
  exists w',
    (update_activity userid ;;; punish_all_inactive_users) w = Ok (tt, w') /\
    get_Coins userid w' = Ok (UserData.Coins u, w').
Proof.
  intros Hu Hdraws Hclock Hday.
  assert (Hc0 : clock_reading (time_src w 0%nat) = true).
  { specialize (Hclock 0%nat). unfold recent_clock in Hclock.
    now apply andb_true_iff in Hclock. }
  destruct (int_clock _ Hc0) as (now & Hnow & Hrange & Hfrac).
  assert (Hact : update_activity userid w
                 = Ok (tt, mkWorld (with_userdata
                                      (update (by_userid userid) (UserData.set_last_login now)
                                              (userdata (tables w))) (tables w))
                                   (tl_src (time_src w)) (today_src w) (random_src w))).
  { unfold update_activity, is_in_table. run. rewrite Hu. cbn [negb]. run.
    rewrite Hnow. run. reflexivity. }
  set (w1 := mkWorld _ _ _ _) in Hact.
  rewrite (bind_Ok _ _ _ _ _ Hact).
  destruct (punish_all_inactive_users_run w1 Hdraws) as (w' & Hrun & _ & _ & Hlen & Hrows).
  exists w'. split; [exact Hrun|].
  unfold get_Coins. run. unfold first in *.
  rewrite (find_pointwise (by_userid userid) (userdata (tables w1)) (userdata (tables w'))).
  - unfold w1. run. rewrite find_update by (intros a Ha; exact Ha). rewrite Hu. reflexivity.
  - exact Hlen.
  - intros k a Ha. destruct (Hrows k a Ha) as (a' & Ha' & Hp). exists a'.
    split; [exact Ha'|]. destruct (punished_frame _ _ _ _ Hp) as (Hid & _ & Hsame).
    split; [unfold by_userid; now rewrite Hid|].
    intros Hmatch. apply Hsame.
    assert (Hlog : UserData.last_login a = now).
    { unfold w1 in Ha. run. unfold update in Ha. rewrite nth_error_map in Ha.
      destruct (nth_error (userdata (tables w)) k) as [a0|]; [|discriminate].
      cbn in Ha. injection Ha as <-.
      destruct (by_userid userid a0) eqn:E; [reflexivity|].
      rewrite E in Hmatch. discriminate. }
    assert (Hin : inactive (time_src w1 k) a = false).
    { destruct (inactive (time_src w1 k) a) eqn:E; [|reflexivity]. exfalso.
      apply inactive_iff in E.
      - rewrite Hlog in E. unfold w1 in E. cbn [time_src] in E. unfold tl_src in E.
        specialize (Hday (S k)). lra.
      - unfold w1. cbn [time_src]. unfold tl_src. apply Hclock.
      - rewrite Hlog. lia. }
    now rewrite Hin.
Qed.

Lemma update_activity_protects_for_a_day_witness :
  let w := mkWorld (mkTables [UserData.mk 7 (literal 12 1) 5] [] [])
                   (fun _ => float_of_int 1700000000) (fun _ => "2024-01-01"%string)
                   (fun _ => literal 75 2) in
  exists w', (update_activity 7 ;;; punish_all_inactive_users) w = Ok (tt, w') /\
             get_Coins 7 w' = Ok (literal 12 1, w').
Proof.
  intro w.
  apply (update_activity_protects_for_a_day 7 w (UserData.mk 7 (literal 12 1) 5) eq_refl).
  - intros n. reflexivity.
  - intros n. reflexivity.
  - intros n. vm_compute. discriminate.
Defined.

(** ** Any sequence of calls *)

Lemma subsequence_refl {A} (l : list A) : subsequence l l.
Proof. induction l; constructor; assumption. Qed.

Lemma subsequence_trans {A} (l1 l2 l3 : list A) :
  subsequence l1 l2 -> subsequence l2 l3 -> subsequence l1 l3.
Proof.
  intros H12 H23. revert l1 H12.
  induction H23 as [|a l l' H IH|a l l' H IH]; intros l1 H12.
  - exact H12.
  - inversion H12 as [|b k k' Hk|b k k' Hk]; subst.
    + apply subsequence_cons, IH, Hk.
    + apply subsequence_skip, IH, Hk.
  - apply subsequence_skip, IH, H12.
Qed.


(** A new row leaves the rows of the table in the order they had. *)
Lemma subsequence_insert_by_key {A} (key : A -> Z) (r : A) (rows : list A) :
  subsequence (map key rows) (map key (insert_by_key key r rows)).
Proof.
  induction rows as [|x rows IH]; cbn [insert_by_key map].
  - apply subsequence_skip, subsequence_nil.
  - destruct (key r <? key x); cbn [map].
    + apply subsequence_skip, subsequence_refl.
    + apply subsequence_cons, IH.
Qed.

Lemma grows_refl (s : Tables) : grows s s.
Proof.
  split; [apply subsequence_refl|]. split; [apply subsequence_refl|].
  exists []. now rewrite app_nil_r.
Qed.

Lemma grows_trans (s1 s2 s3 : Tables) : grows s1 s2 -> grows s2 s3 -> grows s1 s3.
Proof.
  intros (H1 & H2 & [p1 H3]) (K1 & K2 & [p2 K3]).
  split; [|split].
  - eapply subsequence_trans; eassumption.
  - eapply subsequence_trans; eassumption.
  - exists (p1 ++ p2). now rewrite K3, H3, app_assoc.
Qed.

Lemma finite_clock_tl (w w' : World) :
  finite_clock w -> time_src w' = tl_src (time_src w) -> finite_clock w'.
Proof. intros H E n. rewrite E. apply H. Qed.

Lemma no_nan_update (p : UserData.t -> bool) (f : UserData.t -> UserData.t)
      (us : list UserData.t) :
  (forall u, is_nan (UserData.Coins u) = false -> is_nan (UserData.Coins (f u)) = false) ->
  no_nan_Coins us -> no_nan_Coins (update p f us).
Proof.
  intros Hf H. unfold no_nan_Coins, update in *. rewrite Forall_map.
  eapply Forall_impl; [|exact H]. intros u Hu. cbn beta. destruct (p u); auto.
Qed.

Lemma step_same (w w' : World) :
  tables w' = tables w -> time_src w' = time_src w -> step_ok w w'.
Proof.
  intros Ht Hs. split; [|split].
  - intros H n. rewrite Hs. apply H.
  - now rewrite Ht.
  - rewrite Ht. apply grows_refl.
Qed.

Lemma step_trans (w1 w2 w3 : World) : step_ok w1 w2 -> step_ok w2 w3 -> step_ok w1 w3.
Proof.
  intros (A1 & A2 & A3) (B1 & B2 & B3). split; [auto|]. split; [auto|].
  eapply grows_trans; eassumption.
Qed.

Lemma step_add_user (w w' : World) (userid now : Z) :
  existsb (by_userid userid) (userdata (tables w)) = false ->
  tables w' = with_userdata
                (insert_by_key UserData.userid (UserData.mk userid (float_of_int 10) now)
                               (userdata (tables w)))
                (tables w) ->
  time_src w' = tl_src (time_src w) ->
  step_ok w w'.
Proof.
  intros Hex Ht Hs. split; [|split].
  - intros H. now apply (finite_clock_tl w).
  - intros (U & G & P & N). rewrite Ht. unfold consistent. run.
    pose proof (insert_by_key_perm UserData.userid (UserData.mk userid (float_of_int 10) now)
                                   (userdata (tables w))) as Hperm.
    split; [|split; [exact G|split; [exact P|]]].
    + eapply Permutation_NoDup;
        [apply Permutation_sym, (Permutation_map UserData.userid), Hperm|].
      cbn [map UserData.userid]. constructor; [|exact U].
      intros Hin. apply in_map_iff in Hin. destruct Hin as (u & Hu & Hin).
      apply find_existsb_none in Hex.
      apply (find_none _ _ Hex) in Hin. unfold by_userid in Hin. apply Z.eqb_neq in Hin. lia.
    + unfold no_nan_Coins in *. eapply Permutation_Forall; [apply Permutation_sym, Hperm|].
      constructor; [reflexivity|exact N].
  - rewrite Ht. unfold grows. run. split; [|split].
    + apply subsequence_insert_by_key.
    + apply subsequence_refl.
    + exists []. now rewrite app_nil_r.
Qed.

Lemma step_update_user (w w' : World) (userid : Z) (f : UserData.t -> UserData.t) :
  (forall u, UserData.userid (f u) = UserData.userid u) ->
  (forall u, is_nan (UserData.Coins u) = false -> is_nan (UserData.Coins (f u)) = false) ->
  tables w' = with_userdata (update (by_userid userid) f (userdata (tables w))) (tables w) ->
  time_src w' = tl_src (time_src w) ->
  step_ok w w'.
Proof.
  intros Hid Hnan Ht Hs. split; [|split].
  - intros H. now apply (finite_clock_tl w).
  - intros (U & G & P & N). rewrite Ht. unfold consistent. run.
    rewrite map_update_key by exact Hid.
    split; [exact U|]. split; [exact G|]. split; [exact P|]. now apply no_nan_update.
  - rewrite Ht. unfold grows. run. rewrite map_update_key by exact Hid.
    split; [apply subsequence_refl|]. split; [apply subsequence_refl|].
    exists []. now rewrite app_nil_r.
Qed.

Lemma add_new_user_step (userid : Z) (w w' : World) :
  add_new_user userid w = Ok (tt, w') -> step_ok w w'.
Proof.
  unfold add_new_user, add_user. run.
  destruct (int (PyFlt (time_src w 0%nat))) as [now|e]; run; [|discriminate].
  cbn [UserData.userid].
  destruct (existsb (by_userid userid) (userdata (tables w))) eqn:Hex; run; [discriminate|].
  intros [= <-]. now apply (step_add_user _ _ userid now).
Qed.

Lemma update_activity_step (userid : Z) (w w' : World) :
  update_activity userid w = Ok (tt, w') -> step_ok w w'.
Proof.
  unfold update_activity. unfold bind at 1. unfold is_in_table at 1. run.
  destruct (first (by_userid userid) (userdata (tables w))) as [u|]; cbn [negb].
  - run. destruct (int (PyFlt (time_src w 0%nat))) as [now|e]; run; [|discriminate].
    intros [= <-]. apply (step_update_user _ _ userid (UserData.set_last_login now));
      try reflexivity. intros u0 H. exact H.
  - unfold bind at 1.
    destruct (add_new_user userid w) as [[[] w1]|e] eqn:Hadd; [|discriminate].
    pose proof (add_new_user_step _ _ _ Hadd) as Hstep1. run.
    destruct (int (PyFlt (time_src w1 0%nat))) as [now|e]; run; [|discriminate].
    intros [= <-]. apply (step_trans _ w1); [exact Hstep1|].
    apply (step_update_user _ _ userid (UserData.set_last_login now)); try reflexivity.
    intros u0 H. exact H.
Qed.

Lemma set_Coins_step (userid : Z) (length : float) (w w' : World) :
  set_Coins userid length w = Ok (tt, w') -> step_ok w w'.
Proof.
  unfold set_Coins. run.
  destruct (first (by_userid userid) (userdata (tables w))) as [u|]; cbn [attr]; run;
    [|discriminate].
  destruct (int (PyFlt (time_src w 0%nat))) as [now|e]; run; [|discriminate].
  unfold not_null.
  destruct (is_nan (py_round (fadd (UserData.Coins u) length) 3)) eqn:Hnan; run; [discriminate|].
  intros [= <-].
  apply (step_update_user _ _ userid
           (fun u0 => UserData.set_last_login now
                        (UserData.set_Coins
                           (real (py_round (fadd (UserData.Coins u) length) 3)) u0)));
    try reflexivity. intros u0 _. cbn [UserData.set_last_login UserData.set_Coins UserData.Coins].
  rewrite real_nan. exact Hnan.
Qed.

Lemma set_group_allow_step (groupid : Z) (allow : bool) (w w' : World) :
  set_group_allow groupid allow w = Ok (tt, w') -> step_ok w w'.
Proof.
  unfold set_group_allow, first. run.
  destruct (find (by_groupid groupid) (groupdata (tables w))) as [g|] eqn:Hf.
  - run. intros [= <-]. split; [|split].
    + intros H. exact H.
    + intros (U & G & P & N). unfold consistent. run.
      rewrite map_update_key by reflexivity. auto.
    + unfold grows. run. rewrite map_update_key by reflexivity.
      split; [apply subsequence_refl|]. split; [apply subsequence_refl|].
      exists []. now rewrite app_nil_r.
  - pose proof Hf as Hex. apply find_existsb_none in Hex.
    unfold add_group. cbn [GroupData.groupid]. rewrite Hex. run.
    intros [= <-]. split; [|split].
    + intros H. exact H.
    + intros (U & G & P & N). unfold consistent. run.
      rewrite map_update_key by reflexivity.
      split; [exact U|]. split; [|split; [exact P|exact N]].
      eapply Permutation_NoDup;
        [apply Permutation_sym, (Permutation_map GroupData.groupid), insert_by_key_perm|].
      cbn [map GroupData.groupid]. constructor; [|exact G].
      intros Hin. apply in_map_iff in Hin. destruct Hin as (g & Hg & Hin).
      apply (find_none _ _ Hf) in Hin. unfold by_groupid in Hin. apply Z.eqb_neq in Hin. lia.
    + unfold grows. run. rewrite map_update_key by reflexivity.
      split; [apply subsequence_refl|]. split; [apply subsequence_insert_by_key|].
      exists []. now rewrite app_nil_r.
Qed.

Lemma insert_pay_step (userid : Z) (volume : number) (w w' : World) :
  insert_pay userid volume w = Ok (tt, w') -> step_ok w w'.
Proof.
  intros Hrun. destruct (int volume) as [v|e] eqn:Hv.
  - destruct (insert_pay_inv userid volume v w w' Hv Hrun) as (_ & Hu & Hg & Hsrc & _ & _ & Hps).
    cbv zeta in Hps.
    split; [|split].
    + intros H n. rewrite Hsrc. apply H.
    + intros (U & G & P & N). unfold consistent. rewrite Hu, Hg.
      split; [exact U|]. split; [exact G|]. split; [|exact N].
      pose proof (insert_pay_keeps_one_per_day userid volume w P) as Hk.
      unfold after in Hk. now rewrite Hrun in Hk.
    + unfold grows. rewrite Hu, Hg, Hps.
      split; [apply subsequence_refl|]. split; [apply subsequence_refl|].
      destruct (first _ _).
      * rewrite map_update_key by reflexivity. exists []. now rewrite app_nil_r.
      * rewrite map_app. eexists. reflexivity.
  - rewrite (insert_pay_raises _ _ e w Hv) in Hrun. discriminate.
Qed.

Lemma for_each_punish_row_step (rows : list UserData.t) : forall (w w' : World) rows',
  for_each punish_row rows w = Ok (rows', w') ->
  tables w' = tables w /\
  map UserData.userid rows' = map UserData.userid rows /\
  (no_nan_Coins rows -> no_nan_Coins rows') /\
  (finite_clock w -> finite_clock w').
Proof.
  induction rows as [|i rows IH]; intros w w' rows'.
  - cbn. intros [= <- <-]. auto.
  - cbn [for_each]. unfold bind at 1. rewrite punish_row_run. cbv zeta.
    set (c' := py_round (fsub (UserData.Coins i) (random_src w 0%nat)) 3).
    destruct (inactive (time_src w 0%nat) i && above_one i).
    + destruct (is_nan c') eqn:Hnan; [discriminate|].
      unfold bind at 1.
      destruct (for_each punish_row rows _) as [[rest w1]|e] eqn:Hrest; [|discriminate].
      cbn [ret]. intros [= <- <-].
      destruct (IH _ _ _ Hrest) as (Ht & Hid & Hn & Hc). cbn [tables] in Ht.
      split; [exact Ht|]. split; [cbn; now rewrite Hid|]. split.
      * unfold no_nan_Coins in *. intros N. inversion N; subst.
        constructor; [exact Hnan|auto].
      * intros F. apply Hc. intros n. apply (F (S n)).
    + unfold bind at 1.
      destruct (for_each punish_row rows _) as [[rest w1]|e] eqn:Hrest; [|discriminate].
      cbn [ret]. intros [= <- <-].
      destruct (IH _ _ _ Hrest) as (Ht & Hid & Hn & Hc). cbn [tables] in Ht.
      split; [exact Ht|]. split; [cbn; now rewrite Hid|]. split.
      * unfold no_nan_Coins in *. intros N. inversion N; subst. constructor; auto.
      * intros F. apply Hc. intros n. apply (F (S n)).
Qed.

Lemma punish_all_inactive_users_step (w w' : World) :
  punish_all_inactive_users w = Ok (tt, w') -> step_ok w w'.
Proof.
  unfold punish_all_inactive_users. unfold bind at 1. cbn [session]. unfold bind at 1.
  destruct (for_each punish_row (userdata (tables w)) w) as [[rows' w1]|e] eqn:Hfor; [|discriminate].
  destruct (for_each_punish_row_step _ _ _ _ Hfor) as (Ht & Hid & Hn & Hc).
  cbn [commit]. intros [= <-]. split; [|split].
  - intros F n. cbn [time_src]. now apply Hc.
  - intros (U & G & P & N). unfold consistent. run. rewrite Hid. auto.
  - unfold grows. run. rewrite Hid.
    split; [apply subsequence_refl|]. split; [apply subsequence_refl|].
    exists []. now rewrite app_nil_r.
Qed.

Lemma bind_get_today_pay_data (userid : Z) (w : World) :
  (get_today_pay_data userid ;;; ret tt) w =
  match first (pay_by_userid_date userid (today_src w 0%nat)) (pay_data (tables w)) with
  | Some _ =>
      match first (pay_by_userid_date userid (today_src w 1%nat)) (pay_data (tables w)) with
      | Some r => Ok (tt, mkWorld (tables w) (time_src w) (tl_src (tl_src (today_src w)))
                                  (random_src w))
      | None => Raise AttributeError
      end
  | None => Ok (tt, mkWorld (tables w) (time_src w) (tl_src (today_src w)) (random_src w))
  end.
Proof.
  unfold bind at 1. rewrite get_today_pay_data_run. cbv zeta.
  destruct (first (pay_by_userid_date userid (today_src w 0%nat)) (pay_data (tables w)));
    [|reflexivity].
  destruct (first (pay_by_userid_date userid (today_src w 1%nat)) (pay_data (tables w)));
    reflexivity.
Qed.

Lemma exec_step (c : call) (w w' : World) :
  exec c w = Ok (tt, w') -> step_ok w w'.
Proof.
  destruct c; cbn [exec].
  - unfold is_in_table. run. intros [= <-]. now apply step_same.
  - apply add_new_user_step.
  - apply update_activity_step.
  - unfold get_Coins, bind, session.
    destruct (first (by_userid userid) (userdata (tables w))); cbn [attr lift ret raise];
      [|discriminate].
    intros [= <-]. now apply step_same.
  - apply set_Coins_step.
  - unfold check_group_allow, bind, session.
    destruct (first (by_groupid groupid) (groupdata (tables w))); cbn [attr lift ret raise];
      intros [= <-]; now apply step_same.
  - apply set_group_allow_step.
  - apply insert_pay_step.
  - unfold get_pay_data. run. intros [= <-]. now apply step_same.
  - rewrite (bind_get_today_pay_data userid w).
    destruct (first (pay_by_userid_date userid (today_src w 0%nat)) (pay_data (tables w))).
    + destruct (first (pay_by_userid_date userid (today_src w 1%nat)) (pay_data (tables w)));
        [|discriminate].
      intros [= <-]. now apply step_same.
    + intros [= <-]. now apply step_same.
  - apply punish_all_inactive_users_step.
  - unfold get_sorted. run. intros [= <-]. now apply step_same.
Qed.

Lemma after_exec_step (c : call) (w : World) : step_ok w (after (exec c) w).
Proof.
  unfold after. destruct (exec c w) as [[[] w']|e] eqn:H.
  - now apply (exec_step c).
  - now apply step_same.
Qed.

Lemma after_calls_step (calls : list call) : forall w, step_ok w (after_calls calls w).
Proof.
  unfold after_calls. induction calls as [|c calls IH]; intros w; cbn [fold_left].
  - now apply step_same.
  - apply (step_trans _ (after (exec c) w)); [apply after_exec_step|apply IH].
Qed.

(** X16: whatever the calls and their order, and whether they return or
    raise, the store stays consistent: userids and groupids stay unique,
    there is at most one payment record per user and day, and no balance
    is a NaN. *)
Theorem calls_keep_the_store_consistent (calls : list call) (w : World) :
  finite_clock w ->
  consistent (tables w) ->
  consistent (tables (after_calls calls w)).
Proof.
  intros _ H. now apply (after_calls_step calls w).
Qed.

Lemma calls_keep_the_store_consistent_witness :
  let w := mkWorld (mkTables [] [] [])
                   (fun _ => float_of_int 1700000000) (fun _ => "2024-01-01"%string)
                   (fun _ => literal 75 2) in
  consistent (tables (after_calls [Update_activity 7; Set_Coins 7 (literal 53333 4);
                                   Add_new_user 7; Set_group_allow 3 true;
                                   Insert_pay 7 (PyInt 100); Insert_pay 7 (PyFlt (literal 5 1));
                                   Punish_all_inactive_users; Get_Coins 8] w)).
Proof.
  intro w. apply (calls_keep_the_store_consistent _ w).
  - intros n. reflexivity.
  - repeat split; constructor.
Defined.


